(** * PubMed baseline mirror: the download / verification pipeline

    A shallow embedding of the TypeScript sources
      - [config.ts]     (constants),
      - [storage.ts]    (the task record, [downloadFile], the snapshot file),
      - [download.ts]   (listing extraction, reconciliation),
      - [downloader.ts] (the [Downloader] class: two worker loops and [start]).

    JavaScript runs the program on one thread: a piece of code runs without
    interruption until it reaches an [await], and is resumed when the awaited
    I/O completes.  The model therefore is a labelled transition system: a
    state is the content of the [Downloader] object together with the
    suspended async closures (the pending promises), and a step is the
    completion of one I/O operation followed by everything that runs
    synchronously after it. *)

From Stdlib Require Import Ascii String DecimalString DecimalNat.
From stdpp Require Import gmap strings list fin_maps.

Local Open Scope string_scope.
Local Open Scope list_scope.
Local Open Scope nat_scope.

(** ** config.ts *)

Module Config.

Definition baseUrl : string := "https://ftp.ncbi.nlm.nih.gov/pubmed/baseline".
Definition downloadDir : string := "data/downloads".
Definition CONCURRENT_DOWNLOADS : nat := 10.
Definition CONCURRENT_VERIFICATIONS : nat := 5.
Definition MAX_RETRIES : nat := 3.

End Config.
Export Config.

(** ** storage.ts: the task record *)

(** [status: 'pending' | 'downloading' | 'downloaded' | 'failed' | 'verified'] *)
Inductive Status := Pending | Downloading | Downloaded | Failed | Verified.

#[global] Instance Status_eq_dec : EqDecision Status.
Proof. solve_decision. Defined.

(** The string each status is at run time (and in the snapshot file). *)
Definition status_name (st : Status) : string :=
  match st with
  | Pending => "pending"
  | Downloading => "downloading"
  | Downloaded => "downloaded"
  | Failed => "failed"
  | Verified => "verified"
  end.

(** [progress?: { bytes: number, total: number }] *)
Record Progress := mkProgress { bytes : nat; total : nat }.

Record DownloadTask := mkTask {
  filename : string;
  url : string;
  md5 : option string;
  status : Status;
  attempts : nat;
  progress : option Progress
}.

#[global] Instance DownloadTask_inhabited : Inhabited DownloadTask :=
  populate (mkTask "" "" None Pending 0 None).

Definition with_status (st : Status) (t : DownloadTask) : DownloadTask :=
  mkTask (filename t) (url t) (md5 t) st (attempts t) (progress t).

Definition with_attempts (n : nat) (t : DownloadTask) : DownloadTask :=
  mkTask (filename t) (url t) (md5 t) (status t) n (progress t).

Definition with_progress (pr : option Progress) (t : DownloadTask) : DownloadTask :=
  mkTask (filename t) (url t) (md5 t) (status t) (attempts t) pr.

(** [task.progress.bytes = n]: the object in [task.progress] is updated in
    place, its [total] stays. *)
Definition with_bytes (n : nat) (pr : Progress) : option Progress :=
  Some (mkProgress n (total pr)).

(** ** downloader.ts: the state of a run *)

(** The async closure started for one task is a promise.  A download closure
    waits, in this order, for the response of [fetch], for the chunks of the
    body, and for [onProgress] (the snapshot write); a verification closure
    waits for [computeFileHash], for [getMd5], and for [onProgress]. *)
Inductive DlPhase := Fetching | Streaming | DlSaving.
Inductive VfPhase := Hashing | FetchingMd5 (localHash : option string) | VfSaving.

Inductive Promise :=
| DlWorker (task : nat) (ph : DlPhase)
| VfWorker (task : nat) (ph : VfPhase)
| Settled.

(** Where a worker loop ([processDownloads], [processVerifications]) is:
    suspended in [await Promise.race(...)] on the promises it read from its
    map, suspended in the 100 ms [setTimeout], or returned. *)
Inductive Loop := Racing (ids : list nat) | Sleeping | Returned.

Inductive Pass := FirstPass | SecondPass | Finished.

(** Tasks are JavaScript objects shared by reference between [tasks], the two
    queues and the closures: a reference is the index of the task in [tasks].
    A promise is identified by its index in [promises], which only grows. *)
Record Downloader := mkDownloader {
  tasks : list DownloadTask;
  downloadQueue : list nat;
  verifyQueue : list nat;
  activeDownloads : gmap string nat;
  activeVerifications : gmap string nat;
  activeTasks : list nat;
  promises : list Promise;
  downloadLoop : Loop;
  verifyLoop : Loop;
  pass : Pass
}.

Definition set_tasks v s := mkDownloader v (downloadQueue s) (verifyQueue s)
  (activeDownloads s) (activeVerifications s) (activeTasks s) (promises s)
  (downloadLoop s) (verifyLoop s) (pass s).
Definition set_downloadQueue v s := mkDownloader (tasks s) v (verifyQueue s)
  (activeDownloads s) (activeVerifications s) (activeTasks s) (promises s)
  (downloadLoop s) (verifyLoop s) (pass s).
Definition set_verifyQueue v s := mkDownloader (tasks s) (downloadQueue s) v
  (activeDownloads s) (activeVerifications s) (activeTasks s) (promises s)
  (downloadLoop s) (verifyLoop s) (pass s).
Definition set_activeDownloads v s := mkDownloader (tasks s) (downloadQueue s)
  (verifyQueue s) v (activeVerifications s) (activeTasks s) (promises s)
  (downloadLoop s) (verifyLoop s) (pass s).
Definition set_activeVerifications v s := mkDownloader (tasks s) (downloadQueue s)
  (verifyQueue s) (activeDownloads s) v (activeTasks s) (promises s)
  (downloadLoop s) (verifyLoop s) (pass s).
Definition set_activeTasks v s := mkDownloader (tasks s) (downloadQueue s)
  (verifyQueue s) (activeDownloads s) (activeVerifications s) v (promises s)
  (downloadLoop s) (verifyLoop s) (pass s).
Definition set_promises v s := mkDownloader (tasks s) (downloadQueue s)
  (verifyQueue s) (activeDownloads s) (activeVerifications s) (activeTasks s) v
  (downloadLoop s) (verifyLoop s) (pass s).
Definition set_downloadLoop v s := mkDownloader (tasks s) (downloadQueue s)
  (verifyQueue s) (activeDownloads s) (activeVerifications s) (activeTasks s)
  (promises s) v (verifyLoop s) (pass s).
Definition set_verifyLoop v s := mkDownloader (tasks s) (downloadQueue s)
  (verifyQueue s) (activeDownloads s) (activeVerifications s) (activeTasks s)
  (promises s) (downloadLoop s) v (pass s).
Definition set_pass v s := mkDownloader (tasks s) (downloadQueue s)
  (verifyQueue s) (activeDownloads s) (activeVerifications s) (activeTasks s)
  (promises s) (downloadLoop s) (verifyLoop s) v.

(** [task.f = ...] through the reference [i]. *)
Definition update_task (i : nat) (f : DownloadTask → DownloadTask) (s : Downloader) : Downloader :=
  set_tasks (alter f i (tasks s)) s.

Definition task_at (s : Downloader) (i : nat) : DownloadTask := tasks s !!! i.

(** [activeTasks] is a [Set]: [add] keeps one copy, [delete] removes it. *)
Definition activeTasks_add (i : nat) (s : Downloader) : Downloader :=
  set_activeTasks (if bool_decide (i ∈ activeTasks s) then activeTasks s
                   else activeTasks s ++ [i]) s.
Definition activeTasks_delete (i : nat) (s : Downloader) : Downloader :=
  set_activeTasks (filter (λ j, j ≠ i) (activeTasks s)) s.

(** [new Downloader(tasks, onProgress)] *)
Definition refs_with (st : Status) (ts : list DownloadTask) : list nat :=
  filter (λ i, status (ts !!! i) = st) (seq 0 (length ts)).

Definition Downloader_new (ts : list DownloadTask) : Downloader :=
  mkDownloader ts (refs_with Pending ts) (refs_with Downloaded ts)
               ∅ ∅ [] [] Returned Returned FirstPass.

(** *** processDownloads *)

(** The body of the closure up to its first [await] (the [fetch] inside
    [downloadFile]), then [activeDownloads.set(task.filename, promise)]. *)
Definition launch_download (i : nat) (s : Downloader) : Downloader :=
  let s1 := activeTasks_add i (update_task i (with_status Downloading) s) in
  let p := length (promises s1) in
  set_activeDownloads (<[filename (task_at s1 i) := p]> (activeDownloads s1))
    (set_promises (promises s1 ++ [DlWorker i Fetching]) s1).

(** The inner [while]: shift and launch while the queue is non-empty and the
    map holds fewer than [CONCURRENT_DOWNLOADS] entries. *)
Fixpoint fill_downloads (q : list nat) (s : Downloader) : Downloader :=
  match q with
  | [] => s
  | i :: rest =>
      if decide (size (activeDownloads s) < CONCURRENT_DOWNLOADS)
      then fill_downloads rest (launch_download i (set_downloadQueue rest s))
      else s
  end.

Definition map_values (m : gmap string nat) : list nat := (map_to_list m).*2.

(** [processDownloads] from the top of its outer [while] to the next [await]
    or to its return.  After the inner loop, an empty map means that nothing
    was launched and that the queue is empty (lemma
    [processDownloads_returns_idle] below), so the next test of the outer
    condition ends the loop. *)
Definition processDownloads (s : Downloader) : Downloader :=
  if decide (downloadQueue s ≠ [] ∨ 0 < size (activeDownloads s)) then
    let s1 := fill_downloads (downloadQueue s) s in
    if decide (0 < size (activeDownloads s1))
    then set_downloadLoop (Racing (map_values (activeDownloads s1))) s1
    else set_downloadLoop Returned s1
  else set_downloadLoop Returned s.

(** *** processVerifications *)

Definition launch_verification (i : nat) (s : Downloader) : Downloader :=
  let s1 := activeTasks_add i
              (update_task i (with_progress (Some (mkProgress 0 100)))
                 (update_task i (with_status Downloading) s)) in
  let p := length (promises s1) in
  set_activeVerifications (<[filename (task_at s1 i) := p]> (activeVerifications s1))
    (set_promises (promises s1 ++ [VfWorker i Hashing]) s1).

Fixpoint fill_verifications (q : list nat) (s : Downloader) : Downloader :=
  match q with
  | [] => s
  | i :: rest =>
      if decide (size (activeVerifications s) < CONCURRENT_VERIFICATIONS)
      then fill_verifications rest (launch_verification i (set_verifyQueue rest s))
      else s
  end.

Definition downloads_outstanding (s : Downloader) : Prop :=
  downloadQueue s ≠ [] ∨ 0 < size (activeDownloads s).

#[global] Instance downloads_outstanding_dec s : Decision (downloads_outstanding s).
Proof. unfold downloads_outstanding. apply _. Defined.

(** [processVerifications] from the top of its outer [while] to the next
    [await] or to its return. *)
Definition processVerifications (s : Downloader) : Downloader :=
  if decide (verifyQueue s ≠ [] ∨ 0 < size (activeVerifications s)
             ∨ downloads_outstanding s) then
    if decide (verifyQueue s = []
               ∧ size (activeVerifications s) < CONCURRENT_VERIFICATIONS
               ∧ downloads_outstanding s)
    then set_verifyLoop Sleeping s
    else
      let s1 := fill_verifications (verifyQueue s) s in
      if decide (0 < size (activeVerifications s1))
      then set_verifyLoop (Racing (map_values (activeVerifications s1))) s1
      else set_verifyLoop Returned s1
  else set_verifyLoop Returned s.

(** *** start *)

(** [Promise.all([this.processDownloads(), this.processVerifications()])]:
    both calls run to their first [await] one after the other. *)
Definition joint_pass (s : Downloader) : Downloader :=
  processVerifications (processDownloads s).

Definition both_returned (s : Downloader) : bool :=
  match downloadLoop s, verifyLoop s with
  | Returned, Returned => true
  | _, _ => false
  end.

(** What [start] does once the [Promise.all] it waits for is resolved. *)
Definition start_resume (s : Downloader) : Downloader :=
  if both_returned s then
    match pass s with
    | FirstPass =>
        match downloadQueue s with
        | [] => set_pass Finished s
        | _ :: _ =>
            let s1 := joint_pass (set_pass SecondPass s) in
            if both_returned s1 then set_pass Finished s1 else s1
        end
    | SecondPass => set_pass Finished s
    | Finished => s
    end
  else s.

Definition start (s : Downloader) : Downloader :=
  start_resume (joint_pass (set_pass FirstPass s)).

(** *** The worker closures after their first [await] *)

Definition set_promise (p : nat) (w : Promise) (s : Downloader) : Downloader :=
  set_promises (<[p := w]> (promises s)) s.

(** Download succeeded: [task.status = 'downloaded'; verifyQueue.push(task)]. *)
Definition download_succeeded (i : nat) (s : Downloader) : Downloader :=
  let s1 := update_task i (with_status Downloaded) s in
  set_verifyQueue (verifyQueue s1 ++ [i]) s1.

(** The [catch] block of the download closure. *)
Definition download_failed (i : nat) (s : Downloader) : Downloader :=
  let s1 := update_task i (λ t, with_attempts (S (attempts t)) t) s in
  let s2 := if decide (attempts (task_at s1 i) < MAX_RETRIES)
            then set_downloadQueue (downloadQueue s1 ++ [i]) s1
            else update_task i (with_status Failed) s1 in
  activeTasks_delete i s2.

(** Hash mismatch, and the [catch] block of the verification closure: both do
    [task.status = 'pending'; downloadQueue.unshift(task)]. *)
Definition verification_failed (i : nat) (s : Downloader) : Downloader :=
  let s1 := update_task i (with_status Pending) s in
  set_downloadQueue (i :: downloadQueue s1) s1.

Definition verification_passed (i : nat) (s : Downloader) : Downloader :=
  update_task i (with_status Verified) s.

(** The [finally] block of the verification closure. *)
Definition verification_finally (i : nat) (s : Downloader) : Downloader :=
  activeTasks_delete i (update_task i (with_progress None) s).

(** [!x] for a value that is a string or [null]. *)
Definition falsy (x : option string) : bool :=
  match x with
  | None => true
  | Some h => bool_decide (h = "")
  end.

(** The closure from the answer of [getMd5] to its [await onProgress].
    An assignment to [task.progress.bytes] throws a TypeError when
    [task.progress] is undefined, which the [catch] block handles like any
    other error. *)
Definition verification_conclude (i : nat) (localHash remoteMd5 : option string)
    (s : Downloader) : Downloader :=
  verification_finally i
    match progress (task_at s i) with
    | None => verification_failed i s
    | Some pr =>
        let s1 := update_task i (with_progress (with_bytes 75 pr)) s in
        if falsy localHash || falsy remoteMd5 then verification_failed i s1
        else
          match progress (task_at s1 i) with
          | None => verification_failed i s1
          | Some pr1 =>
              let s2 := update_task i (with_progress (with_bytes 100 pr1)) s1 in
              if decide (localHash = remoteMd5) then verification_passed i s2
              else verification_failed i s2
          end
    end.

(** *** Steps *)

(** The completions of I/O the run waits for.  [Response], [Chunk],
    [EndOfStream] and [TransferError] are what [downloadFile] sees for the
    download closure [p]; [HashResult] and [Md5Result] are the answers of
    [computeFileHash] and [getMd5] ([None] when they fail, which the closure
    turns into [null]); [Persisted] is the end of [onProgress]; [Tick] is the
    100 ms timer of the verification loop. *)
Inductive Event :=
| Response (p : nat) (contentLength : nat)
| Chunk (p : nat) (len : nat)
| EndOfStream (p : nat)
| TransferError (p : nat)
| HashResult (p : nat) (h : option string)
| Md5Result (p : nat) (h : option string)
| Persisted (p : nat)
| Tick.

Definition wake_downloads (p : nat) (s : Downloader) : Downloader :=
  match downloadLoop s with
  | Racing ids => if bool_decide (p ∈ ids) then processDownloads s else s
  | _ => s
  end.

Definition wake_verifications (p : nat) (s : Downloader) : Downloader :=
  match verifyLoop s with
  | Racing ids => if bool_decide (p ∈ ids) then processVerifications s else s
  | _ => s
  end.

(** One step: the event resumes the closure that waits for it, which runs to
    its next [await].  [task.progress.bytes += n] in [downloadFile] throws a
    TypeError when [task.progress] is undefined, and the download fails.  When the closure ends, its promise is settled: the
    [finally] callback registered at launch deletes the entry of the task's
    filename from the map, the loop is resumed if it races on this promise,
    and [start] is resumed if both loops have returned.  [None]: nothing in
    the state waits for this event. *)
Definition step (e : Event) (s : Downloader) : option Downloader :=
  match e with
  | Response p len =>
      match promises s !! p with
      | Some (DlWorker i Fetching) =>
          Some (set_promise p (DlWorker i Streaming)
                  (update_task i (with_progress (Some (mkProgress 0 len))) s))
      | _ => None
      end
  | Chunk p n =>
      match promises s !! p with
      | Some (DlWorker i Streaming) =>
          match progress (task_at s i) with
          | Some pr =>
              Some (update_task i (with_progress (with_bytes (bytes pr + n) pr)) s)
          | None => Some (set_promise p (DlWorker i DlSaving) (download_failed i s))
          end
      | _ => None
      end
  | EndOfStream p =>
      match promises s !! p with
      | Some (DlWorker i Streaming) =>
          Some (set_promise p (DlWorker i DlSaving) (download_succeeded i s))
      | _ => None
      end
  | TransferError p =>
      match promises s !! p with
      | Some (DlWorker i Fetching) | Some (DlWorker i Streaming) =>
          Some (set_promise p (DlWorker i DlSaving) (download_failed i s))
      | _ => None
      end
  | HashResult p h =>
      match promises s !! p with
      | Some (VfWorker i Hashing) =>
          match progress (task_at s i) with
          | Some pr =>
              Some (set_promise p (VfWorker i (FetchingMd5 h))
                      (update_task i (with_progress (with_bytes 50 pr)) s))
          | None =>
              Some (set_promise p (VfWorker i VfSaving)
                      (verification_finally i (verification_failed i s)))
          end
      | _ => None
      end
  | Md5Result p m =>
      match promises s !! p with
      | Some (VfWorker i (FetchingMd5 h)) =>
          Some (set_promise p (VfWorker i VfSaving) (verification_conclude i h m s))
      | _ => None
      end
  | Persisted p =>
      match promises s !! p with
      | Some (DlWorker i DlSaving) =>
          let s1 := set_activeDownloads
                      (delete (filename (task_at s i)) (activeDownloads s))
                      (set_promise p Settled s) in
          Some (start_resume (wake_downloads p s1))
      | Some (VfWorker i VfSaving) =>
          let s1 := set_activeVerifications
                      (delete (filename (task_at s i)) (activeVerifications s))
                      (set_promise p Settled s) in
          Some (start_resume (wake_verifications p s1))
      | _ => None
      end
  | Tick =>
      match verifyLoop s with
      | Sleeping => Some (start_resume (processVerifications s))
      | _ => None
      end
  end.

Fixpoint run (evs : list Event) (s : Downloader) : option Downloader :=
  match evs with
  | [] => Some s
  | e :: evs' =>
      match step e s with
      | Some s1 => run evs' s1
      | None => None
      end
  end.

(** The transfers, and the verifications, that are under way. *)
Definition transferring (w : Promise) : bool :=
  match w with
  | DlWorker _ Fetching | DlWorker _ Streaming => true
  | _ => false
  end.

Definition verifying (w : Promise) : bool :=
  match w with
  | VfWorker _ Hashing | VfWorker _ (FetchingMd5 _) => true
  | _ => false
  end.

Definition downloads_in_flight (s : Downloader) : nat :=
  length (filter (λ w, transferring w = true) (promises s)).

Definition verifications_in_flight (s : Downloader) : nat :=
  length (filter (λ w, verifying w = true) (promises s)).

(** ** download.ts: reconciliation *)

Definition createTask (f : string) (st : Status) : DownloadTask :=
  mkTask f (baseUrl ++ "/" ++ f) None st 0 None.

(** The task list [main] builds from the remote listing (in the order of the
    [Set]) and the set of local files. *)
Definition reconcile (remoteFiles : list string) (localFiles : gset string) : list DownloadTask :=
  let missingFiles := filter (λ f, f ∉ localFiles) remoteFiles in
  let existingFiles := filter (λ f, f ∈ localFiles) remoteFiles in
  ((λ f, createTask f Pending) <$> missingFiles)
  ++ ((λ f, createTask f Downloaded) <$> existingFiles).

(** ** download.ts: the remote listing

    [getRemoteFileList] runs the regular expression
    [href=Q(pubmed\d+n\d+\.xml\.gz)(?:\.md5)?Q] (Q is the double quote) with
    the [g] flag over the text of the listing, and adds the first group of
    every match to a [Set]. *)

Definition dquote : string := String "034"%char EmptyString.

Definition is_digit (c : ascii) : bool :=
  (48 <=? nat_of_ascii c) && (nat_of_ascii c <=? 57).

(** [s] without the prefix [pre], when it starts with it. *)
Fixpoint strip_prefix (pre s : string) : option string :=
  match pre, s with
  | EmptyString, _ => Some s
  | String c pre', String d s' =>
      if decide (c = d) then strip_prefix pre' s' else None
  | String _ _, EmptyString => None
  end.

(** [\d+] is greedy: the longest run of digits at the start of [s], and what
    follows it.  A shorter run is followed by a digit, which neither [n] nor
    [.] matches, so that backtracking into the run never succeeds. *)
Fixpoint span_digits (s : string) : string * string :=
  match s with
  | String c s' =>
      if is_digit c
      then let (ds, rest) := span_digits s' in (String c ds, rest)
      else (EmptyString, s)
  | EmptyString => (EmptyString, EmptyString)
  end.

(** [pubmed\d+n\d+\.xml\.gz] at the start of [s]: the text that matches and
    what follows it. *)
Definition match_file (s : string) : option (string * string) :=
  r1 ← strip_prefix "pubmed" s;
  let (d1, r2) := span_digits r1 in
  if decide (d1 = EmptyString) then None else
  r3 ← strip_prefix "n" r2;
  let (d2, r4) := span_digits r3 in
  if decide (d2 = EmptyString) then None else
  r5 ← strip_prefix ".xml.gz" r4;
  Some (("pubmed" ++ d1 ++ "n" ++ d2 ++ ".xml.gz")%string, r5).

(** The whole expression at the start of [s]: the first group and what
    follows the match.  [(?:\.md5)?] is tried first with the suffix, then
    without it. *)
Definition match_href (s : string) : option (string * string) :=
  r0 ← strip_prefix ("href=" ++ dquote) s;
  '(name, r1) ← match_file r0;
  match strip_prefix ".md5" r1 ≫= strip_prefix dquote with
  | Some r2 => Some (name, r2)
  | None => r2 ← strip_prefix dquote r1; Some (name, r2)
  end.

(** [xmlFiles.add(name)]: a [Set] keeps the order of insertion. *)
Definition set_add (name : string) (found : list string) : list string :=
  if decide (name ∈ found) then found else found ++ [name].

(** The loop [while ((match = fileRegex.exec(text)) !== null)]: [exec] looks
    for the leftmost match at or after [lastIndex], and moves [lastIndex]
    behind it.  Every round consumes a character, so that [fuel] as large as
    the text is enough. *)
Fixpoint scan (fuel : nat) (text : string) (found : list string) : list string :=
  match fuel with
  | 0 => found
  | S fuel' =>
      match match_href text with
      | Some (name, rest) => scan fuel' rest (set_add name found)
      | None =>
          match text with
          | String _ text' => scan fuel' text' found
          | EmptyString => found
          end
      end
  end.

Definition getRemoteFileList (text : string) : list string :=
  scan (String.length text) text [].

(** The names the expression captures. *)
Fixpoint all_digits (s : string) : bool :=
  match s with
  | String c s' => is_digit c && all_digits s'
  | EmptyString => true
  end.

Definition baseline_file (name : string) : Prop :=
  ∃ d1 d2, d1 ≠ EmptyString ∧ d2 ≠ EmptyString
    ∧ all_digits d1 = true ∧ all_digits d2 = true
    ∧ name = ("pubmed" ++ d1 ++ "n" ++ d2 ++ ".xml.gz")%string.

(** One anchor of the listing. *)
Definition anchor (target : string) : string :=
  ("<a href=" ++ dquote ++ target ++ dquote ++ ">" ++ target ++ "</a>")%string.

(** [r] does not start with a digit. *)
Definition stops_digits (r : string) : Prop :=
  match r with
  | String c _ => is_digit c = false
  | EmptyString => True
  end.

(** ** storage.ts: the snapshot file

    [saveProgress] writes [JSON.stringify(tasks, null, 2)] to the progress
    file, [loadProgress] returns [JSON.parse] of its content.  [json] is the
    values the two exchange, [json_print] and [json_parse] are the two
    functions of the JavaScript run time, for texts of 8-bit characters and
    numbers that are natural. *)

#[local] Unset Elimination Schemes.

Inductive json :=
| JNull
| JBool (b : bool)
| JNum (n : nat)
| JStr (s : string)
| JArr (items : list json)
| JObj (fields : list (string * json)).

#[local] Set Elimination Schemes.

Definition backslash : ascii := "092"%char.
Definition newline : string := String "010"%char EmptyString.

Definition hex_digit (n : nat) : ascii :=
  ascii_of_nat (if n <? 10 then 48 + n else 87 + n).

(** A character inside a string literal: quote, backslash and the control
    characters are escaped. *)
Definition escape_char (c : ascii) : string :=
  let n := nat_of_ascii c in
  if n =? 8 then String backslash "b"
  else if n =? 9 then String backslash "t"
  else if n =? 10 then String backslash "n"
  else if n =? 12 then String backslash "f"
  else if n =? 13 then String backslash "r"
  else if n =? 34 then String backslash dquote
  else if n =? 92 then String backslash (String backslash EmptyString)
  else if n <? 32
       then String backslash
              (String "u" (String "0" (String "0" (String (hex_digit (n / 16))
                 (String (hex_digit (n mod 16)) EmptyString)))))
       else String c EmptyString.

Fixpoint quote_body (s : string) : string :=
  match s with
  | EmptyString => EmptyString
  | String c s' => (escape_char c ++ quote_body s')%string
  end.

Definition quote (s : string) : string := (dquote ++ quote_body s ++ dquote)%string.

Fixpoint spaces (n : nat) : string :=
  match n with
  | 0 => EmptyString
  | S n' => String " " (spaces n')
  end.

Fixpoint join_with (sep : string) (parts : list string) : string :=
  match parts with
  | [] => EmptyString
  | [x] => x
  | x :: rest => (x ++ sep ++ join_with sep rest)%string
  end.

Definition print_nat (n : nat) : string :=
  DecimalString.NilEmpty.string_of_uint (Nat.to_uint n).

(** [JSON.stringify(v, null, 2)], at the indentation [ind]. *)
Fixpoint json_print (ind : nat) (v : json) : string :=
  match v with
  | JNull => "null"
  | JBool true => "true"
  | JBool false => "false"
  | JNum n => print_nat n
  | JStr s => quote s
  | JArr [] => "[]"
  | JArr items =>
      ("[" ++ newline ++ spaces (ind + 2)
       ++ join_with ("," ++ newline ++ spaces (ind + 2))
            (map (json_print (ind + 2)) items)
       ++ newline ++ spaces ind ++ "]")%string
  | JObj [] => "{}"
  | JObj fields =>
      ("{" ++ newline ++ spaces (ind + 2)
       ++ join_with ("," ++ newline ++ spaces (ind + 2))
            (map (λ kv, quote (fst kv) ++ ": " ++ json_print (ind + 2) (snd kv)) fields)
       ++ newline ++ spaces ind ++ "}")%string
  end.

Definition is_ws (c : ascii) : bool :=
  let n := nat_of_ascii c in (n =? 32) || (n =? 10) || (n =? 13) || (n =? 9).

Fixpoint skip_ws (s : string) : string :=
  match s with
  | String c s' => if is_ws c then skip_ws s' else s
  | EmptyString => EmptyString
  end.

Definition hex_value (c : ascii) : option nat :=
  let n := nat_of_ascii c in
  if (48 <=? n) && (n <=? 57) then Some (n - 48)
  else if (97 <=? n) && (n <=? 102) then Some (n - 87)
  else if (65 <=? n) && (n <=? 70) then Some (n - 55)
  else None.

(** The rest of a string literal, after its opening quote. *)
Fixpoint parse_string_body (s : string) : option (string * string) :=
  match s with
  | EmptyString => None
  | String c s1 =>
      if decide (c = "034"%char) then Some (EmptyString, s1)
      else if decide (c = backslash) then
        match s1 with
        | String e s2 =>
            let plain (x : ascii) :=
              '(body, rest) ← parse_string_body s2; Some (String x body, rest) in
            if decide (e = "b"%char) then plain "008"%char
            else if decide (e = "t"%char) then plain "009"%char
            else if decide (e = "n"%char) then plain "010"%char
            else if decide (e = "f"%char) then plain "012"%char
            else if decide (e = "r"%char) then plain "013"%char
            else if decide (e = "/"%char) then plain "/"%char
            else if decide (e = "034"%char) then plain "034"%char
            else if decide (e = backslash) then plain backslash
            else if decide (e = "u"%char) then
              match s2 with
              | String h1 (String h2 (String h3 (String h4 s3))) =>
                  a ← hex_value h1; b ← hex_value h2;
                  c' ← hex_value h3; d ← hex_value h4;
                  if decide (a = 0 ∧ b = 0) then
                    '(body, rest) ← parse_string_body s3;
                    Some (String (ascii_of_nat (16 * c' + d)) body, rest)
                  else None
              | _ => None
              end
            else None
        | EmptyString => None
        end
      else if nat_of_ascii c <? 32 then None
      else '(body, rest) ← parse_string_body s1; Some (String c body, rest)
  end.

Definition parse_nat (s : string) : option (nat * string) :=
  let (ds, rest) := span_digits s in
  d ← DecimalString.NilEmpty.uint_of_string ds;
  if decide (ds = EmptyString) then None else Some (Nat.of_uint d, rest).

(** [s] behind the character [c], when it starts with it. *)
Definition expect (c : ascii) (s : string) : option string :=
  match s with
  | String d r => if decide (d = c) then Some r else None
  | EmptyString => None
  end.

(** A value, the items of an array after the first bracket, and the fields of
    an object after the first brace. *)
Fixpoint parse_value (fuel : nat) (s : string) : option (json * string) :=
  match fuel with
  | 0 => None
  | S fuel' =>
      match skip_ws s with
      | EmptyString => None
      | String c rest =>
          if decide (c = "034"%char) then
            '(str, r) ← parse_string_body rest; Some (JStr str, r)
          else if decide (c = "["%char) then
            match expect "]" (skip_ws rest) with
            | Some r => Some (JArr [], r)
            | None => '(items, r) ← parse_items fuel' rest; Some (JArr items, r)
            end
          else if decide (c = "{"%char) then
            match expect "}" (skip_ws rest) with
            | Some r => Some (JObj [], r)
            | None => '(fields, r) ← parse_fields fuel' rest; Some (JObj fields, r)
            end
          else if is_digit c then
            '(n, r) ← parse_nat (String c rest); Some (JNum n, r)
          else
            match strip_prefix "null" (String c rest) with
            | Some r => Some (JNull, r)
            | None =>
                match strip_prefix "true" (String c rest) with
                | Some r => Some (JBool true, r)
                | None =>
                    r ← strip_prefix "false" (String c rest); Some (JBool false, r)
                end
            end
      end
  end
with parse_items (fuel : nat) (s : string) : option (list json * string) :=
  match fuel with
  | 0 => None
  | S fuel' =>
      '(v, r) ← parse_value fuel' s;
      match expect "," (skip_ws r) with
      | Some r1 => '(vs, r2) ← parse_items fuel' r1; Some (v :: vs, r2)
      | None => r1 ← expect "]" (skip_ws r); Some ([v], r1)
      end
  end
with parse_fields (fuel : nat) (s : string) : option (list (string * json) * string) :=
  match fuel with
  | 0 => None
  | S fuel' =>
      r0 ← expect "034" (skip_ws s);
      '(k, r1) ← parse_string_body r0;
      r2 ← expect ":" (skip_ws r1);
      '(v, r3) ← parse_value fuel' r2;
      match expect "," (skip_ws r3) with
      | Some r4 => '(kvs, r5) ← parse_fields fuel' r4; Some ((k, v) :: kvs, r5)
      | None => r4 ← expect "}" (skip_ws r3); Some ([(k, v)], r4)
      end
  end.

(** [JSON.parse]: one value, and nothing but white space after it; [None]
    when it throws. *)
Definition json_parse (s : string) : option json :=
  '(v, r) ← parse_value (S (String.length s)) s;
  match skip_ws r with
  | EmptyString => Some v
  | _ => None
  end.

(** What a value costs to parse: as much [fuel] is enough. *)
Fixpoint cost (v : json) : nat :=
  match v with
  | JArr items => S (list_sum (map (λ x, S (cost x)) items))
  | JObj fields => S (list_sum (map (λ kv, S (cost (snd kv))) fields))
  | _ => 1
  end.

Fixpoint all_ws (s : string) : bool :=
  match s with
  | String c s' => is_ws c && all_ws s'
  | EmptyString => true
  end.

(** [s] starts with a character that is no white space and closes nothing. *)
Definition starts_value (s : string) : Prop :=
  match s with
  | String c _ => is_ws c = false ∧ c ≠ "]"%char ∧ c ≠ "}"%char
  | EmptyString => False
  end.

(** The object a task is. The keys are in the order of their creation:
    [createTask] writes the first four, [progress] is added later. *)
Definition progress_to_json (pr : Progress) : json :=
  JObj [("bytes"%string, JNum (bytes pr)); ("total"%string, JNum (total pr))].

Definition task_to_json (t : DownloadTask) : json :=
  JObj ([("filename"%string, JStr (filename t)); ("url"%string, JStr (url t));
         ("status"%string, JStr (status_name (status t)));
         ("attempts"%string, JNum (attempts t))]
        ++ match md5 t with Some h => [("md5"%string, JStr h)] | None => [] end
        ++ match progress t with
           | Some pr => [("progress"%string, progress_to_json pr)]
           | None => []
           end).

Definition tasks_to_json (ts : list DownloadTask) : json := JArr (task_to_json <$> ts).

(** [v.k], the property [k] of the value [v]. *)
Fixpoint assoc (k : string) (fields : list (string * json)) : option json :=
  match fields with
  | [] => None
  | (k', v) :: rest => if decide (k = k') then Some v else assoc k rest
  end.

Definition json_get (k : string) (v : json) : option json :=
  match v with
  | JObj fields => assoc k fields
  | _ => None
  end.

(** The content of the progress file, when it exists. *)
Definition Disk : Type := option string.

(** [saveProgress(tasks)], when [writeFile] succeeds. *)
Definition saveProgress (ts : list DownloadTask) (d : Disk) : Disk :=
  Some (json_print 0 (tasks_to_json ts)).

(** [loadProgress()]: the parsed content of the file; the empty list when
    there is no file, or when it cannot be read or parsed. *)
Definition loadProgress (d : Disk) : json :=
  match d with
  | Some data =>
      match json_parse data with
      | Some v => v
      | None => JArr []
      end
  | None => JArr []
  end.

(** [json_parse] reads [v] back from what [json_print] writes for it, whatever
    white space comes before and whatever comes behind. *)
Definition reads_back (v : json) : Prop :=
  ∀ ind fuel ws rest,
    cost v ≤ fuel → all_ws ws = true → stops_digits rest →
    parse_value fuel (ws ++ json_print ind v ++ rest) = Some (v, rest).

(** ** Who holds a task

    A task is held by the queue it waits in, or by the closure that transfers
    or verifies it.  A closure that only waits for [onProgress] has finished
    with its task and holds nothing. *)
Inductive Role := InDownloadQueue | InVerifyQueue | InTransfer | InVerification.

Definition promise_role (w : Promise) : option (nat * Role) :=
  match w with
  | DlWorker i Fetching | DlWorker i Streaming => Some (i, InTransfer)
  | VfWorker i Hashing | VfWorker i (FetchingMd5 _) => Some (i, InVerification)
  | _ => None
  end.

Definition queued_of (dq vq : list nat) : list (nat * Role) :=
  ((λ i, (i, InDownloadQueue)) <$> dq) ++ ((λ i, (i, InVerifyQueue)) <$> vq).

Definition owners_of (dq vq : list nat) (ps : list Promise) : list (nat * Role) :=
  queued_of dq vq ++ omap promise_role ps.

Definition owners (s : Downloader) : list (nat * Role) :=
  owners_of (downloadQueue s) (verifyQueue s) (promises s).

(** What holds of a task according to who holds it. *)
Definition role_ok (r : Role) (t : DownloadTask) : Prop :=
  attempts t < MAX_RETRIES ∧
  match r with
  | InDownloadQueue => status t = Pending ∨ status t = Downloading
  | InVerifyQueue => status t = Downloaded
  | InTransfer => status t = Downloading
  | InVerification =>
      status t = Downloading ∧ ∃ b, progress t = Some (mkProgress b 100)
  end.

(** What holds of every task. *)
Definition task_ok (t : DownloadTask) : Prop :=
  attempts t ≤ MAX_RETRIES
  ∧ (status t = Failed → attempts t = MAX_RETRIES)
  ∧ (status t = Pending ∨ status t = Verified → progress t = None).

Record consistent (s : Downloader) : Prop := mkConsistent {
  owners_nodup : NoDup (owners s).*1;
  owners_ok : ∀ i r t, (i, r) ∈ owners s → tasks s !! i = Some t → role_ok r t;
  tasks_ok : ∀ i t, tasks s !! i = Some t → task_ok t
}.

(** A task as reconciliation creates it. *)
Definition initial_task (t : DownloadTask) : Prop :=
  attempts t = 0 ∧ progress t = None
  ∧ (status t = Pending ∨ status t = Downloaded).

(** The states of a run that [main] starts on the task list [ts]. *)
Definition reachable (ts : list DownloadTask) (s : Downloader) : Prop :=
  ∃ evs, run evs (start (Downloader_new ts)) = Some s.

(** The task whose download attempt fails in the step [e] from [s]: the
    [catch] block of the download closure runs for it. *)
Definition failed_attempt (e : Event) (s : Downloader) : option nat :=
  match e with
  | TransferError p =>
      match promises s !! p with
      | Some (DlWorker i Fetching) | Some (DlWorker i Streaming) => Some i
      | _ => None
      end
  | Chunk p n =>
      match promises s !! p with
      | Some (DlWorker i Streaming) =>
          match progress (task_at s i) with
          | Some _ => None
          | None => Some i
          end
      | _ => None
      end
  | _ => None
  end.

(** The number of failed download attempts of task [i] along [evs] from [s]. *)
Fixpoint failures (i : nat) (evs : list Event) (s : Downloader) : nat :=
  match evs with
  | [] => 0
  | e :: evs' =>
      match step e s with
      | Some s1 =>
          (if decide (failed_attempt e s = Some i) then 1 else 0) + failures i evs' s1
      | None => 0
      end
  end.

(** The state a run of [main] on the task list [ts] is in after the events
    [evs] (the first state when the events cannot happen in this order). *)
Definition outcome (evs : list Event) (ts : list DownloadTask) : Downloader :=
  default (start (Downloader_new ts)) (run evs (start (Downloader_new ts))).

(** The guards of the two inner loops keep the maps within the caps. *)
Definition within_caps (s : Downloader) : Prop :=
  size (activeDownloads s) ≤ CONCURRENT_DOWNLOADS
  ∧ size (activeVerifications s) ≤ CONCURRENT_VERIFICATIONS.

(** As long as [start] waits for its first [Promise.all], one of the loops
    has not returned; and it never gets to its second one. *)
Definition in_first_pass (s : Downloader) : Prop :=
  pass s ≠ SecondPass ∧ (pass s = FirstPass → both_returned s = false).

(** The name and the counter of every task are the same in both lists. *)
Definition keeps (l l' : list DownloadTask) : Prop :=
  Forall2 (λ t t', attempts t' = attempts t ∧ filename t' = filename t) l l'.


(** ** Runs used below *)

Definition baseline_name (n : string) : string := "pubmed25n" ++ n ++ ".xml.gz".

Definition one_file : list string := [baseline_name "0001"].

Definition eleven_files : list string :=
  baseline_name <$> ["0001"; "0002"; "0003"; "0004"; "0005"; "0006"; "0007";
                     "0008"; "0009"; "0010"; "0011"]%string.

Definition hash_a : string := "d41d8cd98f00b204e9800998ecf8427e".
Definition hash_b : string := "9e107d9d372bb6826bd81d3542a419d6".

(** One file that is missing locally; its transfer fails twice. *)
Definition two_failures : list Event :=
  [TransferError 0; Persisted 0; Response 1 2048; TransferError 1; Persisted 1].

(** One file that is missing locally; its transfer succeeds. *)
Definition one_transfer : list Event :=
  [Response 0 2048; Chunk 0 1024; Chunk 0 1024; EndOfStream 0].

(** One file that is present locally, with a hash that is not the expected
    one. *)
Definition stale_copy : list Event :=
  [HashResult 0 (Some hash_a); Md5Result 0 (Some hash_b); Persisted 0].

(** Eleven missing files.  The transfer of the first fails, and the snapshot
    write of its closure (promise 0) is slow: the second and the third end and
    are saved first, so the first file is launched again (promise 12) while
    promise 0 is still pending.  Then promise 0 settles.  The second and the
    third file arrived empty, so their verifications (promises 11 and 13) find
    a hash that is not the expected one; the transfer of the fourth fails, and
    the download loop wakes up. *)
Definition overlapping_retry : list Event :=
  [TransferError 0;
   Response 1 2048; EndOfStream 1; Persisted 1; Tick;
   Response 2 2048; EndOfStream 2; Persisted 2;
   Persisted 0;
   HashResult 11 (Some hash_a); Md5Result 11 (Some hash_b); Persisted 11;
   HashResult 13 (Some hash_a); Md5Result 13 (Some hash_b);
   TransferError 3; Persisted 3].

(** A listing with two files and the checksum file of each. *)
Definition small_listing : string :=
  (anchor (baseline_name "0001") ++ anchor (baseline_name "0001" ++ ".md5")
   ++ anchor (baseline_name "0002") ++ anchor (baseline_name "0002" ++ ".md5"))%string.

(** ** storage.ts: the local files *)

(** [s.endsWith(suffix)]: some tail of [s] is [suffix]. *)
Fixpoint endsWith (suffix s : string) : bool :=
  if decide (s = suffix) then true
  else match s with
       | String _ s' => endsWith suffix s'
       | EmptyString => false
       end.

(** [getLocalFiles]: the names [readdir] gives that end in [.xml.gz]; the
    empty set when [readdir] throws ([None]). *)
Definition getLocalFiles (readdir : option (list string)) : gset string :=
  match readdir with
  | Some files => list_to_set (filter (λ f, endsWith ".xml.gz" f = true) files)
  | None => ∅
  end.

(** [computeLocalHashes(files, onProgress)]: the loop over the [Set] in the
    order of its elements.  [computeFileHash] is the function of the same
    name, [None] when it throws; the second component lists the calls of
    [onProgress]. *)
Fixpoint computeLocalHashes_from (computeFileHash : string → option string)
    (size : nat) (files : list string) (hashes : gmap string string)
    (processed : nat) : gmap string string * list (nat * nat) :=
  match files with
  | [] => (hashes, [])
  | file :: rest =>
      match computeFileHash file with
      | Some hash =>
          let (result, calls) :=
            computeLocalHashes_from computeFileHash size rest
              (<[file := hash]> hashes) (S processed) in
          (result, (S processed, size) :: calls)
      | None => computeLocalHashes_from computeFileHash size rest hashes processed
      end
  end.

Definition computeLocalHashes (computeFileHash : string → option string)
    (files : list string) : gmap string string * list (nat * nat) :=
  computeLocalHashes_from computeFileHash (length files) files ∅ 0.

(** [verifyChecksum(filename, expectedMd5)] *)
Definition verifyChecksum (computeFileHash : string → option string)
    (file expectedMd5 : string) : bool :=
  match computeFileHash file with
  | Some computedHash => bool_decide (computedHash = expectedMd5)
  | None => false
  end.

(** ** download.ts: the task list of [main] *)

(** The tasks [main] hands to the [Downloader], from the text of the remote
    listing and the answer of [readdir]. *)
Definition main_tasks (listing : string) (readdir : option (list string)) : list DownloadTask :=
  reconcile (getRemoteFileList listing) (getLocalFiles readdir).

(** ** downloader.ts: the expected hash *)

(** [a-f0-9] *)
Definition is_hex (c : ascii) : bool :=
  is_digit c || ((97 <=? nat_of_ascii c) && (nat_of_ascii c <=? 102)).

(** [[^)]+] is greedy: the longest run of characters other than the closing
    parenthesis at the start of [s], and what follows it.  What follows a
    shorter run is not a closing parenthesis, so that backtracking into the
    run never succeeds. *)
Fixpoint span_name (s : string) : string * string :=
  match s with
  | String c s' =>
      if decide (c = ")"%char) then (EmptyString, s)
      else let (name, rest) := span_name s' in (String c name, rest)
  | EmptyString => (EmptyString, EmptyString)
  end.

(** [[a-f0-9]{n}] at the start of [s]. *)
Fixpoint take_hex (n : nat) (s : string) : option string :=
  match n with
  | 0 => Some EmptyString
  | S n' =>
      match s with
      | String c s' =>
          if is_hex c then h ← take_hex n' s'; Some (String c h) else None
      | EmptyString => None
      end
  end.

(** [MD5\([^)]+\)= ([a-f0-9]{32})] at the start of [s]: the group. *)
Definition match_md5 (s : string) : option string :=
  r1 ← strip_prefix "MD5(" s;
  let (name, r2) := span_name r1 in
  if decide (name = EmptyString) then None else
  r3 ← strip_prefix ")= " r2;
  take_hex 32 r3.

(** [text.match(...)]: the leftmost place where the expression matches. *)
Fixpoint search_md5 (text : string) : option string :=
  match match_md5 text with
  | Some h => Some h
  | None =>
      match text with
      | String _ text' => search_md5 text'
      | EmptyString => None
      end
  end.

(** The answer of [fetch] for the checksum file. *)
Record HttpResponse := mkResponse { ok : bool; text : string }.

(** [getMd5(filename)] on the answer of [fetch] ([None] when [fetch]
    rejects); [None] when it throws. *)
Definition getMd5 (response : option HttpResponse) : option string :=
  match response with
  | Some r => if ok r then search_md5 (text r) else None
  | None => None
  end.

(** [getFailedTasks] *)
Definition getFailedTasks (s : Downloader) : list DownloadTask :=
  filter (λ t, status t = Failed) (tasks s).

(** ** progress.ts: the counters of the progress display *)

Record ProgressUI := mkProgressUI {
  lastLines : nat;
  ui_total : nat;
  ui_verified : nat;
  ui_downloaded : nat;
  lastVerified : nat;
  lastDownloaded : nat
}.

(** [new ProgressUI(total, verified, downloaded)] *)
Definition ProgressUI_new (total verified downloaded : nat) : ProgressUI :=
  mkProgressUI 0 total verified downloaded verified downloaded.

(** [setProgress(tasks)] *)
Definition setProgress (ts : list DownloadTask) (ui : ProgressUI) : ProgressUI :=
  mkProgressUI (lastLines ui) (ui_total ui)
    (length (filter (λ t, status t = Verified) ts))
    (length (filter (λ t, status t ∈ [Downloaded; Verified]) ts))
    (lastVerified ui) (lastDownloaded ui).

(** The display the constructor of [Downloader] creates. *)
Definition Downloader_ui (ts : list DownloadTask) : ProgressUI :=
  ProgressUI_new (length ts)
    (length (filter (λ t, status t = Verified) ts))
    (length (filter (λ t, status t ∈ [Downloaded; Verified]) ts)).

(** ** The status of a task along a run *)

(** The changes of status one step of a run makes. *)
Definition status_edge (a b : Status) : bool :=
  match a, b with
  | Pending, Downloading
  | Downloaded, Downloading
  | Downloading, Downloaded
  | Downloading, Failed
  | Downloading, Verified
  | Downloading, Pending => true
  | _, _ => false
  end.

(** No character of [s] is [c]. *)
Fixpoint lacks (c : ascii) (s : string) : bool :=
  match s with
  | String d s' => negb (bool_decide (d = c)) && lacks c s'
  | EmptyString => true
  end.

Fixpoint all_hex (s : string) : bool :=
  match s with
  | String c s' => is_hex c && all_hex s'
  | EmptyString => true
  end.

(** What the worker loops do to the task list [l] when they launch tasks of
    the queue [q]: a task is as it was, or it is one of [q] and now
    [Downloading]. *)
Definition started (q : list nat) (l l' : list DownloadTask) : Prop :=
  ∀ i, l' !! i = l !! i
       ∨ (i ∈ q ∧ ∃ t', l' !! i = Some t' ∧ status t' = Downloading).

(** From [s] to [s'] the loops have only launched tasks that were queued in
    [s], and have queued none. *)
Definition loop_touch (s s' : Downloader) : Prop :=
  started (downloadQueue s ++ verifyQueue s) (tasks s) (tasks s')
  ∧ downloadQueue s' ++ verifyQueue s' ⊆ downloadQueue s ++ verifyQueue s.

(** ** More runs used below *)

(** One file that is present locally, with the hash the server expects. *)
Definition good_copy : list Event :=
  [HashResult 0 (Some hash_a); Md5Result 0 (Some hash_a)].

(** One file that is missing locally; its transfer fails three times. *)
Definition three_failures : list Event :=
  two_failures ++ [TransferError 2].

(** The checksum file of the first file of the baseline. *)
Definition checksum_file : string :=
  ("MD5(" ++ baseline_name "0001" ++ ")= " ++ hash_a ++ newline)%string.

(** Every task that is neither [Failed] nor [Verified] is held: by a queue,
    or by a closure that transfers or verifies it. *)
Definition accounted (s : Downloader) : Prop :=
  ∀ i t, tasks s !! i = Some t →
    status t = Failed ∨ status t = Verified ∨ i ∈ (owners s).*1.

(** ** What a run waits for *)

Definition is_download (w : Promise) : Prop :=
  match w with DlWorker _ _ => True | _ => False end.

Definition is_verification (w : Promise) : Prop :=
  match w with VfWorker _ _ => True | _ => False end.

(** An entry of [activeDownloads] is the pending promise of a download
    closure, under the file name of its task; likewise [activeVerifications]. *)
Definition downloads_ok (s : Downloader) : Prop :=
  ∀ f p, activeDownloads s !! f = Some p →
    ∃ i ph, promises s !! p = Some (DlWorker i ph) ∧ filename (task_at s i) = f.

Definition verifications_ok (s : Downloader) : Prop :=
  ∀ f p, activeVerifications s !! f = Some p →
    ∃ i ph, promises s !! p = Some (VfWorker i ph) ∧ filename (task_at s i) = f.

(** A loop that waits in [Promise.race] waits for at least one promise, and
    all the promises it waits for are pending. *)
Definition loop_ok (is_worker : Promise → Prop) (s : Downloader) (l : Loop) : Prop :=
  match l with
  | Racing ids =>
      ids ≠ [] ∧ ∀ p, p ∈ ids → ∃ w, promises s !! p = Some w ∧ is_worker w
  | _ => True
  end.

Record alive (s : Downloader) : Prop := mkAlive {
  alive_downloads : downloads_ok s;
  alive_verifications : verifications_ok s;
  alive_download_loop : loop_ok is_download s (downloadLoop s);
  alive_never_sleeps : downloadLoop s ≠ Sleeping;
  alive_verify_loop : loop_ok is_verification s (verifyLoop s)
}.

(** From [s] to [s'] every closure is still there, for the same task, and the
    tasks have the names they had. *)
Definition carries (s s' : Downloader) : Prop :=
  (∀ q i ph, promises s !! q = Some (DlWorker i ph) →
     ∃ ph', promises s' !! q = Some (DlWorker i ph'))
  ∧ (∀ q i ph, promises s !! q = Some (VfWorker i ph) →
       ∃ ph', promises s' !! q = Some (VfWorker i ph'))
  ∧ ∀ j, filename (task_at s' j) = filename (task_at s j).

(** The completion the closure [p] waits for (one of them, for a transfer). *)
Definition awaited (p : nat) (w : Promise) : option Event :=
  match w with
  | DlWorker _ Fetching => Some (TransferError p)
  | DlWorker _ Streaming => Some (EndOfStream p)
  | DlWorker _ DlSaving => Some (Persisted p)
  | VfWorker _ Hashing => Some (HashResult p None)
  | VfWorker _ (FetchingMd5 _) => Some (Md5Result p None)
  | VfWorker _ VfSaving => Some (Persisted p)
  | Settled => None
  end.

(** * Properties of the pipeline *)

(** ** Lists of promises *)

Section promise_lists.
Context {A B : Type} (g : A → option B).

Lemma omap_insert_split (l : list A) (p : nat) (w w' : A) :
  l !! p = Some w →
  ∃ l1 l2, omap g l = l1 ++ option_list (g w) ++ l2
           ∧ omap g (<[p:=w']> l) = l1 ++ option_list (g w') ++ l2.
Proof.
  intros Hp. exists (omap g (take p l)), (omap g (drop (S p) l)). split.
  - rewrite <- (take_drop_middle l p w Hp) at 1.
    rewrite omap_app. simpl. by destruct (g w).
  - rewrite insert_take_drop by (by eapply lookup_lt_Some).
    rewrite omap_app. simpl. by destruct (g w').
Qed.

Lemma omap_insert_same (l : list A) (p : nat) (w w' : A) :
  l !! p = Some w → g w' = g w → omap g (<[p:=w']> l) = omap g l.
Proof.
  intros Hp Hg. destruct (omap_insert_split l p w w' Hp) as (l1 & l2 & -> & ->).
  by rewrite Hg.
Qed.
End promise_lists.

Lemma promise_role_take (ps : list Promise) p w i r w' :
  ps !! p = Some w → promise_role w = Some (i, r) →
  ∃ rest, omap promise_role ps ≡ₚ (i, r) :: rest
          ∧ omap promise_role (<[p:=w']> ps) ≡ₚ option_list (promise_role w') ++ rest.
Proof.
  intros Hp Hr.
  destruct (omap_insert_split promise_role ps p w w' Hp) as (l1 & l2 & -> & ->).
  exists (l1 ++ l2). rewrite Hr. simpl. split; solve_Permutation.
Qed.

(** ** Reading and writing a task through its reference *)

Lemma task_at_lookup s i t : tasks s !! i = Some t → task_at s i = t.
Proof. intros H. by apply list_lookup_total_correct. Qed.

Lemma task_at_update s i f t :
  tasks s !! i = Some t → task_at (update_task i f s) i = f t.
Proof.
  intros H. apply list_lookup_total_correct. simpl.
  by rewrite list_lookup_alter_eq, H.
Qed.

(** ** Consistency is kept when the holder of a task updates and hands it on *)

Lemma consistent_move s s' i r (new : option Role) rest f :
  consistent s →
  owners s ≡ₚ (i, r) :: rest →
  owners s' ≡ₚ option_list (pair i <$> new) ++ rest →
  tasks s' = alter f i (tasks s) →
  (∀ t, tasks s !! i = Some t → role_ok r t → task_ok t →
        task_ok (f t) ∧ ∀ r', new = Some r' → role_ok r' (f t)) →
  consistent s'.
Proof.
  intros [Hnd Hown Htask] Hs Hs' Ht Hf.
  assert (Hnd' : NoDup ((i, r) :: rest).*1) by (by rewrite <- Hs).
  simpl in Hnd'. apply NoDup_cons in Hnd' as [Hni Hndr].
  assert (Hi : ∀ t, tasks s !! i = Some t → role_ok r t ∧ task_ok t).
  { intros t Hl. split; [|by eauto]. apply (Hown i r t); [|done]. rewrite Hs. left. }
  split.
  - rewrite Hs', fmap_app. destruct new; simpl; [|done].
    by constructor.
  - intros j r' t' Hj Hl. rewrite Hs' in Hj. rewrite Ht in Hl.
    apply elem_of_app in Hj as [Hj | Hj].
    + destruct new as [r0|]; simpl in Hj; [|by apply elem_of_nil in Hj].
      apply list_elem_of_singleton in Hj. injection Hj as -> ->.
      rewrite list_lookup_alter_eq in Hl.
      destruct (tasks s !! i) as [t|] eqn:E; simplify_eq/=.
      destruct (Hi t eq_refl). by apply (Hf t).
    + assert (j ≠ i).
      { intros ->. apply Hni. apply list_elem_of_fmap. by exists (i, r'). }
      rewrite list_lookup_alter_ne in Hl by done.
      apply (Hown j r' t'); [|done]. rewrite Hs. by right.
  - intros j t' Hl. rewrite Ht in Hl. destruct (decide (j = i)) as [->|].
    + rewrite list_lookup_alter_eq in Hl.
      destruct (tasks s !! i) as [t|] eqn:E; simplify_eq/=.
      destruct (Hi t eq_refl). by apply (Hf t).
    + rewrite list_lookup_alter_ne in Hl by done. eauto.
Qed.

Lemma consistent_same s s' :
  consistent s → owners s' = owners s → tasks s' = tasks s → consistent s'.
Proof.
  intros [Hnd Hown Htask] Ho Ht. split; rewrite ?Ho, ?Ht; done.
Qed.

(** ** The worker loops keep the state consistent *)

Ltac same_as H := apply (consistent_same _ _ H); reflexivity.

Lemma launch_download_consistent s i q :
  consistent s → downloadQueue s = i :: q →
  consistent (launch_download i (set_downloadQueue q s)).
Proof.
  intros Hs Hq.
  apply (consistent_move s _ i InDownloadQueue (Some InTransfer)
           (owners_of q (verifyQueue s) (promises s)) (with_status Downloading)); try done.
  - unfold owners. by rewrite Hq.
  - unfold owners, owners_of, queued_of. simpl. rewrite omap_app. simpl.
    solve_Permutation.
  - intros t _ [Ha _] (Hle & Hf & Hp). split.
    + split_and!; simpl; [done|done|by intros [|]].
    + intros ? [= <-]. by split.
Qed.

Lemma fill_downloads_consistent q s :
  consistent s → downloadQueue s = q → consistent (fill_downloads q s).
Proof.
  revert s. induction q as [|i q IH]; intros s Hs Hq; simpl; [done|].
  case_decide; [|done].
  apply IH; [|done]. by apply launch_download_consistent.
Qed.

Lemma processDownloads_consistent s :
  consistent s → consistent (processDownloads s).
Proof.
  intros Hs. unfold processDownloads.
  pose proof (fill_downloads_consistent (downloadQueue s) s Hs eq_refl) as Hf.
  repeat case_decide; (same_as Hf || same_as Hs).
Qed.

Lemma launch_verification_consistent s i q :
  consistent s → verifyQueue s = i :: q →
  consistent (launch_verification i (set_verifyQueue q s)).
Proof.
  intros Hs Hq.
  apply (consistent_move s _ i InVerifyQueue (Some InVerification)
           (owners_of (downloadQueue s) q (promises s))
           (with_progress (Some (mkProgress 0 100)) ∘ with_status Downloading)); try done.
  - unfold owners, owners_of, queued_of. rewrite Hq. simpl. solve_Permutation.
  - unfold owners, owners_of, queued_of. simpl. rewrite omap_app. simpl.
    solve_Permutation.
  - simpl. by rewrite list_alter_alter_eq.
  - intros t _ [Ha _] (Hle & Hf & Hp). split.
    + split_and!; simpl; [done|done|by intros [|]].
    + intros ? [= <-]. split_and!; simpl; eauto.
Qed.

Lemma fill_verifications_consistent q s :
  consistent s → verifyQueue s = q → consistent (fill_verifications q s).
Proof.
  revert s. induction q as [|i q IH]; intros s Hs Hq; simpl; [done|].
  case_decide; [|done].
  apply IH; [|done]. by apply launch_verification_consistent.
Qed.

Lemma processVerifications_consistent s :
  consistent s → consistent (processVerifications s).
Proof.
  intros Hs. unfold processVerifications.
  pose proof (fill_verifications_consistent (verifyQueue s) s Hs eq_refl) as Hf.
  repeat case_decide; (same_as Hf || same_as Hs).
Qed.

Lemma joint_pass_consistent s : consistent s → consistent (joint_pass s).
Proof.
  intros Hs. by apply processVerifications_consistent, processDownloads_consistent.
Qed.

Lemma start_resume_consistent s : consistent s → consistent (start_resume s).
Proof.
  intros Hs. unfold start_resume.
  destruct (both_returned s); [|done].
  destruct (pass s); [|same_as Hs|done].
  destruct (downloadQueue s) eqn:Hq; [same_as Hs|].
  assert (consistent (joint_pass (set_pass SecondPass s))) as Hj.
  { apply joint_pass_consistent. same_as Hs. }
  destruct (both_returned _); [same_as Hj|done].
Qed.

(** ** Every step keeps the state consistent *)

Lemma worker_step_consistent s s' p w w' i r (new : option Role) f :
  consistent s →
  promises s !! p = Some w → promise_role w = Some (i, r) →
  promises s' = <[p:=w']> (promises s) →
  tasks s' = alter f i (tasks s) →
  queued_of (downloadQueue s') (verifyQueue s') ++ option_list (promise_role w')
    ≡ₚ option_list (pair i <$> new) ++ queued_of (downloadQueue s) (verifyQueue s) →
  (∀ t, tasks s !! i = Some t → role_ok r t → task_ok t →
        task_ok (f t) ∧ ∀ r', new = Some r' → role_ok r' (f t)) →
  consistent s'.
Proof.
  intros Hs Hp Hr Hp' Ht Hq Hf.
  destruct (promise_role_take (promises s) p w i r w' Hp Hr) as (rest & H1 & H2).
  apply (consistent_move s s' i r new
           (queued_of (downloadQueue s) (verifyQueue s) ++ rest) f); try done.
  - unfold owners, owners_of. rewrite H1. solve_Permutation.
  - unfold owners, owners_of. rewrite Hp', H2.
    rewrite (assoc_L (++) (option_list _)), <- Hq. solve_Permutation.
Qed.

Ltac solve_task :=
  unfold task_ok, role_ok, MAX_RETRIES, with_bytes in *; simpl in *;
  repeat match goal with
         | |- _ ∧ _ => split
         | |- ∀ _, _ => intros
         | |- _ → _ => intros
         | H : _ ∨ _ |- _ => destruct H
         | H : _ ∧ _ |- _ => destruct H
         | H : ∃ _, _ |- _ => destruct H
         end;
  simplify_eq/=; eauto; try congruence; try lia.

Ltac resolve_tasks :=
  repeat match goal with
         | Ht : tasks ?s !! ?i = Some ?t, H : context [task_at (update_task ?i ?f ?s) ?i] |- _ =>
             rewrite (task_at_update s i f t Ht) in H; simpl in H
         | Ht : tasks ?s !! ?i = Some ?t, H : context [task_at ?s ?i] |- _ =>
             rewrite (task_at_lookup s i t Ht) in H
         end.

Lemma download_failed_consistent s p w i :
  consistent s → promises s !! p = Some w → promise_role w = Some (i, InTransfer) →
  consistent (set_promise p (DlWorker i DlSaving) (download_failed i s)).
Proof.
  intros Hs Hp Hr. unfold download_failed.
  set (incr := λ t, with_attempts (S (attempts t)) t).
  case_decide as Hlt.
  - eapply (worker_step_consistent s _ p _ _ i InTransfer (Some InDownloadQueue));
      [done|exact Hp|done|reflexivity|reflexivity|..].
    + simpl. unfold queued_of. rewrite fmap_app. simpl. solve_Permutation.
    + intros t Ht Hr' Hok. rewrite (task_at_update s i incr t Ht) in Hlt. solve_task.
  - eapply (worker_step_consistent s _ p _ _ i InTransfer None);
      [done|exact Hp|done|reflexivity| |..].
    + simpl. rewrite list_alter_alter_eq. reflexivity.
    + simpl. solve_Permutation.
    + intros t Ht Hr' Hok. rewrite (task_at_update s i incr t Ht) in Hlt. solve_task.
Qed.

Lemma verification_failed_consistent s p w i :
  consistent s → promises s !! p = Some w → promise_role w = Some (i, InVerification) →
  consistent (set_promise p (VfWorker i VfSaving)
                (verification_finally i (verification_failed i s))).
Proof.
  intros Hs Hp Hr.
  eapply (worker_step_consistent s _ p _ _ i InVerification (Some InDownloadQueue));
    [done|exact Hp|done|reflexivity| |..].
  - simpl. rewrite list_alter_alter_eq. reflexivity.
  - simpl. solve_Permutation.
  - intros t Ht Hr' Hok. solve_task.
Qed.

Lemma verification_conclude_consistent s p w i h m :
  consistent s → promises s !! p = Some w → promise_role w = Some (i, InVerification) →
  consistent (set_promise p (VfWorker i VfSaving) (verification_conclude i h m s)).
Proof.
  intros Hs Hp Hr. unfold verification_conclude.
  destruct (progress (task_at s i)) as [pr|] eqn:H75;
    [|by eapply verification_failed_consistent].
  destruct (falsy h || falsy m);
    [|destruct (progress (task_at (update_task i (with_progress (with_bytes 75 pr)) s) i))
        as [pr1|] eqn:H100; [case_decide|]].
  all: first
    [ solve [ eapply (worker_step_consistent s _ p _ _ i InVerification (Some InDownloadQueue));
              [done|exact Hp|done|reflexivity
              |simpl; rewrite !list_alter_alter_eq; reflexivity
              |simpl; solve_Permutation
              |intros t Ht Hr' Hok; resolve_tasks; solve [solve_task] ] ]
    | solve [ eapply (worker_step_consistent s _ p _ _ i InVerification None);
              [done|exact Hp|done|reflexivity
              |simpl; rewrite !list_alter_alter_eq; reflexivity
              |simpl; solve_Permutation
              |intros t Ht Hr' Hok; resolve_tasks; solve [solve_task] ] ] ].
Qed.

Lemma settle_consistent s p w :
  consistent s → promises s !! p = Some w → promise_role w = None →
  consistent (set_promise p Settled s).
Proof.
  intros Hs Hp Hr. apply (consistent_same s); [done| |done].
  unfold owners, owners_of. simpl.
  by rewrite (omap_insert_same promise_role _ p w Settled Hp).
Qed.

Lemma wake_downloads_consistent p s : consistent s → consistent (wake_downloads p s).
Proof.
  intros Hs. unfold wake_downloads. destruct (downloadLoop s); [|done..].
  case_bool_decide; [|done]. by apply processDownloads_consistent.
Qed.

Lemma wake_verifications_consistent p s :
  consistent s → consistent (wake_verifications p s).
Proof.
  intros Hs. unfold wake_verifications. destruct (verifyLoop s); [|done..].
  case_bool_decide; [|done]. by apply processVerifications_consistent.
Qed.

Lemma step_consistent e s s' : consistent s → step e s = Some s' → consistent s'.
Proof.
  intros Hs Hstep. destruct e as [p len|p n|p|p|p h|p m|p|]; simpl in Hstep.
  - (* Response *)
    destruct (promises s !! p) as [[i [| |]|i ph|]|] eqn:Hp; simplify_eq.
    eapply (worker_step_consistent s _ p _ _ i InTransfer (Some InTransfer));
      [done|exact Hp|done|reflexivity|reflexivity|..].
    + simpl. solve_Permutation.
    + intros t Ht Hr Hok. solve_task.
  - (* Chunk *)
    destruct (promises s !! p) as [[i [| |]|i ph|]|] eqn:Hp; simplify_eq.
    destruct (progress (task_at s i)) as [pr|] eqn:Hpr; simplify_eq.
    + eapply (worker_step_consistent s _ p _ _ i InTransfer (Some InTransfer));
        [done|exact Hp|done| |reflexivity|..].
      * simpl. symmetry. by apply list_insert_id.
      * simpl. solve_Permutation.
      * intros t Ht Hr Hok. resolve_tasks. solve_task.
    + by eapply download_failed_consistent.
  - (* EndOfStream *)
    destruct (promises s !! p) as [[i [| |]|i ph|]|] eqn:Hp; simplify_eq.
    eapply (worker_step_consistent s _ p _ _ i InTransfer (Some InVerifyQueue));
      [done|exact Hp|done|reflexivity|reflexivity|..].
    + simpl. unfold queued_of. rewrite fmap_app. simpl. solve_Permutation.
    + intros t Ht Hr Hok. solve_task.
  - (* TransferError *)
    destruct (promises s !! p) as [[i [| |]|i ph|]|] eqn:Hp; simplify_eq;
      by eapply download_failed_consistent.
  - (* HashResult *)
    destruct (promises s !! p) as [[i ph|i [|h'|]|]|] eqn:Hp; simplify_eq.
    destruct (progress (task_at s i)) as [pr|] eqn:Hpr; simplify_eq.
    + eapply (worker_step_consistent s _ p _ _ i InVerification (Some InVerification));
        [done|exact Hp|done|reflexivity|reflexivity|..].
      * simpl. solve_Permutation.
      * intros t Ht Hr Hok. resolve_tasks. solve_task.
    + by eapply verification_failed_consistent.
  - (* Md5Result *)
    destruct (promises s !! p) as [[i ph|i [|h'|]|]|] eqn:Hp; simplify_eq.
    by eapply verification_conclude_consistent.
  - (* Persisted *)
    destruct (promises s !! p) as [[i [| |]|i [|h'|]|]|] eqn:Hp; simplify_eq.
    + apply start_resume_consistent, wake_downloads_consistent.
      pose proof (settle_consistent s p _ Hs Hp eq_refl) as Hc. same_as Hc.
    + apply start_resume_consistent, wake_verifications_consistent.
      pose proof (settle_consistent s p _ Hs Hp eq_refl) as Hc. same_as Hc.
  - (* Tick *)
    destruct (verifyLoop s); simplify_eq.
    by apply start_resume_consistent, processVerifications_consistent.
Qed.

(** ** The first state of a run, and all the states after it *)

Lemma elem_of_refs_with st ts i :
  i ∈ refs_with st ts ↔ ∃ t, ts !! i = Some t ∧ status t = st.
Proof.
  unfold refs_with. rewrite list_elem_of_filter, elem_of_seq. split.
  - intros [Hst [_ Hi]]. destruct (lookup_lt_is_Some_2 ts i) as [t Ht]; [simpl in Hi; lia|].
    exists t. split; [done|]. by rewrite (list_lookup_total_correct _ _ _ Ht) in Hst.
  - intros (t & Ht & Hst). rewrite (list_lookup_total_correct _ _ _ Ht).
    split; [done|]. apply lookup_lt_Some in Ht. simpl. lia.
Qed.

Lemma refs_with_NoDup st ts : NoDup (refs_with st ts).
Proof. apply NoDup_filter, NoDup_seq. Qed.

Lemma queued_of_fst dq vq : (queued_of dq vq).*1 = dq ++ vq.
Proof.
  unfold queued_of. rewrite fmap_app, <- !list_fmap_compose.
  by rewrite !list_fmap_id.
Qed.

Lemma elem_of_queued_of i r dq vq :
  (i, r) ∈ queued_of dq vq ↔
  (r = InDownloadQueue ∧ i ∈ dq) ∨ (r = InVerifyQueue ∧ i ∈ vq).
Proof.
  unfold queued_of. rewrite elem_of_app, !list_elem_of_fmap. split.
  - intros [(j & [= -> ->] & Hj)|(j & [= -> ->] & Hj)]; eauto.
  - intros [[-> Hi]|[-> Hi]]; eauto.
Qed.

Lemma Downloader_new_consistent ts :
  Forall initial_task ts → consistent (Downloader_new ts).
Proof.
  intros Hts. rewrite Forall_lookup in Hts. split.
  - unfold owners, owners_of. simpl. rewrite app_nil_r, queued_of_fst.
    apply NoDup_app. split_and!; try apply refs_with_NoDup.
    intros i. rewrite !elem_of_refs_with.
    intros (t & Ht & Hst) (t' & Ht' & Hst'). simplify_eq. congruence.
  - intros i r t Hi Ht. unfold owners, owners_of in Hi. simpl in *.
    rewrite app_nil_r, elem_of_queued_of, !elem_of_refs_with in Hi.
    destruct (Hts i t Ht) as (Ha & Hp & Hst).
    destruct Hi as [[-> (t' & Ht' & Hst')]|[-> (t' & Ht' & Hst')]];
      simplify_eq; unfold role_ok, MAX_RETRIES; split; auto; lia.
  - intros i t Ht. simpl in Ht. destruct (Hts i t Ht) as (Ha & Hp & Hst).
    unfold task_ok, MAX_RETRIES. split_and!; [lia| |done].
    intros Hf. destruct Hst; congruence.
Qed.

Lemma start_consistent ts :
  Forall initial_task ts → consistent (start (Downloader_new ts)).
Proof.
  intros Hts. apply start_resume_consistent, joint_pass_consistent.
  pose proof (Downloader_new_consistent ts Hts) as Hc. same_as Hc.
Qed.

Lemma run_consistent evs s s' : consistent s → run evs s = Some s' → consistent s'.
Proof.
  revert s. induction evs as [|e evs IH]; intros s Hs Hrun; simpl in Hrun.
  - by simplify_eq.
  - destruct (step e s) as [s1|] eqn:He; [|done].
    eapply IH; [|done]. by eapply step_consistent.
Qed.

Lemma reachable_consistent ts s :
  Forall initial_task ts → reachable ts s → consistent s.
Proof.
  intros Hts [evs Hrun]. eapply run_consistent; [|done]. by apply start_consistent.
Qed.

Lemma run_app evs1 evs2 s :
  run (evs1 ++ evs2) s = run evs1 s ≫= run evs2.
Proof.
  revert s. induction evs1 as [|e evs1 IH]; intros s; simpl; [done|].
  destruct (step e s); simpl; [apply IH|done].
Qed.

Lemma reachable_step ts e s s' :
  reachable ts s → step e s = Some s' → reachable ts s'.
Proof.
  intros [evs Hrun] He. exists (evs ++ [e]). rewrite run_app, Hrun. simpl. by rewrite He.
Qed.

Lemma reconcile_initial remoteFiles localFiles :
  Forall initial_task (reconcile remoteFiles localFiles).
Proof.
  unfold reconcile. apply Forall_app. split; apply Forall_fmap, Forall_forall;
    intros f _; unfold initial_task; simpl; auto.
Qed.

(** ** Only a failed download attempt changes [attempts] *)

Lemma keeps_refl l : keeps l l.
Proof. apply Forall2_lookup. intros i. destruct (l !! i); by constructor. Qed.

Lemma keeps_trans l1 l2 l3 : keeps l1 l2 → keeps l2 l3 → keeps l1 l3.
Proof.
  unfold keeps. intros H12 H23. eapply Forall2_trans; [|done..].
  simpl. intros t1 t2 t3 [? ?] [? ?]. split; congruence.
Qed.

Lemma keeps_alter f j l :
  (∀ t, attempts (f t) = attempts t ∧ filename (f t) = filename t) →
  keeps l (alter f j l).
Proof.
  intros Hf. apply Forall2_alter_r; [apply keeps_refl|].
  intros t t' _ _ [? ?]. destruct (Hf t'). split; congruence.
Qed.

Lemma keeps_lookup l l' i t :
  keeps l l' → l !! i = Some t →
  ∃ t', l' !! i = Some t' ∧ attempts t' = attempts t ∧ filename t' = filename t.
Proof. intros Hk Hi. by apply (Forall2_lookup_l _ _ _ _ _ Hk Hi). Qed.

Lemma fill_downloads_keeps q s : keeps (tasks s) (tasks (fill_downloads q s)).
Proof.
  revert s. induction q as [|i q IH]; intros s; simpl; [apply keeps_refl|].
  case_decide; [|apply keeps_refl].
  eapply keeps_trans; [|apply IH]. simpl. by apply keeps_alter.
Qed.

Lemma processDownloads_keeps s : keeps (tasks s) (tasks (processDownloads s)).
Proof.
  unfold processDownloads. repeat case_decide; simpl;
    apply fill_downloads_keeps || apply keeps_refl.
Qed.

Lemma fill_verifications_keeps q s : keeps (tasks s) (tasks (fill_verifications q s)).
Proof.
  revert s. induction q as [|i q IH]; intros s; simpl; [apply keeps_refl|].
  case_decide; [|apply keeps_refl].
  eapply keeps_trans; [|apply IH]. simpl.
  eapply keeps_trans; by apply keeps_alter.
Qed.

Lemma processVerifications_keeps s : keeps (tasks s) (tasks (processVerifications s)).
Proof.
  unfold processVerifications. repeat case_decide; simpl;
    apply fill_verifications_keeps || apply keeps_refl.
Qed.

Lemma joint_pass_keeps s : keeps (tasks s) (tasks (joint_pass s)).
Proof.
  eapply keeps_trans; [apply processDownloads_keeps|apply processVerifications_keeps].
Qed.

Lemma start_resume_keeps s : keeps (tasks s) (tasks (start_resume s)).
Proof.
  unfold start_resume. destruct (both_returned s); [|apply keeps_refl].
  destruct (pass s); try apply keeps_refl.
  destruct (downloadQueue s); [apply keeps_refl|].
  destruct (both_returned _); simpl;
    apply (joint_pass_keeps (set_pass SecondPass s)).
Qed.

Lemma wake_downloads_keeps p s : keeps (tasks s) (tasks (wake_downloads p s)).
Proof.
  unfold wake_downloads. destruct (downloadLoop s); try apply keeps_refl.
  case_bool_decide; [apply processDownloads_keeps|apply keeps_refl].
Qed.

Lemma wake_verifications_keeps p s : keeps (tasks s) (tasks (wake_verifications p s)).
Proof.
  unfold wake_verifications. destruct (verifyLoop s); try apply keeps_refl.
  case_bool_decide; [apply processVerifications_keeps|apply keeps_refl].
Qed.

Lemma start_keeps ts : keeps ts (tasks (start (Downloader_new ts))).
Proof.
  unfold start. eapply keeps_trans; [|apply start_resume_keeps].
  apply (joint_pass_keeps (set_pass FirstPass (Downloader_new ts))).
Qed.

Lemma verification_conclude_keeps i h m s :
  keeps (tasks s) (tasks (verification_conclude i h m s)).
Proof.
  unfold verification_conclude. simpl.
  eapply keeps_trans; [|by apply keeps_alter].
  destruct (progress (task_at s i)) as [pr|]; [|by apply keeps_alter].
  assert (Hk : keeps (tasks s) (tasks (update_task i (with_progress (with_bytes 75 pr)) s)))
    by (by apply keeps_alter).
  destruct (falsy h || falsy m).
  { eapply keeps_trans; [exact Hk|]. by apply keeps_alter. }
  destruct (progress (task_at _ i)) as [pr1|].
  - eapply keeps_trans; [exact Hk|].
    case_decide; simpl; (eapply keeps_trans; by apply keeps_alter).
  - eapply keeps_trans; [exact Hk|]. by apply keeps_alter.
Qed.

(** What the [catch] block of the download closure does to its task and to
    the download queue. *)
Lemma download_failed_spec s i t :
  tasks s !! i = Some t →
  let s' := download_failed i s in
  (∀ j, j ≠ i → tasks s' !! j = tasks s !! j)
  ∧ verifyQueue s' = verifyQueue s ∧ promises s' = promises s
  ∧ ∃ t', tasks s' !! i = Some t'
      ∧ attempts t' = S (attempts t)
      ∧ filename t' = filename t ∧ progress t' = progress t
      ∧ if decide (S (attempts t) < MAX_RETRIES)
        then status t' = status t ∧ downloadQueue s' = downloadQueue s ++ [i]
        else status t' = Failed ∧ downloadQueue s' = downloadQueue s.
Proof.
  intros Ht. unfold download_failed.
  rewrite (task_at_update s i _ t Ht). simpl.
  case_decide; simpl; (split; [|split; [done|split; [done|]]]).
  - intros j Hj. by rewrite list_lookup_alter_ne.
  - eexists. rewrite list_lookup_alter_eq, Ht. simpl. split; [done|]. done.
  - intros j Hj. by rewrite !list_lookup_alter_ne.
  - eexists. rewrite !list_lookup_alter_eq, Ht. simpl. split; [done|]. done.
Qed.

Lemma download_failed_other s i j :
  j ≠ i → tasks (download_failed i s) !! j = tasks s !! j.
Proof.
  intros Hj. unfold download_failed. case_decide; simpl;
    by rewrite ?list_lookup_alter_ne.
Qed.

(** A step either keeps every counter, or is the failure of a download
    attempt, which changes the tasks as [download_failed] does. *)
Lemma step_tasks e s s' :
  step e s = Some s' →
  (failed_attempt e s = None ∧ keeps (tasks s) (tasks s'))
  ∨ (∃ j, failed_attempt e s = Some j ∧ tasks s' = tasks (download_failed j s)).
Proof.
  intros Hstep.
  destruct e as [p len|p n|p|p|p h|p m|p|]; simpl in *.
  - destruct (promises s !! p) as [[j [| |]|j ph|]|] eqn:Hp; simplify_eq.
    left. split; [done|]. simpl. by apply keeps_alter.
  - destruct (promises s !! p) as [[j [| |]|j ph|]|] eqn:Hp; simplify_eq.
    destruct (progress (task_at s j)) as [pr|] eqn:Hpr; simplify_eq.
    + left. split; [done|]. simpl. by apply keeps_alter.
    + right. by exists j.
  - destruct (promises s !! p) as [[j [| |]|j ph|]|] eqn:Hp; simplify_eq.
    left. split; [done|]. simpl. by apply keeps_alter.
  - destruct (promises s !! p) as [[j [| |]|j ph|]|] eqn:Hp; simplify_eq;
      right; by exists j.
  - destruct (promises s !! p) as [[j ph|j [|h'|]|]|] eqn:Hp; simplify_eq.
    destruct (progress (task_at s j)) as [pr|] eqn:Hpr; simplify_eq;
      left; (split; [done|]); simpl.
    + by apply keeps_alter.
    + eapply keeps_trans; by apply keeps_alter.
  - destruct (promises s !! p) as [[j ph|j [|h'|]|]|] eqn:Hp; simplify_eq.
    left. split; [done|]. simpl. apply verification_conclude_keeps.
  - destruct (promises s !! p) as [[j [| |]|j [|h'|]|]|] eqn:Hp; simplify_eq;
      left; (split; [done|]).
    + eapply keeps_trans; [|apply start_resume_keeps].
      eapply keeps_trans; [|apply wake_downloads_keeps]. apply keeps_refl.
    + eapply keeps_trans; [|apply start_resume_keeps].
      eapply keeps_trans; [|apply wake_verifications_keeps]. apply keeps_refl.
  - destruct (verifyLoop s); simplify_eq. left. split; [done|].
    eapply keeps_trans; [|apply start_resume_keeps]. apply processVerifications_keeps.
Qed.

Lemma download_failed_length i s :
  length (tasks (download_failed i s)) = length (tasks s).
Proof.
  unfold download_failed. case_decide; simpl; by rewrite !length_alter.
Qed.

Lemma step_length e s s' :
  step e s = Some s' → length (tasks s') = length (tasks s).
Proof.
  intros Hstep. destruct (step_tasks e s s' Hstep) as [[_ Hk]|(j & _ & ->)].
  - symmetry. by eapply Forall2_length.
  - apply download_failed_length.
Qed.

Lemma run_length evs s s' :
  run evs s = Some s' → length (tasks s') = length (tasks s).
Proof.
  revert s. induction evs as [|e evs IH]; intros s Hrun; simpl in *.
  - by simplify_eq.
  - destruct (step e s) as [s1|] eqn:He; [|done].
    rewrite (IH s1 Hrun). by eapply step_length.
Qed.

Lemma step_attempts e s s' i t :
  step e s = Some s' → tasks s !! i = Some t →
  ∃ t', tasks s' !! i = Some t'
        ∧ filename t' = filename t
        ∧ attempts t' =
            (if decide (failed_attempt e s = Some i) then 1 else 0) + attempts t.
Proof.
  intros Hstep Ht.
  destruct (step_tasks e s s' Hstep) as [[Hnone Hk]|(j & Hfa & ->)].
  - destruct (keeps_lookup _ _ i t Hk Ht) as (t' & ? & ? & ?).
    exists t'. rewrite Hnone. by rewrite decide_False.
  - rewrite Hfa. destruct (decide (j = i)) as [->|Hne].
    + destruct (download_failed_spec s i t Ht) as (_ & _ & _ & t' & Ht' & Ha & Hn & _).
      exists t'. rewrite decide_True by done. by rewrite Ha.
    + rewrite decide_False by congruence.
      exists t. by rewrite download_failed_other.
Qed.

Lemma run_attempts evs s s' i t :
  run evs s = Some s' → tasks s !! i = Some t →
  ∃ t', tasks s' !! i = Some t' ∧ filename t' = filename t
        ∧ attempts t' = failures i evs s + attempts t.
Proof.
  revert s t. induction evs as [|e evs IH]; intros s t Hrun Ht; simpl in *.
  - simplify_eq. eauto.
  - destruct (step e s) as [s1|] eqn:He; [|done].
    destruct (step_attempts e s s1 i t He Ht) as (t1 & Ht1 & Hn1 & Ha1).
    destruct (IH s1 t1 Hrun Ht1) as (t' & Ht' & Hn' & Ha').
    exists t'. split; [done|]. split; [congruence|]. lia.
Qed.

(** ** What the steps do to the download queue *)

Lemma fill_downloads_queue q s :
  downloadQueue s = q →
  ∃ launched, q = launched ++ downloadQueue (fill_downloads q s).
Proof.
  revert s. induction q as [|i q IH]; intros s Hq; simpl.
  - exists []. by rewrite Hq.
  - case_decide.
    + destruct (IH (launch_download i (set_downloadQueue q s)) eq_refl) as [l Hl].
      exists (i :: l). simpl. by rewrite <- Hl.
    + exists []. by rewrite Hq.
Qed.

Lemma processDownloads_queue s :
  ∃ launched, downloadQueue s = launched ++ downloadQueue (processDownloads s).
Proof.
  unfold processDownloads.
  destruct (fill_downloads_queue (downloadQueue s) s eq_refl) as [l Hl].
  repeat case_decide; simpl; try (by exists l); by exists [].
Qed.

Lemma fill_verifications_queue q s :
  downloadQueue (fill_verifications q s) = downloadQueue s.
Proof.
  revert s. induction q as [|i q IH]; intros s; simpl; [done|].
  case_decide; [|done]. by rewrite IH.
Qed.

Lemma processVerifications_queue s :
  downloadQueue (processVerifications s) = downloadQueue s.
Proof.
  unfold processVerifications. repeat case_decide; simpl;
    by rewrite ?fill_verifications_queue.
Qed.

Lemma joint_pass_queue s :
  ∃ launched, downloadQueue s = launched ++ downloadQueue (joint_pass s).
Proof.
  unfold joint_pass. rewrite processVerifications_queue. apply processDownloads_queue.
Qed.

Lemma start_resume_queue s :
  ∃ launched, downloadQueue s = launched ++ downloadQueue (start_resume s).
Proof.
  unfold start_resume. destruct (both_returned s); [|by exists []].
  destruct (pass s); try (by exists []).
  destruct (downloadQueue s) as [|i q] eqn:Hq; [exists []; simpl; by rewrite Hq|].
  destruct (joint_pass_queue (set_pass SecondPass s)) as [l Hl]. simpl in Hl.
  rewrite Hq in Hl. destruct (both_returned _); by exists l.
Qed.

Lemma wake_downloads_queue p s :
  ∃ launched, downloadQueue s = launched ++ downloadQueue (wake_downloads p s).
Proof.
  unfold wake_downloads. destruct (downloadLoop s); try (by exists []).
  case_bool_decide; [apply processDownloads_queue|by exists []].
Qed.

Lemma wake_verifications_queue p s :
  downloadQueue (wake_verifications p s) = downloadQueue s.
Proof.
  unfold wake_verifications. destruct (verifyLoop s); try done.
  case_bool_decide; [apply processVerifications_queue|done].
Qed.

(** What the end of a verification does to its task and to the queue. *)
Lemma verification_conclude_spec s i h m t :
  tasks s !! i = Some t →
  let s' := verification_conclude i h m s in
  verifyQueue s' = verifyQueue s ∧ promises s' = promises s
  ∧ ∃ t', tasks s' !! i = Some t'
      ∧ attempts t' = attempts t ∧ filename t' = filename t
      ∧ progress t' = None
      ∧ ((status t' = Verified ∧ downloadQueue s' = downloadQueue s
          ∧ falsy h = false ∧ h = m)
         ∨ (status t' = Pending ∧ downloadQueue s' = i :: downloadQueue s)).
Proof.
  intros Ht. unfold verification_conclude.
  rewrite (task_at_lookup s i t Ht).
  destruct (progress t) as [pr|] eqn:Hpr.
  2:{ simpl. split_and!; try done. eexists.
      rewrite !list_lookup_alter_eq, Ht. simpl. split_and!; try done. by right. }
  rewrite (task_at_update s i _ t Ht). simpl.
  destruct (falsy h || falsy m) eqn:Hf.
  { simpl. split_and!; try done. eexists.
    rewrite !list_lookup_alter_eq, Ht. simpl. split_and!; try done. by right. }
  apply orb_false_elim in Hf as [Hfh Hfm].
  case_decide; simpl; (split_and!; try done); eexists;
    rewrite !list_lookup_alter_eq, Ht; simpl; (split_and!; try done).
  - by left.
  - by right.
Qed.

Lemma verification_conclude_queue s i h m :
  downloadQueue (verification_conclude i h m s) = downloadQueue s
  ∨ downloadQueue (verification_conclude i h m s) = i :: downloadQueue s.
Proof.
  unfold verification_conclude.
  destruct (progress (task_at s i)); [|by right].
  destruct (falsy h || falsy m); [by right|].
  destruct (progress (task_at _ i)); [|by right].
  case_decide; [by left|by right].
Qed.

(** ** The worker loops between two [await]s *)

Lemma fill_downloads_stops q s :
  downloadQueue s = q →
  downloadQueue (fill_downloads q s) = []
  ∨ CONCURRENT_DOWNLOADS ≤ size (activeDownloads (fill_downloads q s)).
Proof.
  revert s. induction q as [|i q IH]; intros s Hq; simpl; [by left|].
  case_decide; [by apply IH|right; lia].
Qed.

(** When [processDownloads] returns, its outer condition is false: the model
    does not cut the loop short. *)
Lemma processDownloads_returns_idle s :
  downloadLoop (processDownloads s) = Returned →
  ¬ downloads_outstanding (processDownloads s).
Proof.
  unfold processDownloads, downloads_outstanding.
  case_decide as Hout; [|done].
  case_decide as Hsize; [done|]. simpl. intros _ [Hq|Hs]; [|done].
  destruct (fill_downloads_stops (downloadQueue s) s eq_refl) as [?|Hfull]; [done|].
  unfold CONCURRENT_DOWNLOADS in Hfull. lia.
Qed.

Lemma fill_verifications_stops q s :
  verifyQueue s = q →
  verifyQueue (fill_verifications q s) = []
  ∨ CONCURRENT_VERIFICATIONS ≤ size (activeVerifications (fill_verifications q s)).
Proof.
  revert s. induction q as [|i q IH]; intros s Hq; simpl; [by left|].
  case_decide; [by apply IH|right; lia].
Qed.

Lemma fill_verifications_downloads q s :
  downloadQueue (fill_verifications q s) = downloadQueue s
  ∧ activeDownloads (fill_verifications q s) = activeDownloads s.
Proof.
  revert s. induction q as [|i q IH]; intros s; simpl; [done|].
  case_decide; [|done]. by destruct (IH (launch_verification i (set_verifyQueue q s))).
Qed.

Lemma size_insert_pos (m : gmap string nat) k v : 0 < size (<[k:=v]> m).
Proof.
  destruct (size (<[k:=v]> m)) eqn:Hs; [|lia].
  apply map_size_empty_iff in Hs. by apply insert_non_empty in Hs.
Qed.

Lemma fill_verifications_size_pos q s :
  0 < size (activeVerifications s) →
  0 < size (activeVerifications (fill_verifications q s)).
Proof.
  revert s. induction q as [|i q IH]; intros s Hs; simpl; [done|].
  case_decide; [|done]. apply IH. simpl. apply size_insert_pos.
Qed.

Lemma fill_verifications_nonempty q s :
  q ≠ [] → 0 < size (activeVerifications s) ∨ 0 < CONCURRENT_VERIFICATIONS →
  0 < size (activeVerifications (fill_verifications q s)).
Proof.
  destruct q as [|i q]; [done|]. intros _ Hs. simpl.
  case_decide as Hlt; [|unfold CONCURRENT_VERIFICATIONS in *; lia].
  apply fill_verifications_size_pos. simpl. apply size_insert_pos.
Qed.

(** When [processVerifications] returns, its outer condition is false. *)
Lemma processVerifications_returns_idle s :
  verifyLoop (processVerifications s) = Returned →
  verifyQueue (processVerifications s) = []
  ∧ size (activeVerifications (processVerifications s)) = 0
  ∧ ¬ downloads_outstanding (processVerifications s).
Proof.
  unfold processVerifications.
  case_decide as Hout.
  2:{ simpl. intros _. split_and!.
      - destruct (verifyQueue s); [done|]. exfalso. apply Hout. by left.
      - destruct (size (activeVerifications s)); [done|]. exfalso. apply Hout. right. left. lia.
      - intros ?. apply Hout. by right; right. }
  case_decide as Hidle; [done|].
  case_decide as Hsize; [done|]. simpl. intros _.
  destruct (verifyQueue s) as [|i q] eqn:Hq.
  - simpl in *. split_and!; [done|lia|]. intros Ho. apply Hidle.
    split_and!; [done|unfold CONCURRENT_VERIFICATIONS; lia|done].
  - exfalso. apply Hsize. apply fill_verifications_nonempty; [done|].
    right. unfold CONCURRENT_VERIFICATIONS. lia.
Qed.


(** ** The maps stay within the caps *)

Lemma size_insert_le (m : gmap string nat) k v : size (<[k:=v]> m) ≤ S (size m).
Proof. rewrite map_size_insert. case_match; simpl; lia. Qed.

Lemma size_delete_le (m : gmap string nat) k : size (delete k m) ≤ size m.
Proof. rewrite map_size_delete. case_match; simpl; lia. Qed.

Lemma fill_downloads_caps q s : within_caps s → within_caps (fill_downloads q s).
Proof.
  revert s. induction q as [|i q IH]; intros s [Hd Hv]; simpl; [done|].
  case_decide as Hlt; [|done]. apply IH. split; simpl; [|done].
  etrans; [apply size_insert_le|]. simpl. lia.
Qed.

Lemma fill_verifications_caps q s : within_caps s → within_caps (fill_verifications q s).
Proof.
  revert s. induction q as [|i q IH]; intros s [Hd Hv]; simpl; [done|].
  case_decide as Hlt; [|done]. apply IH. split; simpl; [done|].
  etrans; [apply size_insert_le|]. simpl. lia.
Qed.

Lemma processDownloads_caps s : within_caps s → within_caps (processDownloads s).
Proof.
  intros Hs. unfold processDownloads.
  pose proof (fill_downloads_caps (downloadQueue s) s Hs).
  repeat case_decide; done.
Qed.

Lemma processVerifications_caps s : within_caps s → within_caps (processVerifications s).
Proof.
  intros Hs. unfold processVerifications.
  pose proof (fill_verifications_caps (verifyQueue s) s Hs).
  repeat case_decide; done.
Qed.

Lemma start_resume_caps s : within_caps s → within_caps (start_resume s).
Proof.
  intros Hs. unfold start_resume. destruct (both_returned s); [|done].
  destruct (pass s); try done. destruct (downloadQueue s); [done|].
  assert (within_caps (joint_pass (set_pass SecondPass s))).
  { by apply processVerifications_caps, processDownloads_caps. }
  by destruct (both_returned _).
Qed.

Lemma download_failed_maps i s :
  activeDownloads (download_failed i s) = activeDownloads s
  ∧ activeVerifications (download_failed i s) = activeVerifications s.
Proof. unfold download_failed. by case_decide. Qed.

Lemma verification_conclude_maps i h m s :
  activeDownloads (verification_conclude i h m s) = activeDownloads s
  ∧ activeVerifications (verification_conclude i h m s) = activeVerifications s.
Proof.
  unfold verification_conclude.
  destruct (progress (task_at s i)); [|done].
  destruct (falsy h || falsy m); [done|].
  destruct (progress (task_at _ i)); [|done].
  by case_decide.
Qed.

Lemma step_caps e s s' : within_caps s → step e s = Some s' → within_caps s'.
Proof.
  intros Hs Hstep.
  assert (Hdf : ∀ p w j, within_caps (set_promise p w (download_failed j s))).
  { intros p w j. destruct (download_failed_maps j s) as [Hd Hv].
    unfold within_caps.
    change (activeDownloads (set_promise p w ?x)) with (activeDownloads x).
    change (activeVerifications (set_promise p w ?x)) with (activeVerifications x).
    by rewrite Hd, Hv. }
  destruct e as [p len|p n|p|p|p h|p m|p|]; simpl in Hstep.
  - destruct (promises s !! p) as [[i [| |]|i ph|]|]; by simplify_eq.
  - destruct (promises s !! p) as [[i [| |]|i ph|]|]; simplify_eq.
    destruct (progress (task_at s i)); by simplify_eq.
  - destruct (promises s !! p) as [[i [| |]|i ph|]|]; by simplify_eq.
  - destruct (promises s !! p) as [[i [| |]|i ph|]|]; by simplify_eq.
  - destruct (promises s !! p) as [[i ph|i [|h'|]|]|]; simplify_eq.
    destruct (progress (task_at s i)); by simplify_eq.
  - destruct (promises s !! p) as [[i ph|i [|h'|]|]|]; simplify_eq.
    unfold within_caps.
    change (activeDownloads (set_promise ?p ?w ?x)) with (activeDownloads x).
    change (activeVerifications (set_promise ?p ?w ?x)) with (activeVerifications x).
    destruct (verification_conclude_maps i h' m s) as [Hd Hv]. by rewrite Hd, Hv.
  - destruct (promises s !! p) as [[i [| |]|i [|h'|]|]|]; simplify_eq.
    + apply start_resume_caps. unfold wake_downloads. simpl.
      assert (within_caps (set_activeDownloads
                (delete (filename (task_at s i)) (activeDownloads s))
                (set_promise p Settled s))) as Hc.
      { destruct Hs as [Hd Hv]. split; simpl; [|done].
        etrans; [apply size_delete_le|done]. }
      destruct (downloadLoop s); try done.
      case_bool_decide; [by apply processDownloads_caps|done].
    + apply start_resume_caps. unfold wake_verifications. simpl.
      assert (within_caps (set_activeVerifications
                (delete (filename (task_at s i)) (activeVerifications s))
                (set_promise p Settled s))) as Hc.
      { destruct Hs as [Hd Hv]. split; simpl; [done|].
        etrans; [apply size_delete_le|done]. }
      destruct (verifyLoop s); try done.
      case_bool_decide; [by apply processVerifications_caps|done].
  - destruct (verifyLoop s); simplify_eq.
    by apply start_resume_caps, processVerifications_caps.
Qed.

Lemma reachable_caps ts s : reachable ts s → within_caps s.
Proof.
  intros [evs Hrun].
  assert (Hinit : within_caps (start (Downloader_new ts))).
  { apply start_resume_caps, processVerifications_caps, processDownloads_caps.
    split; simpl; rewrite map_size_empty; lia. }
  revert Hinit Hrun. generalize (start (Downloader_new ts)).
  induction evs as [|e evs IH]; intros s0 H0 Hrun; simpl in Hrun.
  - by simplify_eq.
  - destruct (step e s0) as [s1|] eqn:He; [|done].
    eapply IH; [|done]. by eapply step_caps.
Qed.

(** ** The second pass *)

Lemma fill_downloads_control q s :
  pass (fill_downloads q s) = pass s
  ∧ verifyLoop (fill_downloads q s) = verifyLoop s
  ∧ downloadLoop (fill_downloads q s) = downloadLoop s.
Proof.
  revert s. induction q as [|i q IH]; intros s; simpl; [done|].
  case_decide; [|done]. by destruct (IH (launch_download i (set_downloadQueue q s))).
Qed.

Lemma fill_verifications_control q s :
  pass (fill_verifications q s) = pass s
  ∧ verifyLoop (fill_verifications q s) = verifyLoop s
  ∧ downloadLoop (fill_verifications q s) = downloadLoop s.
Proof.
  revert s. induction q as [|i q IH]; intros s; simpl; [done|].
  case_decide; [|done]. by destruct (IH (launch_verification i (set_verifyQueue q s))).
Qed.

Lemma processDownloads_control s :
  pass (processDownloads s) = pass s ∧ verifyLoop (processDownloads s) = verifyLoop s.
Proof.
  unfold processDownloads.
  destruct (fill_downloads_control (downloadQueue s) s) as (? & ? & ?).
  repeat case_decide; done.
Qed.

Lemma processVerifications_control s :
  pass (processVerifications s) = pass s
  ∧ downloadLoop (processVerifications s) = downloadLoop s.
Proof.
  unfold processVerifications.
  destruct (fill_verifications_control (verifyQueue s) s) as (? & ? & ?).
  repeat case_decide; done.
Qed.

Lemma processDownloads_returned_queue s :
  downloadLoop (processDownloads s) = Returned → downloadQueue (processDownloads s) = [].
Proof.
  intros Hr. apply processDownloads_returns_idle in Hr.
  destruct (downloadQueue (processDownloads s)) eqn:Hq; [done|].
  exfalso. apply Hr. left. by rewrite Hq.
Qed.

Lemma processVerifications_returned_queue s :
  verifyLoop (processVerifications s) = Returned →
  downloadQueue (processVerifications s) = [].
Proof.
  intros Hr. apply processVerifications_returns_idle in Hr as (_ & _ & Hr).
  destruct (downloadQueue (processVerifications s)) eqn:Hq; [done|].
  exfalso. apply Hr. left. by rewrite Hq.
Qed.

Lemma both_returned_inv s :
  both_returned s = true → downloadLoop s = Returned ∧ verifyLoop s = Returned.
Proof. unfold both_returned. by destruct (downloadLoop s), (verifyLoop s). Qed.

(** [start] leaves its first [Promise.all] with an empty download queue. *)
Lemma start_resume_first_pass s :
  pass s ≠ SecondPass →
  (pass s = FirstPass → both_returned s = true → downloadQueue s = []) →
  in_first_pass (start_resume s).
Proof.
  intros Hp Hq. unfold start_resume, in_first_pass.
  destruct (both_returned s) eqn:Hb; [|by split].
  destruct (pass s) eqn:Hpass; [|done|by rewrite Hpass].
  rewrite Hq by done. by split.
Qed.

Lemma in_first_pass_same s s' :
  in_first_pass s → pass s' = pass s → downloadLoop s' = downloadLoop s →
  verifyLoop s' = verifyLoop s → in_first_pass s'.
Proof.
  unfold in_first_pass, both_returned. intros [H1 H2] -> -> ->. done.
Qed.

Lemma download_failed_control i s :
  pass (download_failed i s) = pass s
  ∧ downloadLoop (download_failed i s) = downloadLoop s
  ∧ verifyLoop (download_failed i s) = verifyLoop s.
Proof. unfold download_failed. by case_decide. Qed.

Lemma verification_conclude_control i h m s :
  pass (verification_conclude i h m s) = pass s
  ∧ downloadLoop (verification_conclude i h m s) = downloadLoop s
  ∧ verifyLoop (verification_conclude i h m s) = verifyLoop s.
Proof.
  unfold verification_conclude.
  destruct (progress (task_at s i)); [|done].
  destruct (falsy h || falsy m); [done|].
  destruct (progress (task_at _ i)); [|done].
  by case_decide.
Qed.

Lemma step_first_pass e s s' : in_first_pass s → step e s = Some s' → in_first_pass s'.
Proof.
  intros Hs Hstep.
  assert (Hdf : ∀ p w j, in_first_pass (set_promise p w (download_failed j s))).
  { intros p w j. destruct (download_failed_control j s) as (H1 & H2 & H3).
    by apply (in_first_pass_same s). }
  destruct e as [p len|p n|p|p|p h|p m|p|]; simpl in Hstep.
  - destruct (promises s !! p) as [[i [| |]|i ph|]|]; simplify_eq.
    by apply (in_first_pass_same s).
  - destruct (promises s !! p) as [[i [| |]|i ph|]|]; simplify_eq.
    destruct (progress (task_at s i)); simplify_eq; [|done].
    by apply (in_first_pass_same s).
  - destruct (promises s !! p) as [[i [| |]|i ph|]|]; simplify_eq.
    by apply (in_first_pass_same s).
  - destruct (promises s !! p) as [[i [| |]|i ph|]|]; by simplify_eq.
  - destruct (promises s !! p) as [[i ph|i [|h'|]|]|]; simplify_eq.
    destruct (progress (task_at s i)); simplify_eq; by apply (in_first_pass_same s).
  - destruct (promises s !! p) as [[i ph|i [|h'|]|]|]; simplify_eq.
    destruct (verification_conclude_control i h' m s) as (H1 & H2 & H3).
    by apply (in_first_pass_same s).
  - destruct Hs as [Hne Hnb].
    destruct (promises s !! p) as [[i [| |]|i [|h'|]|]|]; simplify_eq.
    + apply start_resume_first_pass; unfold wake_downloads; simpl;
        destruct (downloadLoop s) as [ids| |] eqn:Hd; simpl; try done.
      * case_bool_decide; [|done]. by rewrite (proj1 (processDownloads_control _)).
      * case_bool_decide.
        -- intros _ Hb. apply both_returned_inv in Hb as [Hb _].
           by apply processDownloads_returned_queue.
        -- intros Hp Hb. apply both_returned_inv in Hb as [Hb _]. simpl in Hb. congruence.
      * intros Hp Hb. apply Hnb in Hp. unfold both_returned in *. simpl in *.
        congruence.
      * intros Hp Hb. apply Hnb in Hp. unfold both_returned in *. simpl in *.
        congruence.
    + apply start_resume_first_pass; unfold wake_verifications; simpl;
        destruct (verifyLoop s) as [ids| |] eqn:Hv; simpl; try done.
      * case_bool_decide; [|done]. by rewrite (proj1 (processVerifications_control _)).
      * case_bool_decide.
        -- intros _ Hb. apply both_returned_inv in Hb as [_ Hb].
           by apply processVerifications_returned_queue.
        -- intros Hp Hb. apply both_returned_inv in Hb as [_ Hb]. simpl in Hb. congruence.
      * intros Hp Hb. apply Hnb in Hp. unfold both_returned in *. simpl in *.
        congruence.
      * intros Hp Hb. apply Hnb in Hp. unfold both_returned in *. simpl in *.
        congruence.
  - destruct Hs as [Hne Hnb]. destruct (verifyLoop s); simplify_eq.
    apply start_resume_first_pass.
    + by rewrite (proj1 (processVerifications_control _)).
    + intros _ Hb. apply both_returned_inv in Hb as [_ Hb].
      by apply processVerifications_returned_queue.
Qed.

(** [start] never gets to its second [Promise.all]: when the first one is
    resolved the download queue is empty, because [processVerifications]
    does not return before it is. *)
Lemma second_pass_never_runs ts s : reachable ts s → pass s ≠ SecondPass.
Proof.
  intros [evs Hrun].
  assert (Hinit : in_first_pass (start (Downloader_new ts))).
  { apply start_resume_first_pass.
    - unfold joint_pass. rewrite (proj1 (processVerifications_control _)).
      by rewrite (proj1 (processDownloads_control _)).
    - intros _ Hb. apply both_returned_inv in Hb as [_ Hb].
      by apply processVerifications_returned_queue. }
  revert Hinit Hrun. generalize (start (Downloader_new ts)).
  induction evs as [|e evs IH]; intros s0 H0 Hrun; simpl in Hrun.
  - simplify_eq. by destruct H0.
  - destruct (step e s0) as [s1|] eqn:He; [|done].
    eapply IH; [|done]. by eapply step_first_pass.
Qed.

(** ** The retry policy of the download worker *)

(** C1.  In every state of a run that starts from freshly created tasks, the
    counter [attempts] of every task is at most [MAX_RETRIES], it is the
    number of download attempts of the task that failed so far, and a task
    that is [Failed] has failed exactly [MAX_RETRIES] times.  When a download
    attempt of the task fails, its [catch] block increments [attempts] by
    exactly one; if the new value is below [MAX_RETRIES] the task is pushed to
    the back of the download queue (and keeps its status), otherwise its
    status becomes [Failed] (and the queue is left alone). *)
Theorem retry_policy ts evs s i t :
  Forall initial_task ts →
  run evs (start (Downloader_new ts)) = Some s →
  tasks s !! i = Some t →
  attempts t ≤ MAX_RETRIES
  ∧ attempts t = failures i evs (start (Downloader_new ts))
  ∧ (status t = Failed → failures i evs (start (Downloader_new ts)) = MAX_RETRIES)
  ∧ ∀ p ph, promises s !! p = Some (DlWorker i ph) → ph ≠ DlSaving →
      ∃ s' t', step (TransferError p) s = Some s'
        ∧ tasks s' !! i = Some t'
        ∧ attempts t' = S (attempts t)
        ∧ attempts t' ≤ MAX_RETRIES
        ∧ if decide (attempts t' < MAX_RETRIES)
          then downloadQueue s' = downloadQueue s ++ [i] ∧ status t' = Downloading
          else downloadQueue s' = downloadQueue s ∧ status t' = Failed.
Proof.
  intros Hts Hrun Ht.
  assert (Hc : consistent s) by (eapply reachable_consistent; [done|by exists evs]).
  destruct (tasks_ok s Hc i t Ht) as (Hle & Hfail & _).
  assert (Hcount : attempts t = failures i evs (start (Downloader_new ts))).
  { destruct (lookup_lt_is_Some_2 (tasks (start (Downloader_new ts))) i) as [t0 Ht0].
    { rewrite <- (run_length evs _ s Hrun). by eapply lookup_lt_Some. }
    destruct (run_attempts evs _ s i t0 Hrun Ht0) as (t1 & Ht1 & _ & Ha1).
    destruct (Forall2_lookup_r _ _ _ _ _ (start_keeps ts) Ht0) as (t00 & Ht00 & Ha0 & _).
    rewrite Forall_lookup in Hts. destruct (Hts i t00 Ht00) as (Hz & _).
    simplify_eq. lia. }
  split_and!; [done|done|by rewrite <- Hcount|].
  intros p ph Hp Hph.
  destruct (download_failed_spec s i t Ht) as (_ & _ & _ & t' & Ht' & Ha & _ & _ & Hq).
  assert (Hrole : role_ok InTransfer t).
  { apply (owners_ok s Hc i); [|done]. unfold owners, owners_of.
    apply elem_of_app. right. apply list_elem_of_omap.
    exists (DlWorker i ph). split; [by eapply list_elem_of_lookup_2|].
    by destruct ph. }
  destruct Hrole as [Hlt Hst].
  exists (set_promise p (DlWorker i DlSaving) (download_failed i s)), t'.
  split_and!; [|done|done|unfold MAX_RETRIES in *; lia|].
  - simpl. rewrite Hp. by destruct ph.
  - rewrite Ha. case_decide; destruct Hq as [Hs' Hq']; split; try done.
    by rewrite Hs'.
Qed.

(** ** Verification failures *)

(** C2.  When the verification of a task fails, because the local hash could
    not be computed ([h = None]), because the expected hash could not be
    fetched ([m = None]), or because the two differ, the task's status becomes
    [Pending] again, the task is put at the front of the download queue, and
    its [attempts] counter is what it was. *)
Theorem verification_failure_requeues s p i h m t :
  promises s !! p = Some (VfWorker i (FetchingMd5 h)) →
  tasks s !! i = Some t →
  h = None ∨ m = None ∨ h ≠ m →
  ∃ s' t', step (Md5Result p m) s = Some s'
    ∧ tasks s' !! i = Some t'
    ∧ status t' = Pending
    ∧ attempts t' = attempts t
    ∧ downloadQueue s' = i :: downloadQueue s.
Proof.
  intros Hp Ht Hfail.
  destruct (verification_conclude_spec s i h m t Ht) as (_ & _ & t' & Ht' & Ha & _ & _ & Hres).
  exists (set_promise p (VfWorker i VfSaving) (verification_conclude i h m s)), t'.
  split; [simpl; by rewrite Hp|]. split; [done|].
  destruct Hres as [(_ & _ & Hf & Heq)|[Hst Hq]]; [|done].
  exfalso. subst m. destruct Hfail as [->|[->|?]]; done.
Qed.

(** ** The status of a task that enters the download queue *)

(** C9.  A step of a run puts a task into the download queue in two ways
    only.  The failure of a download attempt below the retry cap pushes the
    task to the back, and its status is still [Downloading]; the failure of a
    verification puts the task at the front with status [Pending]. *)
Theorem requeued_status ts s e s' i t' :
  Forall initial_task ts → reachable ts s →
  step e s = Some s' →
  i ∈ downloadQueue s' → i ∉ downloadQueue s →
  tasks s' !! i = Some t' →
  match e with
  | TransferError _ | Chunk _ _ =>
      status t' = Downloading ∧ status t' ≠ Pending
      ∧ downloadQueue s' = downloadQueue s ++ [i]
      ∧ attempts t' < MAX_RETRIES
  | HashResult _ _ | Md5Result _ _ =>
      status t' = Pending ∧ downloadQueue s' = i :: downloadQueue s
  | _ => False
  end.
Proof.
  intros Hts Hreach Hstep Hin Hnin Ht'.
  assert (Hc : consistent s) by (by eapply reachable_consistent).
  assert (Hlen : ∃ t, tasks s !! i = Some t).
  { apply lookup_lt_is_Some_2. rewrite <- (step_length e s s' Hstep).
    by eapply lookup_lt_Some. }
  destruct Hlen as [t Ht].
  assert (Hfailed : ∀ p j w, promises s !! p = Some w →
            promise_role w = Some (j, InTransfer) →
            s' = set_promise p (DlWorker j DlSaving) (download_failed j s) →
            status t' = Downloading ∧ status t' ≠ Pending
            ∧ downloadQueue s' = downloadQueue s ++ [i]
            ∧ attempts t' < MAX_RETRIES).
  { intros p j w Hp Hw ->.
    assert (j = i) as ->.
    { revert Hin. unfold download_failed. case_decide; simpl; [|done].
      rewrite elem_of_app, list_elem_of_singleton. by intros [?|?]. }
    destruct (download_failed_spec s i t Ht) as (_ & _ & _ & t1 & Ht1 & Ha & _ & _ & Hq).
    change (tasks (download_failed i s) !! i = Some t') in Ht'. simplify_eq.
    case_decide; destruct Hq as [Hst Hq]; [|by rewrite <- Hq in Hnin].
    assert (role_ok InTransfer t) as [_ Hrole].
    { apply (owners_ok s Hc i); [|done]. unfold owners, owners_of.
      apply elem_of_app. right. apply list_elem_of_omap. exists w.
      split; [by eapply list_elem_of_lookup_2|done]. }
    simpl in Hrole. rewrite Hst, Hrole, Ha.
    split_and!; done. }
  destruct e as [p len|p n|p|p|p h|p m|p|]; simpl in Hstep.
  - destruct (promises s !! p) as [[j [| |]|j ph|]|] eqn:Hp; simplify_eq. done.
  - destruct (promises s !! p) as [[j [| |]|j ph|]|] eqn:Hp; simplify_eq.
    destruct (progress (task_at s j)) as [pr|] eqn:Hpr; simplify_eq; [done|].
    by eapply Hfailed.
  - destruct (promises s !! p) as [[j [| |]|j ph|]|] eqn:Hp; simplify_eq. done.
  - destruct (promises s !! p) as [[j [| |]|j ph|]|] eqn:Hp; simplify_eq;
      by eapply Hfailed.
  - destruct (promises s !! p) as [[j ph|j [|h'|]|]|] eqn:Hp; simplify_eq.
    destruct (progress (task_at s j)) as [pr|] eqn:Hpr; simplify_eq; [done|].
    simpl in *. apply elem_of_cons in Hin as [->|?]; [|done].
    rewrite !list_lookup_alter_eq, Ht in Ht'. by simplify_eq/=.
  - destruct (promises s !! p) as [[j ph|j [|h'|]|]|] eqn:Hp; simplify_eq.
    change (i ∈ downloadQueue (verification_conclude j h' m s)) in Hin.
    change (tasks (verification_conclude j h' m s) !! i = Some t') in Ht'.
    change (downloadQueue (set_promise _ _ ?x)) with (downloadQueue x).
    destruct (decide (j = i)) as [->|Hne].
    + destruct (verification_conclude_spec s i h' m t Ht)
        as (_ & _ & t1 & Ht1 & _ & _ & _ & Hres).
      simplify_eq.
      destruct Hres as [(_ & Hq & _)|[Hst Hq]]; [by rewrite Hq in Hin|done].
    + exfalso.
      destruct (verification_conclude_queue s j h' m) as [Hq|Hq];
        rewrite Hq in Hin; [done|].
      apply elem_of_cons in Hin as [?|?]; done.
  - destruct (promises s !! p) as [[j [| |]|j [|h'|]|]|] eqn:Hp; simplify_eq.
    + destruct (start_resume_queue (wake_downloads p
                 (set_activeDownloads (delete (filename (task_at s j)) (activeDownloads s))
                    (set_promise p Settled s)))) as [l1 Hl1].
      destruct (wake_downloads_queue p
                 (set_activeDownloads (delete (filename (task_at s j)) (activeDownloads s))
                    (set_promise p Settled s))) as [l2 Hl2].
      simpl in Hl2. apply Hnin. rewrite Hl2, Hl1, !elem_of_app. auto.
    + destruct (start_resume_queue (wake_verifications p
                 (set_activeVerifications (delete (filename (task_at s j)) (activeVerifications s))
                    (set_promise p Settled s)))) as [l1 Hl1].
      rewrite wake_verifications_queue in Hl1. simpl in Hl1.
      apply Hnin. rewrite Hl1, !elem_of_app. auto.
  - destruct (verifyLoop s); simplify_eq.
    destruct (start_resume_queue (processVerifications s)) as [l1 Hl1].
    rewrite processVerifications_queue in Hl1.
    apply Hnin. rewrite Hl1, !elem_of_app. auto.
Qed.

(** ** Status and progress during verification *)

Lemma verifying_role (ps : list Promise) p i ph :
  ps !! p = Some (VfWorker i ph) → ph ≠ VfSaving →
  (i, InVerification) ∈ omap promise_role ps.
Proof.
  intros Hp Hph. apply list_elem_of_omap. exists (VfWorker i ph).
  split; [by eapply list_elem_of_lookup_2|]. by destruct ph.
Qed.

(** C4, as the code has it.  The status of a task is one of the five values
    pending, downloading, downloaded, failed, verified: there is no status
    for a verification.  When the verification loop takes a task from the
    verify queue it sets the status to [Downloading] and [progress] to
    (0, 100), and as long as the verification is under way the status is
    [Downloading] and [progress] is some (b, 100). *)
Theorem verification_status ts s :
  Forall initial_task ts → reachable ts s →
  (∀ st, status_name st ∈ ["pending"; "downloading"; "downloaded"; "failed"; "verified"]%string)
  ∧ (∀ i rest t, verifyQueue s = i :: rest → tasks s !! i = Some t →
       ∃ t', tasks (launch_verification i (set_verifyQueue rest s)) !! i = Some t'
             ∧ status t' = Downloading
             ∧ progress t' = Some (mkProgress 0 100))
  ∧ (∀ p i ph t, promises s !! p = Some (VfWorker i ph) → ph ≠ VfSaving →
       tasks s !! i = Some t →
       status t = Downloading ∧ ∃ b, progress t = Some (mkProgress b 100)).
Proof.
  intros Hts Hreach.
  assert (Hc : consistent s) by (by eapply reachable_consistent).
  split_and!.
  - intros []; simpl; set_solver.
  - intros i rest t Hq Ht. eexists. simpl.
    rewrite !list_lookup_alter_eq, Ht. simpl. done.
  - intros p i ph t Hp Hph Ht.
    assert (role_ok InVerification t) as [_ Hrole]; [|done].
    apply (owners_ok s Hc i); [|done]. unfold owners, owners_of.
    apply elem_of_app. right. by eapply verifying_role.
Qed.

(** ** The lifetime of [progress] *)

(** C5, as the code has it.  Every exit from a verification clears
    [progress], and [progress] is absent whenever the status of a task is
    [Pending] or [Verified].  The end of a transfer does not clear it: the
    task becomes [Downloaded] with the progress its transfer left. *)
Theorem progress_lifetime ts s :
  Forall initial_task ts → reachable ts s →
  (∀ i t, tasks s !! i = Some t →
     status t = Pending ∨ status t = Verified → progress t = None)
  ∧ (∀ p i h m t, promises s !! p = Some (VfWorker i (FetchingMd5 h)) →
       tasks s !! i = Some t →
       ∃ s' t', step (Md5Result p m) s = Some s' ∧ tasks s' !! i = Some t'
                ∧ progress t' = None)
  ∧ (∀ p i t, promises s !! p = Some (DlWorker i Streaming) →
       tasks s !! i = Some t →
       ∃ s' t', step (EndOfStream p) s = Some s' ∧ tasks s' !! i = Some t'
                ∧ status t' = Downloaded ∧ progress t' = progress t).
Proof.
  intros Hts Hreach.
  assert (Hc : consistent s) by (by eapply reachable_consistent).
  split_and!.
  - intros i t Ht Hst. by destruct (tasks_ok s Hc i t Ht) as (_ & _ & Hp); auto.
  - intros p i h m t Hp Ht.
    destruct (verification_conclude_spec s i h m t Ht) as (_ & _ & t' & Ht' & _ & _ & Hpr & _).
    exists (set_promise p (VfWorker i VfSaving) (verification_conclude i h m s)), t'.
    split; [simpl; by rewrite Hp|done].
  - intros p i t Hp Ht. eexists _, _. simpl. rewrite Hp.
    split; [done|]. simpl. rewrite list_lookup_alter_eq, Ht. done.
Qed.

(** ** The two passes of [start] *)

(** While the verification loop sleeps with an empty verify queue and the
    download loop has returned with a task in the download queue, a tick of
    the timer changes nothing. *)
Lemma idle_wait_forever s :
  verifyLoop s = Sleeping → downloadLoop s = Returned →
  verifyQueue s = [] → downloadQueue s ≠ [] →
  size (activeVerifications s) < CONCURRENT_VERIFICATIONS →
  step Tick s = Some s.
Proof.
  intros Hv Hd Hvq Hdq Hsize. simpl. rewrite Hv. f_equal.
  assert (processVerifications s = s) as ->.
  { unfold processVerifications, downloads_outstanding.
    rewrite decide_True by auto. rewrite decide_True by auto.
    destruct s. simpl in *. by subst. }
  unfold start_resume, both_returned. by rewrite Hd, Hv.
Qed.

Lemma all_settled_step s e :
  Forall (λ w, w = Settled) (promises s) →
  step e s = match e with Tick => step Tick s | _ => None end.
Proof.
  intros Hall. rewrite Forall_lookup in Hall.
  destruct e as [p len|p n|p|p|p h|p m|p|]; [..|done]; unfold step;
    destruct (promises s !! p) as [w|] eqn:Hp; try done;
    by rewrite (Hall p w Hp).
Qed.

(** C3 fails on a file that is present locally with a wrong hash.
    [processDownloads] returns at once, since nothing is to download.  When
    the verification fails the task goes back to the download queue, which no
    loop drains any more: [processVerifications] sleeps and wakes up for ever,
    the first [Promise.all] is never resolved, the second pass never starts,
    and the task stays [Pending]. *)
Theorem requeued_task_waits_forever :
  run stale_copy (start (Downloader_new (reconcile one_file (list_to_set one_file))))
    = Some (outcome stale_copy (reconcile one_file (list_to_set one_file)))
  ∧ status (task_at (outcome stale_copy (reconcile one_file (list_to_set one_file))) 0) = Pending
  ∧ downloadQueue (outcome stale_copy (reconcile one_file (list_to_set one_file))) = [0]
  ∧ downloadLoop (outcome stale_copy (reconcile one_file (list_to_set one_file))) = Returned
  ∧ pass (outcome stale_copy (reconcile one_file (list_to_set one_file))) = FirstPass
  ∧ ∀ e, step e (outcome stale_copy (reconcile one_file (list_to_set one_file)))
         = match e with
           | Tick => Some (outcome stale_copy (reconcile one_file (list_to_set one_file)))
           | _ => None
           end.
Proof.
  remember (outcome stale_copy (reconcile one_file (list_to_set one_file))) as s eqn:Hs.
  assert (Hp : promises s = [Settled]) by (rewrite Hs; vm_compute; reflexivity).
  assert (Hv : verifyLoop s = Sleeping) by (rewrite Hs; vm_compute; reflexivity).
  assert (Hd : downloadLoop s = Returned) by (rewrite Hs; vm_compute; reflexivity).
  assert (Hvq : verifyQueue s = []) by (rewrite Hs; vm_compute; reflexivity).
  assert (Hdq : downloadQueue s = [0]) by (rewrite Hs; vm_compute; reflexivity).
  assert (Hsz : size (activeVerifications s) = 0) by (rewrite Hs; vm_compute; reflexivity).
  assert (Hst : status (task_at s 0) = Pending) by (rewrite Hs; vm_compute; reflexivity).
  assert (Hpass : pass s = FirstPass) by (rewrite Hs; vm_compute; reflexivity).
  assert (Hrun : run stale_copy
                   (start (Downloader_new (reconcile one_file (list_to_set one_file))))
                 = Some s) by (rewrite Hs; vm_compute; reflexivity).
  clear Hs. repeat (split; [assumption|]).
  intros e. rewrite all_settled_step.
  - rewrite idle_wait_forever; [reflexivity|assumption|assumption|assumption| |].
    + rewrite Hdq. discriminate.
    + rewrite Hsz. unfold CONCURRENT_VERIFICATIONS. lia.
  - rewrite Hp. repeat constructor.
Qed.

(** ** The concurrency caps *)

(** C7 fails on eleven missing files.  The map [activeDownloads] is keyed by
    file name: when a file is launched again while the closure of its failed
    attempt still waits for the snapshot write, the new promise replaces the
    old one in the map, and the [finally] callback of the old promise then
    deletes the entry of the new one.  The map, which the guard of the loop
    reads, holds ten entries, and eleven transfers are under way. *)
Theorem eleven_transfers_in_flight :
  run overlapping_retry (start (Downloader_new (reconcile eleven_files ∅)))
    = Some (outcome overlapping_retry (reconcile eleven_files ∅))
  ∧ size (activeDownloads (outcome overlapping_retry (reconcile eleven_files ∅)))
    = CONCURRENT_DOWNLOADS
  ∧ downloads_in_flight (outcome overlapping_retry (reconcile eleven_files ∅))
    = S CONCURRENT_DOWNLOADS.
Proof. split_and!; vm_compute; reflexivity. Qed.

(** ** Runs that show what the code does *)

(** C4 as stated fails: the verification of a local file sets its status to
    the string downloading, and no status is the string verifying. *)
Lemma verifying_is_not_a_status :
  verifyQueue (Downloader_new (reconcile one_file (list_to_set one_file))) = [0]
  ∧ promises (start (Downloader_new (reconcile one_file (list_to_set one_file))))
    = [VfWorker 0 Hashing]
  ∧ status_name (status (task_at
       (start (Downloader_new (reconcile one_file (list_to_set one_file)))) 0))
    = "downloading"%string
  ∧ status_name (status (task_at
       (start (Downloader_new (reconcile one_file (list_to_set one_file)))) 0))
    ≠ "verifying"%string.
Proof. split_and!; vm_compute; (reflexivity || discriminate). Qed.

(** C5 as stated fails: after its transfer, a task is [Downloaded] and its
    [progress] is still there. *)
Lemma downloaded_keeps_progress :
  run one_transfer (start (Downloader_new (reconcile one_file ∅)))
    = Some (outcome one_transfer (reconcile one_file ∅))
  ∧ status (task_at (outcome one_transfer (reconcile one_file ∅)) 0) = Downloaded
  ∧ progress (task_at (outcome one_transfer (reconcile one_file ∅)) 0)
    = Some (mkProgress 2048 2048).
Proof. split_and!; vm_compute; reflexivity. Qed.

(** * The remote listing and reconciliation *)

(** ** Strings *)

Lemma append_cons x (a b : string) : (String x a ++ b)%string = String x (a ++ b).
Proof. reflexivity. Qed.

Lemma append_nil_l (b : string) : (EmptyString ++ b)%string = b.
Proof. reflexivity. Qed.

Ltac norm_append := rewrite ?append_cons, ?append_nil_l.

Lemma append_assoc (a b c : string) : ((a ++ b) ++ c = a ++ (b ++ c))%string.
Proof. induction a as [|x a IH]; norm_append; [done|]. by rewrite IH. Qed.

Lemma append_length (a b : string) :
  String.length (a ++ b) = String.length a + String.length b.
Proof. induction a as [|x a IH]; norm_append; simpl; [done|]. by rewrite IH. Qed.

Lemma strip_prefix_sound pre s r : strip_prefix pre s = Some r → s = (pre ++ r)%string.
Proof.
  revert s. induction pre as [|c pre IH]; intros s H; simpl in *.
  - by simplify_eq.
  - destruct s as [|d s]; [done|]. case_decide; [|done]. subst.
    norm_append. by rewrite (IH s H).
Qed.

Lemma strip_prefix_complete pre r : strip_prefix pre (pre ++ r) = Some r.
Proof.
  induction pre as [|c pre IH]; norm_append; simpl; [by destruct r|].
  by rewrite decide_True.
Qed.

Lemma span_digits_sound s d r :
  span_digits s = (d, r) → s = (d ++ r)%string ∧ all_digits d = true.
Proof.
  revert d r. induction s as [|c s IH]; intros d r H; simpl in *.
  - by simplify_eq.
  - destruct (is_digit c) eqn:Hc; [|by simplify_eq].
    destruct (span_digits s) as [ds rest]. simplify_eq.
    destruct (IH ds r eq_refl) as [-> Hds]. norm_append. simpl. by rewrite Hc, Hds.
Qed.

Lemma span_digits_complete d r :
  all_digits d = true → stops_digits r → span_digits (d ++ r) = (d, r).
Proof.
  intros Hd Hr. induction d as [|c d IH]; norm_append; simpl in *.
  - destruct r as [|c r]; [done|]. simpl in *. by rewrite Hr.
  - apply andb_true_iff in Hd as [Hc Hd]. by rewrite Hc, (IH Hd).
Qed.

(** ** The expression *)

#[local] Arguments strip_prefix : simpl never.
#[local] Arguments span_digits : simpl never.

Lemma match_file_sound s name r :
  match_file s = Some (name, r) → baseline_file name ∧ s = (name ++ r)%string.
Proof.
  unfold match_file. intros H.
  destruct (strip_prefix "pubmed" s) as [r1|] eqn:H1; [|done]. simpl in H.
  destruct (span_digits r1) as [d1 r2] eqn:H2.
  case_decide as Hd1; [done|].
  destruct (strip_prefix "n" r2) as [r3|] eqn:H3; [|done]. simpl in H.
  destruct (span_digits r3) as [d2 r4] eqn:H4.
  case_decide as Hd2; [done|].
  destruct (strip_prefix ".xml.gz" r4) as [r5|] eqn:H5; [|done]. simpl in H.
  simplify_eq.
  apply strip_prefix_sound in H1, H3, H5.
  apply span_digits_sound in H2 as [-> Ha1], H4 as [-> Ha2]. subst.
  split; [by exists d1, d2|].
  by rewrite !append_assoc.
Qed.

Lemma match_file_complete name r :
  baseline_file name → match_file (name ++ r) = Some (name, r).
Proof.
  intros (d1 & d2 & Hd1 & Hd2 & Ha1 & Ha2 & ->). unfold match_file.
  rewrite !append_assoc, strip_prefix_complete. simpl.
  rewrite (span_digits_complete d1) by done. rewrite decide_False by done.
  rewrite strip_prefix_complete. simpl.
  rewrite (span_digits_complete d2) by done. rewrite decide_False by done.
  by rewrite strip_prefix_complete.
Qed.

Lemma match_href_sound s name r :
  match_href s = Some (name, r) →
  baseline_file name ∧ String.length r < String.length s.
Proof.
  unfold match_href. intros H.
  destruct (strip_prefix _ s) as [r0|] eqn:H0; [|done]. simpl in H.
  destruct (match_file r0) as [[n r1]|] eqn:H1; [|done]. simpl in H.
  apply strip_prefix_sound in H0. apply match_file_sound in H1 as [Hn ->]. subst s.
  split.
  - destruct (strip_prefix ".md5" r1 ≫= strip_prefix dquote); [by simplify_eq|].
    destruct (strip_prefix dquote r1); simpl in H; by simplify_eq.
  - rewrite !append_length. simpl.
    destruct (strip_prefix ".md5" r1 ≫= strip_prefix dquote) as [r2|] eqn:H2.
    + simplify_eq. destruct (strip_prefix ".md5" r1) as [r3|] eqn:H3; [|done].
      simpl in H2. apply strip_prefix_sound in H2, H3. subst.
      rewrite !append_length. simpl. lia.
    + destruct (strip_prefix dquote r1) as [r2|] eqn:H3; [|done]. simpl in H.
      simplify_eq. apply strip_prefix_sound in H3. subst.
      rewrite !append_length. simpl. lia.
Qed.

(** The entry of a file, and the entry of its checksum file, both give the
    name of the file. *)
Lemma match_href_file name r :
  baseline_file name →
  match_href ("href=" ++ dquote ++ name ++ dquote ++ r) = Some (name, r).
Proof.
  intros Hn. unfold match_href.
  rewrite <- (append_assoc "href="), strip_prefix_complete. simpl.
  rewrite (match_file_complete name _ Hn). simpl.
  rewrite ?strip_prefix_complete. reflexivity.
Qed.

Lemma match_href_sidecar name r :
  baseline_file name →
  match_href ("href=" ++ dquote ++ name ++ ".md5" ++ dquote ++ r) = Some (name, r).
Proof.
  intros Hn. unfold match_href.
  rewrite <- (append_assoc "href="), strip_prefix_complete. simpl.
  rewrite (match_file_complete name _ Hn). simpl.
  rewrite ?strip_prefix_complete. simpl. rewrite ?strip_prefix_complete. reflexivity.
Qed.

(** ** The scan *)

Lemma match_href_empty : match_href EmptyString = None.
Proof. reflexivity. Qed.

(** More fuel than the length of the text changes nothing. *)
Lemma scan_fuel f1 f2 text found :
  String.length text ≤ f1 → String.length text ≤ f2 →
  scan f1 text found = scan f2 text found.
Proof.
  revert f2 text found. induction f1 as [|f1 IH]; intros f2 text found H1 H2.
  - destruct text; [|simpl in H1; lia]. by destruct f2.
  - destruct f2 as [|f2].
    + destruct text; [|simpl in H2; lia]. done.
    + simpl. destruct (match_href text) as [[name rest]|] eqn:Hm.
      * apply match_href_sound in Hm as [_ Hlt]. apply IH; lia.
      * destruct text as [|c text]; [done|]. simpl in *. apply IH; lia.
Qed.

Lemma scan_invariant (P : list string → Prop) :
  (∀ found name, P found → baseline_file name → P (set_add name found)) →
  ∀ fuel text found, P found → P (scan fuel text found).
Proof.
  intros Hadd. induction fuel as [|fuel IH]; intros text found Hf; simpl; [done|].
  destruct (match_href text) as [[name rest]|] eqn:Hm.
  - apply IH, Hadd; [done|]. by apply match_href_sound in Hm as [? _].
  - destruct text; [done|]. by apply IH.
Qed.

Lemma set_add_NoDup name found : NoDup found → NoDup (set_add name found).
Proof.
  intros Hnd. unfold set_add. case_decide; [done|].
  apply NoDup_app. split_and!; [done| |apply NoDup_singleton].
  intros x Hx ->%list_elem_of_singleton. done.
Qed.

Lemma set_add_Forall (P : string → Prop) name found :
  Forall P found → P name → Forall P (set_add name found).
Proof.
  intros Hf Hn. unfold set_add. case_decide; [done|].
  apply Forall_app. split; [done|]. by constructor.
Qed.

Lemma getRemoteFileList_NoDup text : NoDup (getRemoteFileList text).
Proof.
  apply (scan_invariant NoDup); [|constructor].
  intros found name Hnd _. by apply set_add_NoDup.
Qed.

Lemma getRemoteFileList_names text : Forall baseline_file (getRemoteFileList text).
Proof.
  apply (scan_invariant (Forall baseline_file)); [|constructor].
  intros found name Hf Hn. by apply set_add_Forall.
Qed.

(** ** The name of a file is not the name of a checksum file *)

Lemma append_last_char (a b : string) c1 c2 :
  (a ++ String c1 EmptyString = b ++ String c2 EmptyString)%string → c1 = c2.
Proof.
  revert b. induction a as [|x a IH]; intros [|y b]; norm_append; intros H.
  - by simplify_eq.
  - destruct b; by simplify_eq.
  - destruct a; by simplify_eq.
  - simplify_eq. by eapply IH.
Qed.

Lemma baseline_file_not_md5 name pre :
  baseline_file name → name ≠ (pre ++ ".md5")%string.
Proof.
  intros (d1 & d2 & _ & _ & _ & _ & ->) Heq.
  assert (Hz : "z"%char = "5"%char); [|done].
  apply (append_last_char ("pubmed" ++ d1 ++ "n" ++ d2 ++ ".xml.g") (pre ++ ".md")).
  rewrite !append_assoc. exact Heq.
Qed.

(** ** Reconciliation *)

Lemma reconcile_filenames remoteFiles localFiles :
  filename <$> reconcile remoteFiles localFiles
  = filter (λ f, f ∉ localFiles) remoteFiles ++ filter (λ f, f ∈ localFiles) remoteFiles.
Proof.
  unfold reconcile. rewrite fmap_app, <- !list_fmap_compose.
  f_equal; apply list_fmap_id.
Qed.

Lemma reconcile_NoDup remoteFiles localFiles :
  NoDup remoteFiles → NoDup (filename <$> reconcile remoteFiles localFiles).
Proof.
  intros Hnd. rewrite reconcile_filenames. apply NoDup_app.
  split_and!; try by apply NoDup_filter.
  intros f [Hf _]%list_elem_of_filter [Hf' _]%list_elem_of_filter. done.
Qed.

Lemma elem_of_reconcile t remoteFiles localFiles :
  t ∈ reconcile remoteFiles localFiles ↔
  ∃ f, f ∈ remoteFiles
       ∧ t = createTask f (if decide (f ∈ localFiles) then Downloaded else Pending).
Proof.
  unfold reconcile. rewrite elem_of_app, !list_elem_of_fmap. split.
  - intros [(f & -> & [Hf Hin]%list_elem_of_filter)|(f & -> & [Hf Hin]%list_elem_of_filter)];
      exists f; (split; [done|]).
    + by rewrite decide_False.
    + by rewrite decide_True.
  - intros (f & Hin & ->). case_decide.
    + right. exists f. split; [done|]. by apply list_elem_of_filter.
    + left. exists f. split; [done|]. by apply list_elem_of_filter.
Qed.

(** C6.  Reconciliation creates a [Pending] task for every name of the
    remote listing that is not a local file, and a [Downloaded] task for
    every name that is one; every task it creates is one of these, has made
    no attempt, has no progress, and has the url of its name under the base
    url. *)
Theorem reconciliation remoteFiles localFiles :
  (∀ f, f ∈ remoteFiles → f ∉ localFiles →
     ∃ t, t ∈ reconcile remoteFiles localFiles ∧ filename t = f ∧ status t = Pending)
  ∧ (∀ f, f ∈ remoteFiles → f ∈ localFiles →
     ∃ t, t ∈ reconcile remoteFiles localFiles ∧ filename t = f ∧ status t = Downloaded)
  ∧ (∀ t, t ∈ reconcile remoteFiles localFiles →
       filename t ∈ remoteFiles
       ∧ status t = (if decide (filename t ∈ localFiles) then Downloaded else Pending)
       ∧ attempts t = 0
       ∧ url t = (baseUrl ++ "/" ++ filename t)%string
       ∧ progress t = None).
Proof.
  split_and!.
  - intros f Hf Hl. exists (createTask f Pending). split; [|done].
    apply elem_of_reconcile. exists f. by rewrite decide_False.
  - intros f Hf Hl. exists (createTask f Downloaded). split; [|done].
    apply elem_of_reconcile. exists f. by rewrite decide_True.
  - intros t (f & Hf & ->)%elem_of_reconcile. done.
Qed.

(** C10.  The names extracted from a listing are pairwise different and each
    is pubmed, digits, n, digits, .xml.gz, so that none is the name of a
    checksum file; where the listing has the entry of a checksum file, the
    expression matches and captures the name without .md5; reconciliation
    therefore creates at most one task per name, and none for a checksum
    file. *)
Theorem listing_names text :
  NoDup (getRemoteFileList text)
  ∧ (∀ name, name ∈ getRemoteFileList text →
       baseline_file name ∧ ∀ pre, name ≠ (pre ++ ".md5")%string)
  ∧ (∀ name rest, baseline_file name →
       match_href ("href=" ++ dquote ++ name ++ ".md5" ++ dquote ++ rest)
       = Some (name, rest))
  ∧ (∀ localFiles,
       NoDup (filename <$> reconcile (getRemoteFileList text) localFiles)
       ∧ ∀ t, t ∈ reconcile (getRemoteFileList text) localFiles →
              baseline_file (filename t)
              ∧ ∀ pre, filename t ≠ (pre ++ ".md5")%string).
Proof.
  pose proof (getRemoteFileList_names text) as Hnames.
  rewrite Forall_forall in Hnames.
  split_and!.
  - apply getRemoteFileList_NoDup.
  - intros name Hn. split; [by apply Hnames|].
    intros pre. by apply baseline_file_not_md5, Hnames.
  - intros name rest Hn. by apply match_href_sidecar.
  - intros localFiles. split; [apply reconcile_NoDup, getRemoteFileList_NoDup|].
    intros t (f & Hf & ->)%elem_of_reconcile. simpl.
    split; [by apply Hnames|]. intros pre. by apply baseline_file_not_md5, Hnames.
Qed.

(** * The snapshot *)

(** ** Reading back what was printed *)

Lemma json_induction (P : json → Prop) :
  P JNull → (∀ b, P (JBool b)) → (∀ n, P (JNum n)) → (∀ s, P (JStr s)) →
  (∀ items, Forall P items → P (JArr items)) →
  (∀ fields, Forall (λ kv, P (snd kv)) fields → P (JObj fields)) →
  ∀ v, P v.
Proof.
  intros Hnull Hbool Hnum Hstr Harr Hobj. fix IH 1. intros [| | | |items|fields].
  - exact Hnull.
  - apply Hbool.
  - apply Hnum.
  - apply Hstr.
  - apply Harr. induction items as [|x items IHitems]; constructor; [apply IH|exact IHitems].
  - apply Hobj. induction fields as [|[k x] fields IHfields]; constructor;
      [apply IH|exact IHfields].
Qed.

#[local] Arguments skip_ws : simpl never.
#[local] Arguments parse_string_body : simpl never.

Lemma skip_ws_cons c s :
  skip_ws (String c s) = if is_ws c then skip_ws s else String c s.
Proof. reflexivity. Qed.

Lemma skip_ws_all_ws ws s : all_ws ws = true → skip_ws (ws ++ s) = skip_ws s.
Proof.
  induction ws as [|c ws IH]; norm_append; [done|]. simpl.
  intros [Hc Hws]%andb_true_iff. by rewrite skip_ws_cons, Hc, IH.
Qed.

Lemma skip_ws_starts s : starts_value s → skip_ws s = s.
Proof.
  destruct s as [|c s]; [done|]. intros (Hc & _). by rewrite skip_ws_cons, Hc.
Qed.

Lemma all_ws_spaces n : all_ws (spaces n) = true.
Proof. induction n as [|n IH]; [done|]. simpl. exact IH. Qed.

Lemma all_ws_append a b : all_ws a = true → all_ws b = true → all_ws (a ++ b) = true.
Proof.
  induction a as [|c a IH]; norm_append; [done|]. simpl.
  intros [Hc Ha]%andb_true_iff Hb. by rewrite Hc, IH.
Qed.

(** *** String literals *)

Lemma parse_string_body_cons c s :
  parse_string_body (String c s) =
  if decide (c = "034"%char) then Some (EmptyString, s)
  else if decide (c = backslash) then
    match s with
    | String e s2 =>
        let plain (x : ascii) :=
          '(body, rest) ← parse_string_body s2; Some (String x body, rest) in
        if decide (e = "b"%char) then plain "008"%char
        else if decide (e = "t"%char) then plain "009"%char
        else if decide (e = "n"%char) then plain "010"%char
        else if decide (e = "f"%char) then plain "012"%char
        else if decide (e = "r"%char) then plain "013"%char
        else if decide (e = "/"%char) then plain "/"%char
        else if decide (e = "034"%char) then plain "034"%char
        else if decide (e = backslash) then plain backslash
        else if decide (e = "u"%char) then
          match s2 with
          | String h1 (String h2 (String h3 (String h4 s3))) =>
              a ← hex_value h1; b ← hex_value h2;
              c' ← hex_value h3; d ← hex_value h4;
              if decide (a = 0 ∧ b = 0) then
                '(body, rest) ← parse_string_body s3;
                Some (String (ascii_of_nat (16 * c' + d)) body, rest)
              else None
          | _ => None
          end
        else None
    | EmptyString => None
    end
  else if nat_of_ascii c <? 32 then None
  else '(body, rest) ← parse_string_body s; Some (String c body, rest).
Proof. reflexivity. Qed.

Lemma parse_escape c tail body rest :
  parse_string_body tail = Some (body, rest) →
  parse_string_body (escape_char c ++ tail) = Some (String c body, rest).
Proof.
  intros H.
  destruct c as [[] [] [] [] [] [] [] []];
    vm_compute (escape_char _); norm_append;
    rewrite !parse_string_body_cons; simpl; rewrite H; reflexivity.
Qed.

Lemma parse_quote_body s rest :
  parse_string_body (quote_body s ++ dquote ++ rest) = Some (s, rest).
Proof.
  induction s as [|c s IH]; simpl.
  - norm_append. unfold dquote. norm_append. by rewrite parse_string_body_cons.
  - rewrite append_assoc. by apply parse_escape.
Qed.

(** *** Numbers *)

Lemma string_of_uint_digits d :
  all_digits (DecimalString.NilEmpty.string_of_uint d) = true.
Proof. induction d; simpl; done. Qed.

Lemma to_uint_not_nil n : Nat.to_uint n ≠ Decimal.Nil.
Proof.
  rewrite <- (DecimalNat.Unsigned.of_to n) at 1.
  rewrite DecimalNat.Unsigned.to_of. unfold Decimal.unorm.
  by destruct (Decimal.nzhead _).
Qed.

Lemma print_nat_starts n :
  ∃ c s, print_nat n = String c s ∧ is_digit c = true.
Proof.
  unfold print_nat. pose proof (string_of_uint_digits (Nat.to_uint n)) as Hd.
  pose proof (to_uint_not_nil n) as Hn.
  destruct (Nat.to_uint n); try done; simpl in *; eauto.
Qed.

Lemma parse_print_nat n rest :
  stops_digits rest → parse_nat (print_nat n ++ rest) = Some (n, rest).
Proof.
  intros Hrest. unfold parse_nat.
  rewrite span_digits_complete; [|apply string_of_uint_digits|done].
  change (DecimalString.NilEmpty.uint_of_string (print_nat n))
    with (DecimalString.NilEmpty.uint_of_string
            (DecimalString.NilEmpty.string_of_uint (Nat.to_uint n))).
  rewrite DecimalString.NilEmpty.usu. simpl.
  destruct (print_nat_starts n) as (c & s & Hs & _).
  rewrite decide_False by (by rewrite Hs).
  by rewrite DecimalNat.Unsigned.of_to.
Qed.

Lemma digit_chars c :
  is_digit c = true →
  c ≠ "034"%char ∧ c ≠ "["%char ∧ c ≠ "{"%char ∧ c ≠ "]"%char ∧ c ≠ "}"%char
  ∧ is_ws c = false.
Proof. intros Hc. split_and!; try (intros ->; done). by destruct c as [[] [] [] [] [] [] [] []]. Qed.

(** *** Values *)

#[local] Arguments parse_value : simpl never.
#[local] Arguments parse_items : simpl never.
#[local] Arguments parse_fields : simpl never.
#[local] Arguments parse_nat : simpl never.
#[local] Arguments json_print : simpl never.
#[local] Arguments join_with : simpl never.

Lemma parse_value_S f s :
  parse_value (S f) s =
  match skip_ws s with
  | EmptyString => None
  | String c rest =>
      if decide (c = "034"%char) then
        '(str, r) ← parse_string_body rest; Some (JStr str, r)
      else if decide (c = "["%char) then
        match expect "]" (skip_ws rest) with
        | Some r => Some (JArr [], r)
        | None => '(items, r) ← parse_items f rest; Some (JArr items, r)
        end
      else if decide (c = "{"%char) then
        match expect "}" (skip_ws rest) with
        | Some r => Some (JObj [], r)
        | None => '(fields, r) ← parse_fields f rest; Some (JObj fields, r)
        end
      else if is_digit c then
        '(n, r) ← parse_nat (String c rest); Some (JNum n, r)
      else
        match strip_prefix "null" (String c rest) with
        | Some r => Some (JNull, r)
        | None =>
            match strip_prefix "true" (String c rest) with
            | Some r => Some (JBool true, r)
            | None =>
                r ← strip_prefix "false" (String c rest); Some (JBool false, r)
            end
        end
  end.
Proof. reflexivity. Qed.

Lemma parse_items_S f s :
  parse_items (S f) s =
  '(v, r) ← parse_value f s;
  match expect "," (skip_ws r) with
  | Some r1 => '(vs, r2) ← parse_items f r1; Some (v :: vs, r2)
  | None => r1 ← expect "]" (skip_ws r); Some ([v], r1)
  end.
Proof. reflexivity. Qed.

Lemma parse_fields_S f s :
  parse_fields (S f) s =
  r0 ← expect "034" (skip_ws s);
  '(k, r1) ← parse_string_body r0;
  r2 ← expect ":" (skip_ws r1);
  '(v, r3) ← parse_value f r2;
  match expect "," (skip_ws r3) with
  | Some r4 => '(kvs, r5) ← parse_fields f r4; Some ((k, v) :: kvs, r5)
  | None => r4 ← expect "}" (skip_ws r3); Some ([(k, v)], r4)
  end.
Proof. reflexivity. Qed.

Lemma json_print_arr ind x items :
  json_print ind (JArr (x :: items)) =
  ("[" ++ newline ++ spaces (ind + 2)
   ++ join_with ("," ++ newline ++ spaces (ind + 2))
        (map (json_print (ind + 2)) (x :: items))
   ++ newline ++ spaces ind ++ "]")%string.
Proof. reflexivity. Qed.

Lemma json_print_obj ind kv fields :
  json_print ind (JObj (kv :: fields)) =
  ("{" ++ newline ++ spaces (ind + 2)
   ++ join_with ("," ++ newline ++ spaces (ind + 2))
        (map (λ kv, quote (fst kv) ++ ": " ++ json_print (ind + 2) (snd kv))
           (kv :: fields))
   ++ newline ++ spaces ind ++ "}")%string.
Proof. reflexivity. Qed.

Lemma print_starts ind v rest : starts_value (json_print ind v ++ rest).
Proof.
  destruct v as [|[]|n|s|[|x items]|[|kv fields]];
    rewrite ?json_print_arr, ?json_print_obj; try (by vm_compute).
  - change (json_print ind (JNum n)) with (print_nat n).
    destruct (print_nat_starts n) as (c & s & -> & Hc). norm_append. simpl.
    by destruct (digit_chars c Hc) as (_ & _ & _ & ? & ? & ?).
Qed.

Lemma ws_not_digit c : is_ws c = true → is_digit c = false.
Proof. by destruct c as [[] [] [] [] [] [] [] []]. Qed.

Lemma stops_digits_ws ws c rest :
  all_ws ws = true → is_digit c = false → stops_digits (ws ++ String c rest).
Proof.
  destruct ws as [|d ws]; norm_append; simpl; [done|].
  intros [Hd _]%andb_true_iff _. by apply ws_not_digit.
Qed.

Lemma expect_hit c r : expect c (String c r) = Some r.
Proof. simpl. by rewrite decide_True. Qed.

Lemma expect_miss c d r : d ≠ c → expect c (String d r) = None.
Proof. intros H. simpl. by rewrite decide_False. Qed.

Lemma expect_starts c s :
  starts_value s → c = "]"%char ∨ c = "}"%char → expect c s = None.
Proof.
  destruct s as [|d s]; [done|]. intros (_ & H1 & H2) [->| ->]; by apply expect_miss.
Qed.

Lemma join_with_singleton sep a : join_with sep [a] = a.
Proof. reflexivity. Qed.

Lemma join_with_cons sep a parts :
  parts ≠ [] → join_with sep (a :: parts) = (a ++ sep ++ join_with sep parts)%string.
Proof. by destruct parts. Qed.

Lemma bind_Some {A B} (x : A) (f : A → option B) : Some x ≫= f = f x.
Proof. reflexivity. Qed.

Lemma all_ws_indent ind : all_ws (newline ++ spaces ind) = true.
Proof. unfold newline. norm_append. simpl. apply all_ws_spaces. Qed.

Lemma parse_items_printed ind items :
  Forall reads_back items → items ≠ [] →
  ∀ fuel ws wsc rest,
    list_sum (map (λ x, S (cost x)) items) ≤ fuel →
    all_ws ws = true → all_ws wsc = true →
    parse_items fuel
      (ws ++ join_with ("," ++ newline ++ spaces ind) (map (json_print ind) items)
       ++ wsc ++ "]" ++ rest)
    = Some (items, rest).
Proof.
  intros Hall. induction Hall as [|x items Hx Hall IH]; [done|].
  intros _ fuel ws wsc rest Hfuel Hws Hwsc.
  change (list_sum (map (λ x, S (cost x)) (x :: items)))
    with (S (cost x) + list_sum (map (λ x, S (cost x)) items)) in Hfuel.
  destruct fuel as [|f]; [lia|]. rewrite parse_items_S.
  change (map (json_print ind) (x :: items))
    with (json_print ind x :: map (json_print ind) items).
  destruct items as [|y items].
  - change (map (json_print ind) []) with (@nil string).
    rewrite join_with_singleton.
    rewrite (Hx ind f ws (wsc ++ "]" ++ rest)%string); [|lia|done|].
    2:{ norm_append. by apply stops_digits_ws. }
    rewrite bind_Some. cbv beta iota.
    rewrite skip_ws_all_ws by done. norm_append.
    rewrite skip_ws_cons. reflexivity.
  - rewrite join_with_cons by done. rewrite !append_assoc.
    rewrite (Hx ind f ws); [|lia|done|by norm_append].
    rewrite bind_Some. cbv beta iota. norm_append.
    rewrite skip_ws_cons. change (is_ws ",") with false. cbv iota.
    rewrite expect_hit, <- (append_assoc newline (spaces ind)).
    match goal with
    | |- ?parsed ≫= _ = _ => replace parsed with (Some (y :: items, rest)); [done|]
    end.
    symmetry. apply (IH ltac:(done) f (newline ++ spaces ind)%string wsc rest);
      [lia|apply all_ws_indent|done].
Qed.

Lemma skip_to_key ws k tail :
  all_ws ws = true →
  skip_ws (ws ++ quote k ++ tail) = String "034" (quote_body k ++ dquote ++ tail).
Proof.
  intros Hws. rewrite skip_ws_all_ws by done. unfold quote.
  rewrite !append_assoc. unfold dquote at 1. rewrite append_cons, append_nil_l.
  by rewrite skip_ws_cons.
Qed.

Lemma skip_to_colon tail : skip_ws (": " ++ tail) = String ":" (" " ++ tail).
Proof. reflexivity. Qed.

Lemma parse_fields_printed ind fields :
  Forall (λ kv, reads_back (snd kv)) fields → fields ≠ [] →
  ∀ fuel ws wsc rest,
    list_sum (map (λ kv, S (cost (snd kv))) fields) ≤ fuel →
    all_ws ws = true → all_ws wsc = true →
    parse_fields fuel
      (ws ++ join_with ("," ++ newline ++ spaces ind)
               (map (λ kv, (quote (fst kv) ++ ": " ++ json_print ind (snd kv))%string)
                  fields)
       ++ wsc ++ "}" ++ rest)
    = Some (fields, rest).
Proof.
  intros Hall. induction Hall as [|[k x] fields Hx Hall IH]; [done|].
  intros _ fuel ws wsc rest Hfuel Hws Hwsc.
  change (list_sum (map (λ kv, S (cost (snd kv))) ((k, x) :: fields)))
    with (S (cost x) + list_sum (map (λ kv, S (cost (snd kv))) fields)) in Hfuel.
  destruct fuel as [|f]; [lia|]. rewrite parse_fields_S.
  set (field := λ kv : string * json,
         (quote (fst kv) ++ ": " ++ json_print ind (snd kv))%string).
  change (map field ((k, x) :: fields))
    with ((quote k ++ ": " ++ json_print ind x)%string :: map field fields).
  simpl in Hx.
  destruct fields as [|[k' y] fields].
  - change (map field []) with (@nil string). rewrite join_with_singleton.
    rewrite !append_assoc, skip_to_key by done.
    rewrite expect_hit, bind_Some, parse_quote_body, bind_Some. cbv beta iota.
    rewrite skip_to_colon, expect_hit, bind_Some.
    rewrite (Hx ind f " "%string (wsc ++ "}" ++ rest)%string); [|lia|done|].
    2:{ norm_append. by apply stops_digits_ws. }
    rewrite bind_Some. cbv beta iota.
    rewrite skip_ws_all_ws by done. norm_append.
    rewrite skip_ws_cons. reflexivity.
  - rewrite join_with_cons by done.
    rewrite !append_assoc, skip_to_key by done.
    rewrite expect_hit, bind_Some, parse_quote_body, bind_Some. cbv beta iota.
    rewrite skip_to_colon, expect_hit, bind_Some.
    rewrite (Hx ind f " "%string); [|lia|done|by norm_append].
    rewrite bind_Some. cbv beta iota. norm_append.
    rewrite skip_ws_cons. change (is_ws ",") with false. cbv iota.
    rewrite expect_hit, <- (append_assoc newline (spaces ind)).
    match goal with
    | |- ?parsed ≫= _ = _ => replace parsed with (Some ((k', y) :: fields, rest)); [done|]
    end.
    symmetry. apply (IH ltac:(done) f (newline ++ spaces ind)%string wsc rest);
      [lia|apply all_ws_indent|done].
Qed.

Lemma items_start sep ind x items tail :
  starts_value (join_with sep (map (json_print ind) (x :: items)) ++ tail).
Proof.
  change (map (json_print ind) (x :: items))
    with (json_print ind x :: map (json_print ind) items).
  destruct (map (json_print ind) items) as [|p parts].
  - rewrite join_with_singleton. apply print_starts.
  - rewrite join_with_cons, append_assoc by done. apply print_starts.
Qed.

Lemma fields_start sep (field : string * json → string) k x fields tail :
  (∀ kv, ∃ s, field kv = String "034" s) →
  starts_value (join_with sep (map field ((k, x) :: fields)) ++ tail).
Proof.
  intros Hfield.
  change (map field ((k, x) :: fields)) with (field (k, x) :: map field fields).
  destruct (Hfield (k, x)) as [s ->].
  destruct (map field fields) as [|p parts].
  - rewrite join_with_singleton. by vm_compute.
  - rewrite join_with_cons by done. by vm_compute.
Qed.

Lemma reads_back_all v : reads_back v.
Proof.
  induction v as [|b|n|s|items IH|fields IH] using json_induction;
    intros ind fuel ws rest Hfuel Hws Hrest;
    (destruct fuel as [|f]; [simpl in Hfuel; lia|]);
    rewrite parse_value_S, skip_ws_all_ws, skip_ws_starts
      by (done || apply print_starts).
  - reflexivity.
  - by destruct b.
  - change (json_print ind (JNum n)) with (print_nat n).
    destruct (print_nat_starts n) as (c & s & Hs & Hc).
    destruct (digit_chars c Hc) as (H1 & H2 & H3 & _).
    rewrite Hs, append_cons, !decide_False, Hc by done.
    rewrite <- append_cons, <- Hs, parse_print_nat by done. reflexivity.
  - change (json_print ind (JStr s)) with (quote s). unfold quote.
    rewrite !append_assoc. unfold dquote at 1. rewrite append_cons, append_nil_l.
    rewrite decide_True, parse_quote_body by done. reflexivity.
  - destruct items as [|x items]; [reflexivity|].
    rewrite json_print_arr, !append_assoc, append_cons, append_nil_l.
    rewrite decide_False, decide_True by done.
    rewrite <- (append_assoc newline (spaces (ind + 2))).
    rewrite skip_ws_all_ws by apply all_ws_indent.
    rewrite skip_ws_starts, expect_starts; [|apply items_start|by left|apply items_start].
    rewrite <- (append_assoc newline (spaces ind)).
    rewrite parse_items_printed;
      [done|done|done|simpl in *; lia|apply all_ws_indent..].
  - destruct fields as [|[k x] fields]; [reflexivity|].
    rewrite json_print_obj, !append_assoc, append_cons, append_nil_l.
    rewrite !decide_False, decide_True by done.
    rewrite <- (append_assoc newline (spaces (ind + 2))).
    rewrite skip_ws_all_ws by apply all_ws_indent.
    assert (Hfield : ∀ kv : string * json, ∃ s,
      (quote (fst kv) ++ ": " ++ json_print (ind + 2) (snd kv))%string = String "034" s).
    { intros kv. unfold quote, dquote. rewrite !append_assoc, append_cons. eauto. }
    rewrite skip_ws_starts, expect_starts;
      [|by apply fields_start|by right|by apply fields_start].
    rewrite <- (append_assoc newline (spaces ind)).
    rewrite parse_fields_printed;
      [done|done|done|simpl in *; lia|apply all_ws_indent..].
Qed.

(** As much fuel as the text has characters is enough. *)
Lemma join_with_length {A} sep (print : A → string) (weight : A → nat) (xs : list A) :
  1 ≤ String.length sep →
  Forall (λ x, weight x ≤ String.length (print x)) xs →
  list_sum (map (λ x, S (weight x)) xs) ≤ S (String.length (join_with sep (map print xs))).
Proof.
  intros Hsep Hall. induction Hall as [|x xs Hx Hall IH]; [simpl; lia|].
  change (map print (x :: xs)) with (print x :: map print xs).
  change (list_sum (map (λ x, S (weight x)) (x :: xs)))
    with (S (weight x) + list_sum (map (λ x, S (weight x)) xs)).
  destruct xs as [|y xs].
  - change (map print []) with (@nil string). rewrite join_with_singleton. simpl. lia.
  - rewrite join_with_cons, !append_length by done. lia.
Qed.

Lemma cost_le_length v ind : cost v ≤ String.length (json_print ind v).
Proof.
  revert ind. induction v as [|b|n|s|items IH|fields IH] using json_induction;
    intros ind.
  - vm_compute. lia.
  - destruct b; vm_compute; lia.
  - change (json_print ind (JNum n)) with (print_nat n).
    destruct (print_nat_starts n) as (c & s & -> & _). simpl. lia.
  - change (json_print ind (JStr s)) with (quote s). unfold quote, dquote.
    rewrite append_cons. simpl. lia.
  - destruct items as [|x items]; [vm_compute; lia|].
    rewrite json_print_arr, !append_length.
    pose proof (join_with_length ("," ++ newline ++ spaces (ind + 2))
      (json_print (ind + 2)) cost (x :: items)) as Hlen.
    change (cost (JArr (x :: items)))
      with (S (list_sum (map (λ x, S (cost x)) (x :: items)))).
    change (String.length "[") with 1. change (String.length newline) with 1.
    cut (list_sum (map (λ x, S (cost x)) (x :: items))
         ≤ S (String.length (join_with ("," ++ newline ++ spaces (ind + 2))
                (map (json_print (ind + 2)) (x :: items))))); [lia|].
    apply Hlen; [rewrite append_cons; simpl; lia|].
    eapply Forall_impl; [exact IH|]. intros v Hv. apply Hv.
  - destruct fields as [|kv fields]; [vm_compute; lia|].
    rewrite json_print_obj, !append_length.
    pose proof (join_with_length ("," ++ newline ++ spaces (ind + 2))
      (λ kv : string * json, (quote (fst kv) ++ ": " ++ json_print (ind + 2) (snd kv))%string)
      (λ kv, cost (snd kv)) (kv :: fields)) as Hlen.
    change (cost (JObj (kv :: fields)))
      with (S (list_sum (map (λ kv, S (cost (snd kv))) (kv :: fields)))).
    change (String.length "{") with 1. change (String.length newline) with 1.
    cut (list_sum (map (λ kv, S (cost (snd kv))) (kv :: fields))
         ≤ S (String.length (join_with ("," ++ newline ++ spaces (ind + 2))
                (map (λ kv : string * json,
                        (quote (fst kv) ++ ": " ++ json_print (ind + 2) (snd kv))%string)
                     (kv :: fields))))); [lia|].
    apply Hlen; [rewrite append_cons; simpl; lia|].
    eapply Forall_impl; [exact IH|]. intros [k v] Hv. simpl in *.
    rewrite !append_length. specialize (Hv (ind + 2)). lia.
Qed.

(** What [JSON.stringify] writes, [JSON.parse] reads back. *)
Lemma json_round_trip v : json_parse (json_print 0 v) = Some v.
Proof.
  unfold json_parse.
  pose proof (reads_back_all v 0 (S (String.length (json_print 0 v)))
                EmptyString EmptyString) as Hread.
  rewrite append_nil_l in Hread.
  assert (Hnil : ∀ s : string, (s ++ EmptyString)%string = s).
  { induction s as [|c s IHs]; [done|]. by rewrite append_cons, IHs. }
  rewrite Hnil in Hread. rewrite Hread; [done| |done|done].
  pose proof (cost_le_length v 0). lia.
Qed.

Lemma status_name_inj st1 st2 : status_name st1 = status_name st2 → st1 = st2.
Proof. by destruct st1, st2. Qed.

Lemma task_to_json_fields t :
  json_get "filename" (task_to_json t) = Some (JStr (filename t))
  ∧ json_get "status" (task_to_json t) = Some (JStr (status_name (status t)))
  ∧ json_get "attempts" (task_to_json t) = Some (JNum (attempts t)).
Proof. done. Qed.

(** C8.  [loadProgress] after [saveProgress] returns an array with one object
    per task, in the order of the tasks, whose [filename], [status] and
    [attempts] are those of the task. *)
Theorem snapshot_round_trip ts d :
  ∃ items, loadProgress (saveProgress ts d) = JArr items
    ∧ length items = length ts
    ∧ ∀ i t, ts !! i = Some t →
        ∃ v, items !! i = Some v
          ∧ json_get "filename" v = Some (JStr (filename t))
          ∧ json_get "status" v = Some (JStr (status_name (status t)))
          ∧ json_get "attempts" v = Some (JNum (attempts t)).
Proof.
  exists (task_to_json <$> ts). split_and!.
  - unfold loadProgress, saveProgress. by rewrite json_round_trip.
  - by rewrite length_fmap.
  - intros i t Ht. exists (task_to_json t). split; [|apply task_to_json_fields].
    by rewrite list_lookup_fmap, Ht.
Qed.

(** ** The theorems at concrete runs *)

(** One missing file whose transfer has failed twice: the third failure makes
    the task [Failed], with three attempts. *)
Lemma retry_policy_witness :
  Forall initial_task (reconcile one_file ∅)
  ∧ run two_failures (start (Downloader_new (reconcile one_file ∅)))
    = Some (outcome two_failures (reconcile one_file ∅))
  ∧ tasks (outcome two_failures (reconcile one_file ∅)) !! 0
    = Some (task_at (outcome two_failures (reconcile one_file ∅)) 0)
  ∧ attempts (task_at (outcome two_failures (reconcile one_file ∅)) 0) = 2
  ∧ (attempts (task_at (outcome two_failures (reconcile one_file ∅)) 0) ≤ MAX_RETRIES
     ∧ attempts (task_at (outcome two_failures (reconcile one_file ∅)) 0)
       = failures 0 two_failures (start (Downloader_new (reconcile one_file ∅)))
     ∧ (status (task_at (outcome two_failures (reconcile one_file ∅)) 0) = Failed →
        failures 0 two_failures (start (Downloader_new (reconcile one_file ∅)))
        = MAX_RETRIES)
     ∧ ∀ p ph,
         promises (outcome two_failures (reconcile one_file ∅)) !! p
         = Some (DlWorker 0 ph) → ph ≠ DlSaving →
         ∃ s' t', step (TransferError p) (outcome two_failures (reconcile one_file ∅))
                  = Some s'
           ∧ tasks s' !! 0 = Some t'
           ∧ attempts t' = S (attempts (task_at (outcome two_failures (reconcile one_file ∅)) 0))
           ∧ attempts t' ≤ MAX_RETRIES
           ∧ if decide (attempts t' < MAX_RETRIES)
             then downloadQueue s'
                  = downloadQueue (outcome two_failures (reconcile one_file ∅)) ++ [0]
                  ∧ status t' = Downloading
             else downloadQueue s'
                  = downloadQueue (outcome two_failures (reconcile one_file ∅))
                  ∧ status t' = Failed).
Proof.
  assert (H1 : Forall initial_task (reconcile one_file ∅)) by apply reconcile_initial.
  assert (H2 : run two_failures (start (Downloader_new (reconcile one_file ∅)))
               = Some (outcome two_failures (reconcile one_file ∅)))
    by (vm_compute; reflexivity).
  assert (H3 : tasks (outcome two_failures (reconcile one_file ∅)) !! 0
               = Some (task_at (outcome two_failures (reconcile one_file ∅)) 0))
    by (vm_compute; reflexivity).
  split; [exact H1|]. split; [exact H2|]. split; [exact H3|].
  split; [vm_compute; reflexivity|].
  exact (retry_policy _ _ _ _ _ H1 H2 H3).
Defined.

(** One local file whose hash is not the expected one. *)
Lemma verification_failure_requeues_witness :
  promises (outcome [HashResult 0 (Some hash_a)]
              (reconcile one_file (list_to_set one_file))) !! 0
  = Some (VfWorker 0 (FetchingMd5 (Some hash_a)))
  ∧ (Some hash_a = None ∨ Some hash_b = None ∨ Some hash_a ≠ Some hash_b)
  ∧ ∃ s' t',
      step (Md5Result 0 (Some hash_b))
        (outcome [HashResult 0 (Some hash_a)] (reconcile one_file (list_to_set one_file)))
      = Some s'
      ∧ tasks s' !! 0 = Some t'
      ∧ status t' = Pending
      ∧ attempts t'
        = attempts (task_at (outcome [HashResult 0 (Some hash_a)]
                               (reconcile one_file (list_to_set one_file))) 0)
      ∧ downloadQueue s'
        = 0 :: downloadQueue (outcome [HashResult 0 (Some hash_a)]
                                (reconcile one_file (list_to_set one_file))).
Proof.
  assert (H1 : promises (outcome [HashResult 0 (Some hash_a)]
                 (reconcile one_file (list_to_set one_file))) !! 0
               = Some (VfWorker 0 (FetchingMd5 (Some hash_a))))
    by (vm_compute; reflexivity).
  assert (H2 : tasks (outcome [HashResult 0 (Some hash_a)]
                 (reconcile one_file (list_to_set one_file))) !! 0
               = Some (task_at (outcome [HashResult 0 (Some hash_a)]
                                  (reconcile one_file (list_to_set one_file))) 0))
    by (vm_compute; reflexivity).
  assert (H3 : Some hash_a = None ∨ Some hash_b = None ∨ Some hash_a ≠ Some hash_b)
    by (right; right; vm_compute; discriminate).
  split; [exact H1|]. split; [exact H3|].
  exact (verification_failure_requeues _ _ _ _ _ _ H1 H2 H3).
Defined.

(** One missing file whose first transfer fails. *)
Lemma requeued_status_witness :
  Forall initial_task (reconcile one_file ∅)
  ∧ reachable (reconcile one_file ∅) (start (Downloader_new (reconcile one_file ∅)))
  ∧ step (TransferError 0) (start (Downloader_new (reconcile one_file ∅)))
    = Some (outcome [TransferError 0] (reconcile one_file ∅))
  ∧ 0 ∈ downloadQueue (outcome [TransferError 0] (reconcile one_file ∅))
  ∧ (0 ∉ downloadQueue (start (Downloader_new (reconcile one_file ∅))))
  ∧ status (task_at (outcome [TransferError 0] (reconcile one_file ∅)) 0) = Downloading
  ∧ status (task_at (outcome [TransferError 0] (reconcile one_file ∅)) 0) ≠ Pending
  ∧ downloadQueue (outcome [TransferError 0] (reconcile one_file ∅))
    = (downloadQueue (start (Downloader_new (reconcile one_file ∅))) ++ [0])
  ∧ attempts (task_at (outcome [TransferError 0] (reconcile one_file ∅)) 0) < MAX_RETRIES.
Proof.
  assert (H1 : Forall initial_task (reconcile one_file ∅)) by apply reconcile_initial.
  assert (H2 : reachable (reconcile one_file ∅)
                 (start (Downloader_new (reconcile one_file ∅))))
    by (exists []; reflexivity).
  assert (H3 : step (TransferError 0) (start (Downloader_new (reconcile one_file ∅)))
               = Some (outcome [TransferError 0] (reconcile one_file ∅)))
    by (vm_compute; reflexivity).
  assert (H4 : 0 ∈ downloadQueue (outcome [TransferError 0] (reconcile one_file ∅)))
    by (replace (downloadQueue (outcome [TransferError 0] (reconcile one_file ∅)))
          with [0] by (vm_compute; reflexivity); apply list_elem_of_here).
  assert (H5 : 0 ∉ downloadQueue (start (Downloader_new (reconcile one_file ∅))))
    by (replace (downloadQueue (start (Downloader_new (reconcile one_file ∅))))
          with (@nil nat) by (vm_compute; reflexivity); apply not_elem_of_nil).
  assert (H6 : tasks (outcome [TransferError 0] (reconcile one_file ∅)) !! 0
               = Some (task_at (outcome [TransferError 0] (reconcile one_file ∅)) 0))
    by (vm_compute; reflexivity).
  split; [exact H1|]. split; [exact H2|]. split; [exact H3|].
  split; [exact H4|]. split; [exact H5|].
  exact (requeued_status _ _ _ _ _ _ H1 H2 H3 H4 H5 H6).
Defined.

(** One local file, when its verification starts. *)
Lemma verification_status_witness :
  Forall initial_task (reconcile one_file (list_to_set one_file))
  ∧ reachable (reconcile one_file (list_to_set one_file))
      (start (Downloader_new (reconcile one_file (list_to_set one_file))))
  ∧ promises (start (Downloader_new (reconcile one_file (list_to_set one_file)))) !! 0
    = Some (VfWorker 0 Hashing)
  ∧ status (task_at (start (Downloader_new (reconcile one_file (list_to_set one_file)))) 0)
    = Downloading
  ∧ ∃ b, progress (task_at (start (Downloader_new
                      (reconcile one_file (list_to_set one_file)))) 0)
         = Some (mkProgress b 100).
Proof.
  assert (H1 : Forall initial_task (reconcile one_file (list_to_set one_file)))
    by apply reconcile_initial.
  assert (H2 : reachable (reconcile one_file (list_to_set one_file))
                 (start (Downloader_new (reconcile one_file (list_to_set one_file)))))
    by (exists []; reflexivity).
  assert (H3 : promises (start (Downloader_new
                 (reconcile one_file (list_to_set one_file)))) !! 0
               = Some (VfWorker 0 Hashing)) by (vm_compute; reflexivity).
  assert (H4 : tasks (start (Downloader_new
                 (reconcile one_file (list_to_set one_file)))) !! 0
               = Some (task_at (start (Downloader_new
                   (reconcile one_file (list_to_set one_file)))) 0))
    by (vm_compute; reflexivity).
  assert (H5 : Hashing ≠ VfSaving) by discriminate.
  split; [exact H1|]. split; [exact H2|]. split; [exact H3|].
  exact (proj2 (proj2 (verification_status _ _ H1 H2)) 0 0 Hashing _ H3 H5 H4).
Defined.

(** One missing file, while its body is streamed. *)
Lemma progress_lifetime_witness :
  Forall initial_task (reconcile one_file ∅)
  ∧ reachable (reconcile one_file ∅)
      (outcome [Response 0 2048; Chunk 0 1024] (reconcile one_file ∅))
  ∧ promises (outcome [Response 0 2048; Chunk 0 1024] (reconcile one_file ∅)) !! 0
    = Some (DlWorker 0 Streaming)
  ∧ ∃ s' t',
      step (EndOfStream 0) (outcome [Response 0 2048; Chunk 0 1024] (reconcile one_file ∅))
      = Some s'
      ∧ tasks s' !! 0 = Some t'
      ∧ status t' = Downloaded
      ∧ progress t'
        = progress (task_at (outcome [Response 0 2048; Chunk 0 1024]
                               (reconcile one_file ∅)) 0).
Proof.
  assert (H1 : Forall initial_task (reconcile one_file ∅)) by apply reconcile_initial.
  assert (H2 : reachable (reconcile one_file ∅)
                 (outcome [Response 0 2048; Chunk 0 1024] (reconcile one_file ∅)))
    by (exists [Response 0 2048; Chunk 0 1024]; vm_compute; reflexivity).
  assert (H3 : promises (outcome [Response 0 2048; Chunk 0 1024]
                 (reconcile one_file ∅)) !! 0 = Some (DlWorker 0 Streaming))
    by (vm_compute; reflexivity).
  assert (H4 : tasks (outcome [Response 0 2048; Chunk 0 1024]
                 (reconcile one_file ∅)) !! 0
               = Some (task_at (outcome [Response 0 2048; Chunk 0 1024]
                                  (reconcile one_file ∅)) 0))
    by (vm_compute; reflexivity).
  split; [exact H1|]. split; [exact H2|]. split; [exact H3|].
  exact (proj2 (proj2 (progress_lifetime _ _ H1 H2)) 0 0 _ H3 H4).
Defined.

(** A listing of two files, the first of which is present locally. *)
Lemma reconciliation_witness :
  baseline_name "0002" ∈ [baseline_name "0001"; baseline_name "0002"]
  ∧ (baseline_name "0002" ∉ ({[baseline_name "0001"]} : gset string))
  ∧ ∃ t, t ∈ reconcile [baseline_name "0001"; baseline_name "0002"]
               {[baseline_name "0001"]}
         ∧ filename t = baseline_name "0002" ∧ status t = Pending.
Proof.
  assert (H1 : baseline_name "0002" ∈ [baseline_name "0001"; baseline_name "0002"])
    by (right; left).
  assert (H2 : baseline_name "0002" ∉ ({[baseline_name "0001"]} : gset string))
    by (intros H%elem_of_singleton; vm_compute in H; discriminate).
  split; [exact H1|]. split; [exact H2|].
  exact (proj1 (reconciliation _ _) _ H1 H2).
Defined.

(** A listing with two files and their checksum files. *)
Lemma listing_names_witness :
  getRemoteFileList small_listing = [baseline_name "0001"; baseline_name "0002"]
  ∧ baseline_name "0001" ∈ getRemoteFileList small_listing
  ∧ baseline_file (baseline_name "0001")
  ∧ ∀ pre, baseline_name "0001" ≠ (pre ++ ".md5")%string.
Proof.
  assert (H1 : getRemoteFileList small_listing
               = [baseline_name "0001"; baseline_name "0002"])
    by (vm_compute; reflexivity).
  assert (H2 : baseline_name "0001" ∈ getRemoteFileList small_listing)
    by (rewrite H1; left).
  split; [exact H1|]. split; [exact H2|].
  exact (proj1 (proj2 (listing_names small_listing)) _ H2).
Defined.

(** The snapshot of a run in which one file has been transferred. *)
Lemma snapshot_round_trip_witness :
  tasks (outcome one_transfer (reconcile one_file ∅)) !! 0
  = Some (task_at (outcome one_transfer (reconcile one_file ∅)) 0)
  ∧ ∃ items,
      loadProgress (saveProgress (tasks (outcome one_transfer (reconcile one_file ∅))) None)
      = JArr items
      ∧ length items = length (tasks (outcome one_transfer (reconcile one_file ∅)))
      ∧ ∀ i t, tasks (outcome one_transfer (reconcile one_file ∅)) !! i = Some t →
          ∃ v, items !! i = Some v
            ∧ json_get "filename" v = Some (JStr (filename t))
            ∧ json_get "status" v = Some (JStr (status_name (status t)))
            ∧ json_get "attempts" v = Some (JNum (attempts t)).
Proof.
  split; [vm_compute; reflexivity|].
  exact (snapshot_round_trip _ None).
Defined.

(** * Further properties of the code *)

(** ** The local files and the task list of [main] *)

Lemma endsWith_spec suffix s :
  endsWith suffix s = true ↔ ∃ pre, s = (pre ++ suffix)%string.
Proof.
  induction s as [|c s IH]; simpl.
  - case_decide as Heq.
    + split; [|done]. intros _. exists EmptyString. by rewrite append_nil_l.
    + split; [done|]. intros [pre Hpre]. destruct pre; [|done].
      by rewrite append_nil_l in Hpre.
  - case_decide as Heq.
    + split; [|done]. intros _. exists EmptyString. by rewrite append_nil_l.
    + rewrite IH. split.
      * intros [pre ->]. exists (String c pre). by rewrite append_cons.
      * intros [[|c' pre] Hpre].
        -- by rewrite append_nil_l in Hpre.
        -- rewrite append_cons in Hpre. injection Hpre as -> ->. by exists pre.
Qed.

Lemma baseline_file_endsWith name :
  baseline_file name → endsWith ".xml.gz" name = true.
Proof.
  intros (d1 & d2 & _ & _ & _ & _ & ->). apply endsWith_spec.
  exists ("pubmed" ++ d1 ++ "n" ++ d2)%string. by rewrite !append_assoc.
Qed.

(** X1.  [getLocalFiles] returns the names of the directory that end in
    [.xml.gz], and nothing when the directory cannot be read. *)
Theorem local_files_spec readdir f :
  f ∈ getLocalFiles readdir ↔
  ∃ files pre, readdir = Some files ∧ f ∈ files ∧ f = (pre ++ ".xml.gz")%string.
Proof.
  destruct readdir as [files|]; simpl.
  - rewrite elem_of_list_to_set, list_elem_of_filter, endsWith_spec. split.
    + intros [[pre ->] Hin]. by exists files, pre.
    + intros (files' & pre & [= <-] & Hin & ->). split; [by exists pre|done].
  - split; [set_solver|]. by intros (? & ? & ? & _).
Qed.

(** X2.  The suffix filter of [getLocalFiles] hides no file of the listing:
    a task of [main] is created [Downloaded] when the directory holds a file
    of its name and [Pending] otherwise; when the directory cannot be read
    every task is [Pending]. *)
Theorem main_tasks_status listing readdir t :
  t ∈ main_tasks listing readdir →
  filename t ∈ getRemoteFileList listing
  ∧ status t = match readdir with
               | Some files =>
                   if decide (filename t ∈ files) then Downloaded else Pending
               | None => Pending
               end.
Proof.
  intros Ht. apply elem_of_reconcile in Ht as (f & Hf & ->). simpl.
  split; [done|].
  assert (Hname : baseline_file f).
  { pose proof (getRemoteFileList_names listing) as Hall.
    rewrite Forall_forall in Hall. by apply Hall. }
  destruct readdir as [files|].
  - destruct (decide (f ∈ files)) as [Hin|Hnin].
    + rewrite decide_True; [done|]. apply elem_of_list_to_set, list_elem_of_filter.
      split; [by apply baseline_file_endsWith|done].
    + rewrite decide_False; [done|]. intros Hin. apply Hnin.
      by apply elem_of_list_to_set, list_elem_of_filter in Hin as [_ ?].
  - rewrite decide_False; [done|]. simpl. set_solver.
Qed.

(** ** The queues of a new [Downloader] *)

Lemma filter_refs_same (P Q : nat → Prop) `{∀ i, Decision (P i)} `{∀ i, Decision (Q i)}
    (l : list nat) :
  (∀ i, i ∈ l → P i ↔ Q i) → filter P l = filter Q l.
Proof.
  induction l as [|i l IH]; intros Hl; [done|].
  rewrite !filter_cons. rewrite IH by (intros j Hj; apply Hl; by right).
  destruct (Hl i (list_elem_of_here _ _)) as [H1 H2].
  destruct (decide (P i)), (decide (Q i)); tauto.
Qed.

(** The indices [refs_with] keeps stand for the tasks [tasks.filter] keeps. *)
Lemma refs_with_tasks st ts :
  (λ i, ts !!! i) <$> refs_with st ts = filter (λ t, status t = st) ts.
Proof.
  unfold refs_with. induction ts as [|t ts IH] using rev_ind; [done|].
  rewrite length_app. simpl length. rewrite Nat.add_1_r, seq_S, !filter_app, fmap_app.
  simpl "+". f_equal.
  - rewrite <- IH.
    rewrite (filter_refs_same (λ i, status ((ts ++ [t]) !!! i) = st)
               (λ i, status (ts !!! i) = st)).
    + apply list_fmap_ext. intros k i Hk.
      apply list_elem_of_lookup_2, list_elem_of_filter in Hk as [_ Hi].
      apply elem_of_seq in Hi. apply lookup_total_app_l. lia.
    + intros i Hi. apply elem_of_seq in Hi. rewrite lookup_total_app_l by lia. done.
  - rewrite !filter_cons, !filter_nil.
    assert (Hlast : (ts ++ [t]) !!! length ts = t).
    { rewrite lookup_total_app_r by lia. by rewrite Nat.sub_diag. }
    destruct (decide (status t = st)) as [Hst|Hst].
    + rewrite decide_True by (by rewrite Hlast). simpl. by rewrite Hlast.
    + by rewrite decide_False by (by rewrite Hlast).
Qed.

Lemma filter_status_created st st' (fs : list string) :
  filter (λ t, status t = st) ((λ f, createTask f st') <$> fs)
  = if decide (st' = st) then (λ f, createTask f st') <$> fs else [].
Proof.
  induction fs as [|f fs IH]; [by case_decide|].
  rewrite fmap_cons, filter_cons, IH. simpl. by repeat case_decide.
Qed.

(** X3.  A new [Downloader] on the tasks of [main] has the missing files in
    its download queue and the files of the directory in its verify queue,
    both in the order of the listing. *)
Theorem initial_queues remoteFiles localFiles :
  (λ i, filename (task_at (Downloader_new (reconcile remoteFiles localFiles)) i))
    <$> downloadQueue (Downloader_new (reconcile remoteFiles localFiles))
  = filter (λ f, f ∉ localFiles) remoteFiles
  ∧ (λ i, filename (task_at (Downloader_new (reconcile remoteFiles localFiles)) i))
      <$> verifyQueue (Downloader_new (reconcile remoteFiles localFiles))
    = filter (λ f, f ∈ localFiles) remoteFiles.
Proof.
  unfold task_at. simpl.
  assert (Hmap : ∀ st, (λ i, filename (reconcile remoteFiles localFiles !!! i))
                         <$> refs_with st (reconcile remoteFiles localFiles)
                       = filename <$> filter (λ t, status t = st)
                                        (reconcile remoteFiles localFiles)).
  { intros st. rewrite <- refs_with_tasks, <- list_fmap_compose. done. }
  rewrite !Hmap. unfold reconcile.
  rewrite !filter_app, !filter_status_created. simpl.
  rewrite !app_nil_r, <- !list_fmap_compose.
  split; (etrans; [|apply list_fmap_id]); by apply list_fmap_ext.
Qed.

(** ** The expected hash *)

Lemma span_name_sound s name r :
  span_name s = (name, r) → s = (name ++ r)%string ∧ lacks ")" name = true.
Proof.
  revert name r. induction s as [|c s IH]; intros name r; simpl.
  - by intros [= <- <-].
  - case_decide as Hc.
    + by intros [= <- <-].
    + destruct (span_name s) as [name' r'] eqn:Hs. intros [= <- <-].
      destruct (IH name' r' eq_refl) as [-> Hl]. rewrite append_cons. split; [done|].
      simpl. rewrite Hl. by rewrite bool_decide_eq_false_2.
Qed.

Lemma span_name_complete name r :
  lacks ")" name = true → span_name (name ++ String ")" r) = (name, String ")" r).
Proof.
  induction name as [|c name IH]; intros Hl.
  - by rewrite append_nil_l.
  - rewrite append_cons. simpl in *. apply andb_true_iff in Hl as [Hc Hl].
    apply negb_true_iff, bool_decide_eq_false in Hc.
    case_decide; [done|]. by rewrite IH.
Qed.

Lemma take_hex_sound n s h :
  take_hex n s = Some h →
  ∃ post, s = (h ++ post)%string ∧ String.length h = n ∧ all_hex h = true.
Proof.
  revert s h. induction n as [|n IH]; intros s h; simpl.
  - intros [= <-]. exists s. by rewrite append_nil_l.
  - destruct s as [|c s]; [done|]. destruct (is_hex c) eqn:Hc; [|done].
    destruct (take_hex n s) as [h'|] eqn:Hh; [|done]. intros [= <-].
    destruct (IH s h' Hh) as (post & -> & Hlen & Hall). exists post.
    rewrite append_cons. simpl. by rewrite Hlen, Hc, Hall.
Qed.

Lemma take_hex_complete h post :
  all_hex h = true → take_hex (String.length h) (h ++ post) = Some h.
Proof.
  induction h as [|c h IH]; intros Hall; [done|].
  rewrite append_cons. simpl in *. apply andb_true_iff in Hall as [Hc Hall].
  by rewrite Hc, IH.
Qed.

#[local] Arguments take_hex : simpl never.
#[local] Arguments span_name : simpl never.
#[local] Arguments search_md5 : simpl never.

Lemma match_md5_sound s h :
  match_md5 s = Some h →
  ∃ name post, s = ("MD5(" ++ name ++ ")= " ++ h ++ post)%string
    ∧ name ≠ EmptyString ∧ lacks ")" name = true
    ∧ String.length h = 32 ∧ all_hex h = true.
Proof.
  unfold match_md5. intros Hm.
  destruct (strip_prefix "MD5(" s) as [r1|] eqn:H1; [|done]. simpl in Hm.
  destruct (span_name r1) as [name r2] eqn:H2.
  case_decide as Hname; [done|].
  destruct (strip_prefix ")= " r2) as [r3|] eqn:H3; [|done]. simpl in Hm.
  apply strip_prefix_sound in H1 as ->. apply strip_prefix_sound in H3 as ->.
  apply span_name_sound in H2 as [-> Hl].
  apply take_hex_sound in Hm as (post & -> & Hlen & Hall).
  by exists name, post.
Qed.

Lemma match_md5_complete name h post :
  name ≠ EmptyString → lacks ")" name = true →
  String.length h = 32 → all_hex h = true →
  match_md5 ("MD5(" ++ name ++ ")= " ++ h ++ post) = Some h.
Proof.
  intros Hname Hl Hlen Hall. unfold match_md5.
  rewrite strip_prefix_complete. simpl.
  change (")= " ++ h ++ post)%string with (String ")" ("= " ++ h ++ post)%string).
  rewrite span_name_complete by done. rewrite decide_False by done.
  change (String ")" ("= " ++ h ++ post)%string) with (")= " ++ h ++ post)%string.
  rewrite strip_prefix_complete. simpl. rewrite <- Hlen. by apply take_hex_complete.
Qed.

Lemma search_md5_sound body h :
  search_md5 body = Some h →
  ∃ pre name post, body = (pre ++ "MD5(" ++ name ++ ")= " ++ h ++ post)%string
    ∧ name ≠ EmptyString ∧ lacks ")" name = true
    ∧ String.length h = 32 ∧ all_hex h = true.
Proof.
  induction body as [|c body IH]; [done|].
  change (search_md5 (String c body))
    with (match match_md5 (String c body) with
          | Some h => Some h
          | None => search_md5 body
          end).
  destruct (match_md5 (String c body)) as [h'|] eqn:Hm.
  - intros [= ->]. apply match_md5_sound in Hm as (name & post & Heq & ?).
    exists EmptyString, name, post. by rewrite append_nil_l.
  - intros Hs. destruct (IH Hs) as (pre & name & post & -> & ?).
    exists (String c pre), name, post. by rewrite append_cons.
Qed.

Lemma search_md5_head body h : match_md5 body = Some h → search_md5 body = Some h.
Proof.
  intros Hm. destruct body as [|c body]; [done|].
  change (search_md5 (String c body))
    with (match match_md5 (String c body) with
          | Some h => Some h
          | None => search_md5 body
          end).
  by rewrite Hm.
Qed.

(** X4.  What [getMd5] returns was read from an answer that is [ok], behind
    [MD5(name)= ] for a non-empty [name]; it is made of 32 characters that
    are digits or letters from a to f, so that it is never an empty string. *)
Theorem getMd5_sound response h :
  getMd5 response = Some h →
  ∃ r pre name post,
    response = Some r ∧ ok r = true
    ∧ text r = (pre ++ "MD5(" ++ name ++ ")= " ++ h ++ post)%string
    ∧ name ≠ EmptyString ∧ lacks ")" name = true
    ∧ String.length h = 32 ∧ all_hex h = true
    ∧ falsy (Some h) = false.
Proof.
  destruct response as [[o body]|]; simpl; [|done]. destruct o; [|done].
  intros Hs. destruct (search_md5_sound body h Hs) as (pre & name & post & -> & Hn & Hl & Hlen & Hall).
  exists (mkResponse true (pre ++ "MD5(" ++ name ++ ")= " ++ h ++ post)), pre, name, post.
  split_and!; try done.
  apply bool_decide_eq_false. intros ->. done.
Qed.

(** X5.  On a checksum file of the form the server writes, [MD5(name)= hash]
    followed by anything, [getMd5] returns the hash. *)
Theorem getMd5_reads_hash name h post :
  name ≠ EmptyString → lacks ")" name = true →
  String.length h = 32 → all_hex h = true →
  getMd5 (Some (mkResponse true ("MD5(" ++ name ++ ")= " ++ h ++ post))) = Some h.
Proof.
  intros Hname Hl Hlen Hall. cbv [getMd5 ok text].
  by apply search_md5_head, match_md5_complete.
Qed.

(** ** Every entry of the listing is found *)

Lemma lacks_app c (a b : string) : lacks c (a ++ b) = lacks c a && lacks c b.
Proof.
  induction a as [|x a IH]; norm_append; [done|].
  simpl. by rewrite IH, andb_assoc.
Qed.

Lemma all_digits_lacks_h d : all_digits d = true → lacks "h" d = true.
Proof.
  induction d as [|c d IH]; [done|]. simpl.
  intros [Hc Hd]%andb_true_iff. rewrite IH, andb_true_r by done.
  apply negb_true_iff, bool_decide_eq_false. by intros ->.
Qed.

Lemma baseline_file_lacks_h name : baseline_file name → lacks "h" name = true.
Proof.
  intros (d1 & d2 & _ & _ & Ha1 & Ha2 & ->).
  rewrite !lacks_app, (all_digits_lacks_h d1 Ha1), (all_digits_lacks_h d2 Ha2).
  reflexivity.
Qed.

Lemma append_eq_append (a b c d : string) :
  (a ++ b = c ++ d)%string →
  (∃ k, c = (a ++ k)%string ∧ b = (k ++ d)%string)
  ∨ (∃ k, a = (c ++ k)%string ∧ d = (k ++ b)%string).
Proof.
  revert c. induction a as [|x a IH]; intros c; norm_append.
  - intros ->. left. exists c. by rewrite append_nil_l.
  - destruct c as [|y c]; norm_append.
    + intros <-. right. exists (String x a). by rewrite append_nil_l.
    + intros [= -> Heq].
      destruct (IH c Heq) as [(k & -> & ->)|(k & -> & ->)]; [left|right];
        exists k; by rewrite append_cons.
Qed.

(** The text a match covers: the attribute, the name, the suffix of a
    checksum file or nothing, and the closing quote.  Its first character is
    its only h. *)
Lemma match_href_shape s name r :
  match_href s = Some (name, r) →
  ∃ inner, s = String "h" (inner ++ r) ∧ lacks "h" inner = true.
Proof.
  unfold match_href. intros H.
  destruct (strip_prefix _ s) as [r0|] eqn:H0; [|done]. simpl in H.
  destruct (match_file r0) as [[n r1]|] eqn:H1; [|done]. simpl in H.
  apply strip_prefix_sound in H0. apply match_file_sound in H1 as [Hn ->]. subst s.
  apply baseline_file_lacks_h in Hn.
  destruct (strip_prefix ".md5" r1 ≫= strip_prefix dquote) as [r2|] eqn:H2.
  - simplify_eq. destruct (strip_prefix ".md5" r1) as [r3|] eqn:H3; [|done].
    simpl in H2. apply strip_prefix_sound in H2, H3. subst.
    exists ("ref=" ++ dquote ++ name ++ ".md5" ++ dquote)%string.
    split; [|by rewrite !lacks_app, Hn].
    rewrite !append_assoc. by norm_append.
  - destruct (strip_prefix dquote r1) as [r2|] eqn:H3; [|done]. simpl in H.
    simplify_eq. apply strip_prefix_sound in H3. subst.
    exists ("ref=" ++ dquote ++ name ++ dquote)%string.
    split; [|by rewrite !lacks_app, Hn].
    rewrite !append_assoc. by norm_append.
Qed.

(** A match that starts before an entry ends before it. *)
Lemma match_href_before pre tl name rest :
  match_href (pre ++ String "h" tl) = Some (name, rest) →
  pre = EmptyString
  ∨ ∃ pre', rest = (pre' ++ String "h" tl)%string
            ∧ String.length pre' < String.length pre.
Proof.
  intros Hm. destruct pre as [|y pre]; [by left|]. right.
  apply match_href_shape in Hm as (inner & Heq & Hl).
  rewrite append_cons in Heq. injection Heq as -> Heq. symmetry in Heq.
  apply append_eq_append in Heq as [(k & -> & ->)|(k & -> & Hk)].
  - exists k. split; [done|]. simpl. rewrite append_length. lia.
  - destruct k as [|x k].
    + rewrite append_nil_l in Hk. exists EmptyString.
      rewrite append_nil_l. split; [done|]. simpl. lia.
    + rewrite append_cons in Hk. injection Hk as <- _.
      rewrite lacks_app in Hl. simpl in Hl. by rewrite andb_false_r in Hl.
Qed.

Lemma set_add_elem name found : name ∈ set_add name found.
Proof.
  unfold set_add. case_decide; [done|]. apply elem_of_app. right. by left.
Qed.

Lemma scan_keeps name fuel body found :
  name ∈ found → name ∈ scan fuel body found.
Proof.
  apply (scan_invariant (λ l, name ∈ l)). intros l n Hl _.
  unfold set_add. case_decide; [done|]. apply elem_of_app. by left.
Qed.

Lemma scan_reaches fuel pre tl name post found :
  match_href (String "h" tl) = Some (name, post) →
  String.length (pre ++ String "h" tl) ≤ fuel →
  name ∈ scan fuel (pre ++ String "h" tl) found.
Proof.
  intros Hhere. revert pre found.
  induction fuel as [|fuel IH]; intros pre found Hlen.
  - rewrite append_length in Hlen. simpl in Hlen. lia.
  - remember (pre ++ String "h" tl)%string as body eqn:Hbody. simpl.
    destruct (match_href body) as [[n' rest]|] eqn:Hm; subst body.
    + destruct (match_href_before _ _ _ _ Hm) as [->|(pre' & -> & Hlt)].
      * rewrite append_nil_l in Hm. rewrite Hhere in Hm. injection Hm as <- <-.
        apply scan_keeps, set_add_elem.
      * apply IH. rewrite append_length in *. lia.
    + destruct pre as [|c pre].
      * rewrite append_nil_l in Hm. congruence.
      * rewrite append_cons. apply IH. rewrite append_cons in Hlen. simpl in Hlen. lia.
Qed.

(** X6.  Wherever the listing links a file of the baseline, or the checksum
    file of one, [getRemoteFileList] returns the name of the file, and
    [main] creates a task for it. *)
Theorem listing_complete pre name post readdir :
  baseline_file name →
  (name ∈ getRemoteFileList (pre ++ "href=" ++ dquote ++ name ++ dquote ++ post)
   ∧ ∃ t, t ∈ main_tasks (pre ++ "href=" ++ dquote ++ name ++ dquote ++ post) readdir
          ∧ filename t = name)
  ∧ (name ∈ getRemoteFileList
              (pre ++ "href=" ++ dquote ++ name ++ ".md5" ++ dquote ++ post)
     ∧ ∃ t, t ∈ main_tasks
                  (pre ++ "href=" ++ dquote ++ name ++ ".md5" ++ dquote ++ post) readdir
            ∧ filename t = name).
Proof.
  intros Hn.
  assert (Htask : ∀ listing, name ∈ getRemoteFileList listing →
            name ∈ getRemoteFileList listing
            ∧ ∃ t, t ∈ main_tasks listing readdir ∧ filename t = name).
  { intros listing Hin. split; [done|].
    exists (createTask name (if decide (name ∈ getLocalFiles readdir)
                             then Downloaded else Pending)).
    split; [|done]. apply elem_of_reconcile. by exists name. }
  split; apply Htask; unfold getRemoteFileList.
  - change ("href=" ++ dquote ++ name ++ dquote ++ post)%string
      with (String "h" ("ref=" ++ dquote ++ name ++ dquote ++ post)%string).
    apply scan_reaches with post; [|done].
    by apply match_href_file.
  - change ("href=" ++ dquote ++ name ++ ".md5" ++ dquote ++ post)%string
      with (String "h" ("ref=" ++ dquote ++ name ++ ".md5" ++ dquote ++ post)%string).
    apply scan_reaches with post; [|done].
    by apply match_href_sidecar.
Qed.

(** ** What a step does to a task *)

Lemma started_refl q l : started q l l.
Proof. intros i. by left. Qed.

Lemma started_mono q q' l l' : q ⊆ q' → started q l l' → started q' l l'.
Proof. intros Hq Hs i. destruct (Hs i) as [?|[Hi ?]]; [by left|right]. split; [by apply Hq|done]. Qed.

Lemma started_trans q l1 l2 l3 : started q l1 l2 → started q l2 l3 → started q l1 l3.
Proof.
  intros H12 H23 i. destruct (H23 i) as [Heq|[Hi Ht]]; [|by right].
  rewrite Heq. apply H12.
Qed.

Lemma started_alter q i l f :
  i ∈ q → (∀ t, status (f t) = Downloading) → started q l (alter f i l).
Proof.
  intros Hi Hf j. destruct (decide (j = i)) as [->|Hne].
  - destruct (l !! i) as [t|] eqn:Ht.
    + right. split; [done|]. exists (f t). by rewrite list_lookup_alter_eq, Ht.
    + left. by rewrite list_lookup_alter_eq, Ht.
  - left. by rewrite list_lookup_alter_ne.
Qed.

Lemma loop_touch_refl s : loop_touch s s.
Proof. split; [apply started_refl|done]. Qed.

Lemma loop_touch_trans s1 s2 s3 : loop_touch s1 s2 → loop_touch s2 s3 → loop_touch s1 s3.
Proof.
  intros [H12 Hq12] [H23 Hq23]. split; [|by etrans].
  eapply started_trans; [done|]. by eapply started_mono.
Qed.

Lemma loop_touch_same s s1 s' :
  loop_touch s s1 → tasks s' = tasks s1 → downloadQueue s' = downloadQueue s1 →
  verifyQueue s' = verifyQueue s1 → loop_touch s s'.
Proof. unfold loop_touch. by intros [H1 H2] -> -> ->. Qed.

Lemma loop_touch_eq s s' :
  tasks s' = tasks s → downloadQueue s' = downloadQueue s →
  verifyQueue s' = verifyQueue s → loop_touch s s'.
Proof. apply loop_touch_same, loop_touch_refl. Qed.

Lemma fill_downloads_touch q s :
  downloadQueue s = q → loop_touch s (fill_downloads q s).
Proof.
  revert s. induction q as [|i rest IH]; intros s Hq; simpl; [apply loop_touch_refl|].
  case_decide as Hsize; [|apply loop_touch_refl]. clear Hsize.
  eapply loop_touch_trans; [|by apply IH]. split; simpl.
  - apply started_alter; [|done]. rewrite Hq. apply elem_of_app. left. by left.
  - rewrite Hq. intros j. rewrite !elem_of_app, elem_of_cons. tauto.
Qed.

Lemma fill_verifications_touch q s :
  verifyQueue s = q → loop_touch s (fill_verifications q s).
Proof.
  revert s. induction q as [|i rest IH]; intros s Hq; simpl; [apply loop_touch_refl|].
  case_decide as Hsize; [|apply loop_touch_refl]. clear Hsize.
  eapply loop_touch_trans; [|by apply IH]. split; simpl.
  - rewrite list_alter_alter_eq. apply started_alter; [|done].
    rewrite Hq. apply elem_of_app. right. by left.
  - rewrite Hq. intros j. rewrite !elem_of_app, elem_of_cons. tauto.
Qed.

Lemma processDownloads_touch s : loop_touch s (processDownloads s).
Proof.
  unfold processDownloads. case_decide; [|by apply loop_touch_eq].
  case_decide; by eapply loop_touch_same; [by apply fill_downloads_touch|..].
Qed.

Lemma processVerifications_touch s : loop_touch s (processVerifications s).
Proof.
  unfold processVerifications.
  case_decide; [|by apply loop_touch_eq].
  case_decide; [by apply loop_touch_eq|].
  case_decide; by eapply loop_touch_same; [by apply fill_verifications_touch|..].
Qed.

Lemma joint_pass_touch s : loop_touch s (joint_pass s).
Proof.
  eapply loop_touch_trans; [apply processDownloads_touch|apply processVerifications_touch].
Qed.

Lemma start_resume_touch s : loop_touch s (start_resume s).
Proof.
  unfold start_resume. destruct (both_returned s); [|apply loop_touch_refl].
  destruct (pass s); try by apply loop_touch_eq.
  destruct (downloadQueue s) eqn:Hq; [by apply loop_touch_eq|].
  assert (Hj : loop_touch s (joint_pass (set_pass SecondPass s))).
  { eapply loop_touch_trans; [|apply joint_pass_touch].
    by apply loop_touch_eq. }
  destruct (both_returned _); [|done]. by eapply loop_touch_same.
Qed.

Lemma wake_downloads_touch p s : loop_touch s (wake_downloads p s).
Proof.
  unfold wake_downloads. destruct (downloadLoop s); try apply loop_touch_refl.
  case_bool_decide; [apply processDownloads_touch|apply loop_touch_refl].
Qed.

Lemma wake_verifications_touch p s : loop_touch s (wake_verifications p s).
Proof.
  unfold wake_verifications. destruct (verifyLoop s); try apply loop_touch_refl.
  case_bool_decide; [apply processVerifications_touch|apply loop_touch_refl].
Qed.

Lemma verification_conclude_other s i j h m :
  j ≠ i → tasks (verification_conclude i h m s) !! j = tasks s !! j.
Proof.
  intros Hne. unfold verification_conclude, verification_finally, verification_failed,
    verification_passed.
  destruct (progress (task_at s i)); simpl; [|by rewrite !list_lookup_alter_ne].
  destruct (falsy h || falsy m); simpl; [by rewrite !list_lookup_alter_ne|].
  destruct (progress (task_at _ i)); simpl; [|by rewrite !list_lookup_alter_ne].
  case_decide; simpl; by rewrite !list_lookup_alter_ne.
Qed.

Lemma alter_task_cases (l : list DownloadTask) f j i t :
  l !! i = Some t → alter f j l !! i = Some (if decide (i = j) then f t else t).
Proof.
  intros Ht. case_decide as Hij.
  - subst. by rewrite list_lookup_alter_eq, Ht.
  - by rewrite list_lookup_alter_ne.
Qed.

(** One step leaves a task as it was, unless a loop launches it from a queue,
    or the closure that transfers or verifies it goes on.  A task becomes
    [Verified] only in the step in which its closure reads an expected hash
    that is the hash of the file. *)
Lemma step_task e s s' i t :
  step e s = Some s' → tasks s !! i = Some t →
  ∃ t', tasks s' !! i = Some t'
    ∧ (t' = t
       ∨ ((i ∈ downloadQueue s ∨ i ∈ verifyQueue s) ∧ status t' = Downloading)
       ∨ ∃ p w r, promises s !! p = Some w ∧ promise_role w = Some (i, r)
           ∧ (status t' = status t
              ∨ (r = InTransfer ∧ (status t' = Downloaded ∨ status t' = Failed))
              ∨ (r = InVerification ∧ status t' = Pending)
              ∨ (status t' = Verified
                 ∧ ∃ h, h ≠ EmptyString ∧ e = Md5Result p (Some h)
                        ∧ w = VfWorker i (FetchingMd5 (Some h))))).
Proof.
  intros Hstep Ht.
  assert (Hloops : ∀ s1, tasks s1 = tasks s → downloadQueue s1 = downloadQueue s →
            verifyQueue s1 = verifyQueue s → loop_touch s1 s' →
            ∃ t', tasks s' !! i = Some t'
              ∧ (t' = t
                 ∨ ((i ∈ downloadQueue s ∨ i ∈ verifyQueue s)
                    ∧ status t' = Downloading)
                 ∨ ∃ p w r, promises s !! p = Some w ∧ promise_role w = Some (i, r)
                     ∧ (status t' = status t
                        ∨ (r = InTransfer
                           ∧ (status t' = Downloaded ∨ status t' = Failed))
                        ∨ (r = InVerification ∧ status t' = Pending)
                        ∨ (status t' = Verified
                           ∧ ∃ h, h ≠ EmptyString ∧ e = Md5Result p (Some h)
                                  ∧ w = VfWorker i (FetchingMd5 (Some h)))))).
  { intros s1 Hts Hdq Hvq [Hst _]. rewrite Hts, Hdq, Hvq in Hst.
    destruct (Hst i) as [Heq|[Hi (t' & Ht' & Hs')]].
    - exists t. split; [by rewrite Heq|by left].
    - exists t'. split; [done|]. right. left. by rewrite elem_of_app in Hi. }
  assert (Hfail : ∀ p w j, promises s !! p = Some w →
            promise_role w = Some (j, InTransfer) →
            ∃ t', tasks (download_failed j s) !! i = Some t'
              ∧ (t' = t
                 ∨ ∃ p w r, promises s !! p = Some w ∧ promise_role w = Some (i, r)
                     ∧ (status t' = status t
                        ∨ (r = InTransfer
                           ∧ (status t' = Downloaded ∨ status t' = Failed))))).
  { intros p w j Hp Hw. destruct (decide (i = j)) as [<-|Hne].
    - destruct (download_failed_spec s i t Ht) as (_ & _ & _ & t' & Ht' & _ & _ & _ & Hq).
      exists t'. split; [done|]. right. exists p, w, InTransfer.
      split_and!; [done..|]. case_decide; destruct Hq as [Hq _]; auto.
    - exists t. split; [|by left]. by rewrite download_failed_other. }
  destruct e as [p len|p n|p|p|p h|p m|p|]; simpl in Hstep.
  - destruct (promises s !! p) as [[j [| |]|j ph|]|] eqn:Hp; simplify_eq. simpl.
    eexists. split; [by apply alter_task_cases|].
    case_decide as Hij; [subst j|by left]. right. right.
    exists p, (DlWorker i Fetching), InTransfer. by auto.
  - destruct (promises s !! p) as [[j [| |]|j ph|]|] eqn:Hp; simplify_eq.
    destruct (progress (task_at s j)) as [pr|] eqn:Hpr; simplify_eq; simpl.
    + eexists. split; [by apply alter_task_cases|].
      case_decide as Hij; [subst j|by left]. right. right.
      exists p, (DlWorker i Streaming), InTransfer. by auto.
    + destruct (Hfail p (DlWorker j Streaming) j Hp eq_refl) as (t' & Ht' & Hc).
      exists t'. split; [done|].
      destruct Hc as [->|(p' & w' & r & Hp' & Hw' & Hc)]; [by left|].
      right. right. exists p', w', r. split_and!; [done..|]. tauto.
  - destruct (promises s !! p) as [[j [| |]|j ph|]|] eqn:Hp; simplify_eq. simpl.
    eexists. split; [by apply alter_task_cases|].
    case_decide as Hij; [subst j|by left]. right. right.
    exists p, (DlWorker i Streaming), InTransfer. split_and!; [done..|]. right. left. by auto.
  - assert (Hdone : ∀ j w, promises s !! p = Some w →
              promise_role w = Some (j, InTransfer) →
              s' = set_promise p (DlWorker j DlSaving) (download_failed j s) →
              ∃ t', tasks s' !! i = Some t'
                ∧ (t' = t
                   ∨ ((i ∈ downloadQueue s ∨ i ∈ verifyQueue s)
                      ∧ status t' = Downloading)
                   ∨ ∃ p0 w0 r, promises s !! p0 = Some w0
                       ∧ promise_role w0 = Some (i, r)
                       ∧ (status t' = status t
                          ∨ (r = InTransfer
                             ∧ (status t' = Downloaded ∨ status t' = Failed))
                          ∨ (r = InVerification ∧ status t' = Pending)
                          ∨ (status t' = Verified
                             ∧ ∃ h, h ≠ EmptyString
                                    ∧ TransferError p = Md5Result p0 (Some h)
                                    ∧ w0 = VfWorker i (FetchingMd5 (Some h)))))).
    { intros j w Hw Hr ->. destruct (Hfail p w j Hw Hr) as (t' & Ht' & Hc).
      exists t'. split; [done|].
      destruct Hc as [->|(p' & w' & r & Hp' & Hw' & Hc)]; [by left|].
      right. right. exists p', w', r. split_and!; [done..|]. tauto. }
    destruct (promises s !! p) as [[j [| |]|j ph|]|] eqn:Hp; simplify_eq;
      by eapply Hdone.
  - destruct (promises s !! p) as [[j ph|j [|h'|]|]|] eqn:Hp; simplify_eq.
    destruct (progress (task_at s j)) as [pr|] eqn:Hpr; simplify_eq; simpl.
    + eexists. split; [by apply alter_task_cases|].
      case_decide as Hij; [subst j|by left]. right. right.
      exists p, (VfWorker i Hashing), InVerification. by auto.
    + rewrite list_alter_alter_eq. eexists. split; [by apply alter_task_cases|].
      case_decide as Hij; [subst j|by left]. right. right.
      exists p, (VfWorker i Hashing), InVerification. split_and!; [done..|].
      right. right. left. by auto.
  - destruct (promises s !! p) as [[j ph|j [|h'|]|]|] eqn:Hp; simplify_eq.
    change (tasks (set_promise ?a ?b ?x)) with (tasks x).
    destruct (decide (i = j)) as [<-|Hne].
    + destruct (verification_conclude_spec s i h' m t Ht)
        as (_ & _ & t' & Ht' & _ & _ & _ & Hres).
      exists t'. split; [done|]. right. right.
      exists p, (VfWorker i (FetchingMd5 h')), InVerification. split_and!; [done..|].
      destruct Hres as [(Hv & _ & Hf & <-)|[Hpd _]]; [|by auto].
      right. right. right. split; [done|].
      destruct h' as [h|]; [|done]. exists h. split; [|done].
      intros ->. done.
    + exists t. split; [|by left]. by rewrite verification_conclude_other.
  - destruct (promises s !! p) as [[j [| |]|j [|h'|]|]|] eqn:Hp; simplify_eq.
    + eapply Hloops; [..|eapply loop_touch_trans;
        [apply wake_downloads_touch|apply start_resume_touch]]; done.
    + eapply Hloops; [..|eapply loop_touch_trans;
        [apply wake_verifications_touch|apply start_resume_touch]]; done.
  - destruct (verifyLoop s); simplify_eq.
    eapply Hloops; [..|eapply loop_touch_trans;
      [apply processVerifications_touch|apply start_resume_touch]]; done.
Qed.

(** ** The status of a task along a run *)

Lemma holder_status s i t :
  consistent s → tasks s !! i = Some t →
  (i ∈ downloadQueue s → status t = Pending ∨ status t = Downloading)
  ∧ (i ∈ verifyQueue s → status t = Downloaded)
  ∧ (∀ p w r, promises s !! p = Some w → promise_role w = Some (i, r) →
       status t = Downloading).
Proof.
  intros Hc Ht. split_and!.
  - intros Hi. assert (role_ok InDownloadQueue t) as [_ Hr]; [|done].
    apply (owners_ok s Hc i); [|done]. apply elem_of_app. left.
    apply elem_of_queued_of. by left.
  - intros Hi. assert (role_ok InVerifyQueue t) as [_ Hr]; [|done].
    apply (owners_ok s Hc i); [|done]. apply elem_of_app. left.
    apply elem_of_queued_of. by right.
  - intros p w r Hp Hw. assert (role_ok r t) as [_ Hr].
    { apply (owners_ok s Hc i); [|done]. apply elem_of_app. right.
      apply list_elem_of_omap. exists w. split; [by eapply list_elem_of_lookup_2|done]. }
    destruct w as [j [| |]|j [|h|]|]; simplify_eq/=; [done..| |]; by destruct Hr.
Qed.

(** X7.  In a run that [main] starts, one step changes the status of a task
    only from [Pending] or [Downloaded] to [Downloading], and from
    [Downloading] to [Downloaded], [Failed], [Verified] or [Pending]. *)
Theorem status_transitions ts s e s' i t :
  Forall initial_task ts → reachable ts s →
  step e s = Some s' → tasks s !! i = Some t →
  ∃ t', tasks s' !! i = Some t'
    ∧ (status t' = status t ∨ status_edge (status t) (status t') = true).
Proof.
  intros Hts Hreach Hstep Ht.
  assert (Hc : consistent s) by (by eapply reachable_consistent).
  destruct (holder_status s i t Hc Ht) as (Hdq & Hvq & Hw).
  destruct (step_task e s s' i t Hstep Ht) as (t' & Ht' & Hcases).
  exists t'. split; [done|].
  destruct Hcases as [->|[[[Hi|Hi] Hst]|(p & w & r & Hp & Hr & Hst)]]; [by left|..].
  - rewrite Hst. destruct (Hdq Hi) as [-> | ->]; auto.
  - rewrite Hst, (Hvq Hi). auto.
  - rewrite (Hw p w r Hp Hr).
    destruct Hst as [Hst|[[_ [Hst|Hst]]|[[_ Hst]|[Hst _]]]]; rewrite Hst; auto.
    left. by apply (Hw p w r).
Qed.

Lemma step_terminal s e s' i t :
  consistent s → step e s = Some s' → tasks s !! i = Some t →
  status t = Failed ∨ status t = Verified → tasks s' !! i = Some t.
Proof.
  intros Hc Hstep Ht Hterm.
  destruct (holder_status s i t Hc Ht) as (Hdq & Hvq & Hw).
  destruct (step_task e s s' i t Hstep Ht) as (t' & Ht' & Hcases).
  destruct Hcases as [->|[[[Hi|Hi] Hst]|(p & w & r & Hp & Hr & Hst)]]; [done|exfalso..].
  - destruct (Hdq Hi), Hterm; congruence.
  - specialize (Hvq Hi). destruct Hterm; congruence.
  - specialize (Hw p w r Hp Hr). destruct Hterm; congruence.
Qed.

Lemma run_terminal s evs s' i t :
  consistent s → run evs s = Some s' → tasks s !! i = Some t →
  status t = Failed ∨ status t = Verified → tasks s' !! i = Some t.
Proof.
  intros Hc Hrun Ht Hterm. revert s Hc Hrun Ht.
  induction evs as [|e evs IH]; intros s Hc Hrun Ht; simpl in Hrun.
  - by simplify_eq.
  - destruct (step e s) as [s1|] eqn:He; [|done].
    apply (IH s1); [by eapply step_consistent|done|].
    by eapply step_terminal.
Qed.

(** X8.  [Failed] and [Verified] are final: once a task has one of these two
    statuses, nothing in the rest of the run changes any of its fields. *)
Theorem terminal_tasks_frozen ts s evs s' i t :
  Forall initial_task ts → reachable ts s →
  run evs s = Some s' → tasks s !! i = Some t →
  status t = Failed ∨ status t = Verified →
  tasks s' !! i = Some t.
Proof.
  intros Hts Hreach Hrun Ht Hterm.
  eapply run_terminal; [|done..]. by eapply reachable_consistent.
Qed.

(** X9.  What [getFailedTasks] reports: a task that failed to download
    [MAX_RETRIES] times; and a task it reports at one time it reports at any
    later time. *)
Theorem failed_tasks_stay ts s evs s' t :
  Forall initial_task ts → reachable ts s →
  run evs s = Some s' → t ∈ getFailedTasks s →
  attempts t = MAX_RETRIES ∧ t ∈ getFailedTasks s'.
Proof.
  intros Hts Hreach Hrun Ht.
  apply list_elem_of_filter in Ht as [Hst Hin].
  apply list_elem_of_lookup in Hin as [i Hi].
  assert (Hc : consistent s) by (by eapply reachable_consistent).
  split.
  - by destruct (tasks_ok s Hc i t Hi) as (_ & Hf & _); auto.
  - apply list_elem_of_filter. split; [done|].
    eapply list_elem_of_lookup_2. eapply run_terminal; eauto.
Qed.

(** X10.  A task becomes [Verified] in one way only: the closure that
    verifies it has computed the hash [h] of the file, and [getMd5] answers
    [h]. *)
Theorem verified_by_checksum s e s' i t t' :
  step e s = Some s' → tasks s !! i = Some t → tasks s' !! i = Some t' →
  status t ≠ Verified → status t' = Verified →
  ∃ p h, e = Md5Result p (Some h)
         ∧ promises s !! p = Some (VfWorker i (FetchingMd5 (Some h)))
         ∧ h ≠ EmptyString.
Proof.
  intros Hstep Ht Ht' Hbefore Hafter.
  destruct (step_task e s s' i t Hstep Ht) as (t1 & Ht1 & Hcases).
  simplify_eq.
  destruct Hcases as [->|[[_ Hst]|(p & w & r & Hp & Hr & Hst)]]; [done|congruence|].
  destruct Hst as [Hst|[[_ [Hst|Hst]]|[[_ Hst]|[_ (h & Hh & -> & ->)]]]];
    [congruence..|].
  by exists p, h.
Qed.

(** ** Who holds a task *)

Lemma omap_role_unique (ps : list Promise) p p' w w' i r r' :
  NoDup (omap promise_role ps).*1 →
  ps !! p = Some w → ps !! p' = Some w' →
  promise_role w = Some (i, r) → promise_role w' = Some (i, r') → p = p'.
Proof.
  revert p p'. induction ps as [|w0 ps IH]; intros p p' Hnd Hp Hp' Hw Hw'; [done|].
  assert (Hin : ∀ q v r0, ps !! q = Some v → promise_role v = Some (i, r0) →
            i ∈ (omap promise_role ps).*1).
  { intros q v r0 Hq Hv. apply list_elem_of_fmap. exists (i, r0). split; [done|].
    apply list_elem_of_omap. exists v. split; [by eapply list_elem_of_lookup_2|done]. }
  assert (Htail : NoDup (omap promise_role ps).*1).
  { simpl in Hnd. destruct (promise_role w0); [|done].
    rewrite fmap_cons in Hnd. by apply NoDup_cons in Hnd as [_ ?]. }
  destruct p as [|p], p' as [|p']; simplify_eq/=; [done| | |f_equal; by eapply IH].
  - rewrite Hw, fmap_cons in Hnd. apply NoDup_cons in Hnd as [Hni _].
    exfalso. apply Hni. by eapply Hin.
  - rewrite Hw', fmap_cons in Hnd. apply NoDup_cons in Hnd as [Hni _].
    exfalso. apply Hni. by eapply Hin.
Qed.

(** X11.  In a run that [main] starts, a task is held at most once: the two
    queues hold no task twice and have no task in common, and a task that a
    closure transfers or verifies is in no queue and is transferred or
    verified by no other closure. *)
Theorem one_holder_per_task ts s :
  Forall initial_task ts → reachable ts s →
  NoDup (downloadQueue s ++ verifyQueue s)
  ∧ ∀ p w i r, promises s !! p = Some w → promise_role w = Some (i, r) →
      (i ∉ downloadQueue s) ∧ (i ∉ verifyQueue s)
      ∧ ∀ p' w' r', promises s !! p' = Some w' →
                    promise_role w' = Some (i, r') → p' = p.
Proof.
  intros Hts Hreach.
  assert (Hc : consistent s) by (by eapply reachable_consistent).
  pose proof (owners_nodup s Hc) as Hnd. unfold owners, owners_of in Hnd.
  rewrite fmap_app, queued_of_fst in Hnd.
  apply NoDup_app in Hnd as (Hq & Hdisj & Hps).
  split; [done|]. intros p w i r Hp Hw.
  assert (Hi : i ∈ (omap promise_role (promises s)).*1).
  { apply list_elem_of_fmap. exists (i, r). split; [done|].
    apply list_elem_of_omap. exists w. split; [by eapply list_elem_of_lookup_2|done]. }
  split_and!.
  - intros Hin. apply (Hdisj i); [|done]. apply elem_of_app. by left.
  - intros Hin. apply (Hdisj i); [|done]. apply elem_of_app. by right.
  - intros p' w' r' Hp' Hw'. by eapply omap_role_unique.
Qed.

(** ** The two maps and the two passes *)

(** X12.  In every state of a run, [activeDownloads] holds at most
    [CONCURRENT_DOWNLOADS] entries and [activeVerifications] at most
    [CONCURRENT_VERIFICATIONS]. *)
Theorem map_sizes_capped ts s :
  reachable ts s →
  size (activeDownloads s) ≤ CONCURRENT_DOWNLOADS
  ∧ size (activeVerifications s) ≤ CONCURRENT_VERIFICATIONS.
Proof. apply reachable_caps. Qed.

Lemma reachable_first_pass ts s : reachable ts s → in_first_pass s.
Proof.
  intros [evs Hrun].
  assert (Hinit : in_first_pass (start (Downloader_new ts))).
  { apply start_resume_first_pass.
    - unfold joint_pass. rewrite (proj1 (processVerifications_control _)).
      by rewrite (proj1 (processDownloads_control _)).
    - intros _ Hb. apply both_returned_inv in Hb as [_ Hb].
      by apply processVerifications_returned_queue. }
  revert Hinit Hrun. generalize (start (Downloader_new ts)).
  induction evs as [|e evs IH]; intros s0 H0 Hrun; simpl in Hrun.
  - by simplify_eq.
  - destruct (step e s0) as [s1|] eqn:He; [|done].
    eapply IH; [|done]. by eapply step_first_pass.
Qed.

(** X13.  [start] calls the two loops once: the block behind its test of the
    download queue never runs, and as long as [start] waits, one of the two
    loops has not returned. *)
Theorem start_runs_one_pass ts s :
  reachable ts s →
  pass s ≠ SecondPass ∧ (pass s = FirstPass → both_returned s = false).
Proof. apply reachable_first_pass. Qed.

(** ** After the download loop has returned *)

Lemma download_failed_dq i s :
  ∃ l, downloadQueue (download_failed i s) = downloadQueue s ++ l.
Proof.
  unfold download_failed. case_decide; simpl.
  - by exists [i].
  - exists []. by rewrite app_nil_r.
Qed.

Lemma start_resume_idle x :
  pass x ≠ SecondPass →
  (pass x = FirstPass → both_returned x = true → downloadQueue x = []) →
  downloadLoop (start_resume x) = downloadLoop x
  ∧ downloadQueue (start_resume x) = downloadQueue x
  ∧ (pass x = FirstPass → downloadQueue x ≠ [] → pass (start_resume x) = FirstPass).
Proof.
  intros Hp Hq. unfold start_resume.
  destruct (both_returned x) eqn:Hb; [|done].
  destruct (pass x) eqn:Hpass; [|done|done].
  specialize (Hq eq_refl eq_refl).
  destruct (downloadQueue x) eqn:Hdq; [|done]. simpl. by rewrite Hdq.
Qed.

Lemma step_download_loop_returned e s s' :
  in_first_pass s → downloadLoop s = Returned → step e s = Some s' →
  downloadLoop s' = Returned
  ∧ (∀ i, i ∈ downloadQueue s → i ∈ downloadQueue s')
  ∧ (pass s = FirstPass → downloadQueue s ≠ [] → pass s' = FirstPass).
Proof.
  intros [Hne Hnb] Hd Hstep.
  assert (Hfail : ∀ p w j,
            s' = set_promise p w (download_failed j s) →
            downloadLoop s' = Returned
            ∧ (∀ i, i ∈ downloadQueue s → i ∈ downloadQueue s')
            ∧ (pass s = FirstPass → downloadQueue s ≠ [] → pass s' = FirstPass)).
  { intros p w j ->. destruct (download_failed_control j s) as (H1 & H2 & H3).
    destruct (download_failed_dq j s) as [l Hl].
    change (downloadLoop (set_promise ?a ?b ?x)) with (downloadLoop x).
    change (downloadQueue (set_promise ?a ?b ?x)) with (downloadQueue x).
    change (pass (set_promise ?a ?b ?x)) with (pass x).
    rewrite H1, H2, Hl. split_and!; [done| |done].
    intros i Hi. apply elem_of_app. by left. }
  assert (Hresume : ∀ x,
            pass x = pass s → downloadLoop x = Returned →
            downloadQueue x = downloadQueue s →
            (pass x = FirstPass → both_returned x = true → downloadQueue x = []) →
            s' = start_resume x →
            downloadLoop s' = Returned
            ∧ (∀ i, i ∈ downloadQueue s → i ∈ downloadQueue s')
            ∧ (pass s = FirstPass → downloadQueue s ≠ [] → pass s' = FirstPass)).
  { intros x Hp Hl Hq Hret ->.
    destruct (start_resume_idle x) as (H1 & H2 & H3); [by rewrite Hp|done|].
    rewrite H1, H2, Hl, Hq. split_and!; [done|done|].
    intros Hfp Hdq. apply H3; [by rewrite Hp|by rewrite Hq]. }
  destruct e as [p len|p n|p|p|p h|p m|p|]; simpl in Hstep.
  - destruct (promises s !! p) as [[j [| |]|j ph|]|]; by simplify_eq.
  - destruct (promises s !! p) as [[j [| |]|j ph|]|]; simplify_eq.
    destruct (progress (task_at s j)); simplify_eq; [done|]. by eapply Hfail.
  - destruct (promises s !! p) as [[j [| |]|j ph|]|]; by simplify_eq.
  - destruct (promises s !! p) as [[j [| |]|j ph|]|]; simplify_eq; by eapply Hfail.
  - destruct (promises s !! p) as [[j ph|j [|h'|]|]|]; simplify_eq.
    destruct (progress (task_at s j)); simplify_eq; simpl; [done|].
    split_and!; [done| |done]. intros i Hi. by right.
  - destruct (promises s !! p) as [[j ph|j [|h'|]|]|]; simplify_eq.
    destruct (verification_conclude_control j h' m s) as (H1 & H2 & H3).
    change (downloadLoop (set_promise ?a ?b ?x)) with (downloadLoop x).
    change (downloadQueue (set_promise ?a ?b ?x)) with (downloadQueue x).
    change (pass (set_promise ?a ?b ?x)) with (pass x).
    rewrite H1, H2. split_and!; [done| |done].
    intros i Hi.
    destruct (verification_conclude_queue s j h' m) as [-> | ->]; [done|by right].
  - destruct (promises s !! p) as [[j [| |]|j [|h'|]|]|]; simplify_eq.
    + eapply Hresume; [..|reflexivity]; unfold wake_downloads; simpl;
        rewrite Hd; simpl; try done.
      intros Hp Hb. apply Hnb in Hp. revert Hp Hb. unfold both_returned. simpl.
      rewrite Hd. congruence.
    + eapply Hresume; [..|reflexivity].
      * unfold wake_verifications; simpl. destruct (verifyLoop s); simpl; try done.
        case_bool_decide; [|done]. by rewrite (proj1 (processVerifications_control _)).
      * unfold wake_verifications; simpl. destruct (verifyLoop s); simpl; try done.
        case_bool_decide; [|done]. by rewrite (proj2 (processVerifications_control _)).
      * by rewrite wake_verifications_queue.
      * unfold wake_verifications; simpl.
        destruct (verifyLoop s) as [ids| |] eqn:Hv; simpl.
        -- case_bool_decide.
           ++ intros _ Hb. apply both_returned_inv in Hb as [_ Hb].
              by apply processVerifications_returned_queue.
           ++ intros Hp Hb. apply both_returned_inv in Hb as [_ Hb]. simpl in Hb.
              congruence.
        -- intros Hp Hb. apply both_returned_inv in Hb as [_ Hb]. simpl in Hb.
           congruence.
        -- intros Hp Hb. apply Hnb in Hp. revert Hp. unfold both_returned.
           rewrite Hd, Hv. done.
  - destruct (verifyLoop s) eqn:Hv; simplify_eq.
    eapply Hresume; [..|reflexivity].
    + by rewrite (proj1 (processVerifications_control _)).
    + by rewrite (proj2 (processVerifications_control _)).
    + by rewrite processVerifications_queue.
    + intros _ Hb. apply both_returned_inv in Hb as [_ Hb].
      by apply processVerifications_returned_queue.
Qed.

(** X14.  Once [processDownloads] has returned it is not called again: a
    task that is put into the download queue afterwards stays there for the
    rest of the run, and while the queue holds such a task [start] does not
    return. *)
Theorem download_queue_stranded ts s evs s' :
  reachable ts s → downloadLoop s = Returned →
  run evs s = Some s' →
  downloadLoop s' = Returned
  ∧ (∀ i, i ∈ downloadQueue s → i ∈ downloadQueue s')
  ∧ (pass s = FirstPass → downloadQueue s ≠ [] → pass s' = FirstPass).
Proof.
  intros Hreach Hd Hrun. apply reachable_first_pass in Hreach.
  revert s Hreach Hd Hrun.
  induction evs as [|e evs IH]; intros s Hfp Hd Hrun; simpl in Hrun.
  - by simplify_eq.
  - destruct (step e s) as [s1|] eqn:He; [|done].
    destruct (step_download_loop_returned e s s1 Hfp Hd He) as (H1 & H2 & H3).
    destruct (IH s1) as (H4 & H5 & H6); [by eapply step_first_pass|done|done|].
    split_and!; [done|by auto|].
    intros Hp Hq. apply H6; [by apply H3|].
    destruct (downloadQueue s) as [|i q] eqn:Hdq; [done|].
    intros Hnil. specialize (H2 i (list_elem_of_here _ _)). rewrite Hnil in H2.
    by apply not_elem_of_nil in H2.
Qed.

(** ** The bytes of a transfer *)




(** ** The table of local hashes *)

Lemma computeLocalHashes_from_spec computeFileHash size files :
  ∀ hashes processed,
    (∀ f, (computeLocalHashes_from computeFileHash size files hashes processed).1 !! f
          = if decide (f ∈ files ∧ is_Some (computeFileHash f))
            then computeFileHash f else hashes !! f)
    ∧ (computeLocalHashes_from computeFileHash size files hashes processed).2
      = (λ k, (k, size))
          <$> seq (S processed)
                (length (filter (λ f, is_Some (computeFileHash f)) files)).
Proof.
  induction files as [|file rest IH]; intros hashes processed; simpl.
  - done.
  - rewrite filter_cons. destruct (computeFileHash file) as [hash|] eqn:Hh.
    + specialize (IH (<[file:=hash]> hashes) (S processed)).
      destruct (computeLocalHashes_from _ _ rest _ _) as [result calls].
      destruct IH as [IH1 IH2]. simpl in *.
      split; [|by rewrite IH2].
      intros f. rewrite IH1.
      destruct (decide (f = file)) as [->|Hne].
      * rewrite lookup_insert_eq, Hh.
        rewrite (decide_True (P := file ∈ file :: rest ∧ _)) by (split; [by left|done]).
        by case_decide.
      * rewrite lookup_insert_ne by done. apply decide_ext. split.
        -- intros [Hin Hs]. split; [by right|done].
        -- intros [Hin Hs]. split; [|done].
           by apply elem_of_cons in Hin as [?|?].
    + destruct (IH hashes processed) as [IH1 IH2]. split; [|done].
      intros f. rewrite IH1. destruct (decide (f = file)) as [->|Hne].
      * rewrite Hh. rewrite !decide_False; [done|by intros [_ [? ?]]..].
      * apply decide_ext. split.
        -- intros [Hin Hs]. split; [by right|done].
        -- intros [Hin Hs]. split; [|done].
           by apply elem_of_cons in Hin as [?|?].
Qed.

(** X16.  [computeLocalHashes] returns the hash of every file of the set
    whose hash can be computed and no other entry, and it reports progress
    once for each of these files, with the count so far and the size of the
    set; the entry of a file is the hash [verifyChecksum] accepts for it. *)
Theorem local_hashes_table computeFileHash files :
  (∀ f, (computeLocalHashes computeFileHash files).1 !! f
        = if decide (f ∈ files) then computeFileHash f else None)
  ∧ (computeLocalHashes computeFileHash files).2
    = (λ k, (k, length files))
        <$> seq 1 (length (filter (λ f, is_Some (computeFileHash f)) files))
  ∧ (∀ f h, f ∈ files →
       verifyChecksum computeFileHash f h = true
       ↔ (computeLocalHashes computeFileHash files).1 !! f = Some h).
Proof.
  destruct (computeLocalHashes_from_spec computeFileHash (length files) files ∅ 0)
    as [H1 H2].
  assert (Htable : ∀ f, (computeLocalHashes computeFileHash files).1 !! f
                        = if decide (f ∈ files) then computeFileHash f else None).
  { intros f. unfold computeLocalHashes. rewrite H1, lookup_empty.
    destruct (decide (f ∈ files)) as [Hin|Hnin].
    - destruct (computeFileHash f) as [h|] eqn:Hf.
      + by rewrite decide_True.
      + rewrite decide_False; [done|]. by intros [_ [? ?]].
    - rewrite decide_False; [done|]. by intros [? _]. }
  split_and!; [done|done|].
  intros f h Hin. rewrite Htable, decide_True by done. unfold verifyChecksum.
  destruct (computeFileHash f) as [h'|]; [|done].
  rewrite bool_decide_eq_true. naive_solver.
Qed.

(** ** The counters of the progress display *)

Lemma filter_length_le {A} (P Q : A → Prop) `{∀ x, Decision (P x)} `{∀ x, Decision (Q x)}
    (l : list A) :
  (∀ x, P x → Q x) → length (filter P l) ≤ length (filter Q l).
Proof.
  intros HPQ. induction l as [|x l IH]; [done|].
  rewrite !filter_cons. destruct (decide (P x)) as [HP|HP].
  - rewrite decide_True by auto. simpl. lia.
  - destruct (decide (Q x)); simpl; lia.
Qed.

(** X17.  Whenever the display is refreshed during a run, with [setProgress]
    on the tasks of the [Downloader], it shows no more verified files than
    downloaded ones, and no more downloaded files than there are tasks. *)
Theorem progress_counters ts s :
  reachable ts s →
  ui_total (setProgress (tasks s) (Downloader_ui ts)) = length ts
  ∧ ui_verified (setProgress (tasks s) (Downloader_ui ts))
    ≤ ui_downloaded (setProgress (tasks s) (Downloader_ui ts))
  ∧ ui_downloaded (setProgress (tasks s) (Downloader_ui ts))
    ≤ ui_total (setProgress (tasks s) (Downloader_ui ts)).
Proof.
  intros [evs Hrun]. simpl. split_and!; [done| |].
  - apply filter_length_le. intros t ->. apply elem_of_cons. right. by left.
  - etrans; [apply length_filter|].
    rewrite (run_length _ _ _ Hrun).
    by rewrite <- (Forall2_length _ _ _ (start_keeps ts)).
Qed.

(** ** What a run keeps of a task *)

(** X18.  A run neither adds nor removes a task, it never changes the file
    name of a task, and it never lowers its [attempts]. *)
Theorem tasks_keep_identity evs s s' :
  run evs s = Some s' →
  length (tasks s') = length (tasks s)
  ∧ ∀ i t, tasks s !! i = Some t →
      ∃ t', tasks s' !! i = Some t' ∧ filename t' = filename t
            ∧ attempts t ≤ attempts t'.
Proof.
  intros Hrun. split; [by eapply run_length|].
  intros i t Ht. destruct (run_attempts evs s s' i t Hrun Ht) as (t' & Ht' & Hf & Ha).
  exists t'. split_and!; [done|done|lia].
Qed.

(** ** The snapshot keeps every field *)

(** X19.  What [loadProgress] reads after [saveProgress] also has the [url]
    of every task, and its [md5] and its [progress] exactly when the task
    has them: a transfer or a verification that is under way is written with
    the bytes it has counted. *)
Theorem snapshot_keeps_progress ts d i t :
  ts !! i = Some t →
  ∃ items v, loadProgress (saveProgress ts d) = JArr items
    ∧ items !! i = Some v
    ∧ json_get "url" v = Some (JStr (url t))
    ∧ json_get "md5" v = (JStr <$> md5 t)
    ∧ json_get "progress" v = (progress_to_json <$> progress t)
    ∧ ∀ pr, progress t = Some pr →
        json_get "progress" v ≫= json_get "bytes" = Some (JNum (bytes pr))
        ∧ json_get "progress" v ≫= json_get "total" = Some (JNum (total pr)).
Proof.
  intros Ht. exists (task_to_json <$> ts), (task_to_json t).
  split; [unfold loadProgress, saveProgress; by rewrite json_round_trip|].
  split; [by rewrite list_lookup_fmap, Ht|].
  destruct t as [f u m st a pr]. destruct m as [h|], pr as [[b tot]|]; simpl.
  all: split_and!; try done.
  all: by intros ? [= <-].
Qed.

(** ** No task is lost *)

Lemma accounted_move s s' i r (new : option Role) rest f :
  accounted s →
  owners s ≡ₚ (i, r) :: rest →
  owners s' ≡ₚ option_list (pair i <$> new) ++ rest →
  tasks s' = alter f i (tasks s) →
  (new = None → ∀ t, tasks s !! i = Some t →
     status (f t) = Failed ∨ status (f t) = Verified) →
  accounted s'.
Proof.
  intros Ha Hs Hs' Ht Hf j t' Hl. rewrite Ht in Hl.
  destruct (decide (j = i)) as [->|Hne].
  - rewrite list_lookup_alter_eq in Hl.
    destruct (tasks s !! i) as [t|] eqn:E; simplify_eq/=.
    destruct new as [r'|].
    + right. right. rewrite Hs'. simpl. left.
    + destruct (Hf eq_refl t eq_refl); auto.
  - rewrite list_lookup_alter_ne in Hl by done.
    destruct (Ha j t' Hl) as [?|[?|Hin]]; auto. right. right.
    rewrite Hs', fmap_app. apply elem_of_app. right.
    rewrite Hs, fmap_cons in Hin. by apply elem_of_cons in Hin as [?|?].
Qed.

Lemma accounted_same s s' :
  accounted s → owners s' = owners s → tasks s' = tasks s → accounted s'.
Proof. unfold accounted. by intros Ha -> ->. Qed.

Ltac same_accounted H := apply (accounted_same _ _ H); reflexivity.

Lemma launch_download_accounted s i q :
  accounted s → downloadQueue s = i :: q →
  accounted (launch_download i (set_downloadQueue q s)).
Proof.
  intros Hs Hq.
  apply (accounted_move s _ i InDownloadQueue (Some InTransfer)
           (owners_of q (verifyQueue s) (promises s)) (with_status Downloading)); try done.
  - unfold owners. by rewrite Hq.
  - unfold owners, owners_of, queued_of. simpl. rewrite omap_app. simpl.
    solve_Permutation.
Qed.

Lemma fill_downloads_accounted q s :
  accounted s → downloadQueue s = q → accounted (fill_downloads q s).
Proof.
  revert s. induction q as [|i q IH]; intros s Hs Hq; simpl; [done|].
  case_decide; [|done].
  apply IH; [|done]. by apply launch_download_accounted.
Qed.

Lemma processDownloads_accounted s : accounted s → accounted (processDownloads s).
Proof.
  intros Hs. unfold processDownloads.
  pose proof (fill_downloads_accounted (downloadQueue s) s Hs eq_refl) as Hf.
  repeat case_decide; (same_accounted Hf || same_accounted Hs).
Qed.

Lemma launch_verification_accounted s i q :
  accounted s → verifyQueue s = i :: q →
  accounted (launch_verification i (set_verifyQueue q s)).
Proof.
  intros Hs Hq.
  apply (accounted_move s _ i InVerifyQueue (Some InVerification)
           (owners_of (downloadQueue s) q (promises s))
           (with_progress (Some (mkProgress 0 100)) ∘ with_status Downloading)); try done.
  - unfold owners, owners_of, queued_of. rewrite Hq. simpl. solve_Permutation.
  - unfold owners, owners_of, queued_of. simpl. rewrite omap_app. simpl.
    solve_Permutation.
  - simpl. by rewrite list_alter_alter_eq.
Qed.

Lemma fill_verifications_accounted q s :
  accounted s → verifyQueue s = q → accounted (fill_verifications q s).
Proof.
  revert s. induction q as [|i q IH]; intros s Hs Hq; simpl; [done|].
  case_decide; [|done].
  apply IH; [|done]. by apply launch_verification_accounted.
Qed.

Lemma processVerifications_accounted s :
  accounted s → accounted (processVerifications s).
Proof.
  intros Hs. unfold processVerifications.
  pose proof (fill_verifications_accounted (verifyQueue s) s Hs eq_refl) as Hf.
  repeat case_decide; (same_accounted Hf || same_accounted Hs).
Qed.

Lemma joint_pass_accounted s : accounted s → accounted (joint_pass s).
Proof.
  intros Hs. by apply processVerifications_accounted, processDownloads_accounted.
Qed.

Lemma start_resume_accounted s : accounted s → accounted (start_resume s).
Proof.
  intros Hs. unfold start_resume.
  destruct (both_returned s); [|done].
  destruct (pass s); [|same_accounted Hs|done].
  destruct (downloadQueue s) eqn:Hq; [same_accounted Hs|].
  assert (accounted (joint_pass (set_pass SecondPass s))) as Hj.
  { apply joint_pass_accounted. same_accounted Hs. }
  destruct (both_returned _); [same_accounted Hj|done].
Qed.

Lemma worker_step_accounted s s' p w w' i r (new : option Role) f :
  accounted s →
  promises s !! p = Some w → promise_role w = Some (i, r) →
  promises s' = <[p:=w']> (promises s) →
  tasks s' = alter f i (tasks s) →
  queued_of (downloadQueue s') (verifyQueue s') ++ option_list (promise_role w')
    ≡ₚ option_list (pair i <$> new) ++ queued_of (downloadQueue s) (verifyQueue s) →
  (new = None → ∀ t, tasks s !! i = Some t →
     status (f t) = Failed ∨ status (f t) = Verified) →
  accounted s'.
Proof.
  intros Hs Hp Hr Hp' Ht Hq Hf.
  destruct (promise_role_take (promises s) p w i r w' Hp Hr) as (rest & H1 & H2).
  apply (accounted_move s s' i r new
           (queued_of (downloadQueue s) (verifyQueue s) ++ rest) f); try done.
  - unfold owners, owners_of. rewrite H1. solve_Permutation.
  - unfold owners, owners_of. rewrite Hp', H2.
    rewrite (assoc_L (++) (option_list _)), <- Hq. solve_Permutation.
Qed.

Lemma download_failed_accounted s p w i :
  accounted s → promises s !! p = Some w → promise_role w = Some (i, InTransfer) →
  accounted (set_promise p (DlWorker i DlSaving) (download_failed i s)).
Proof.
  intros Hs Hp Hr. unfold download_failed.
  case_decide as Hlt.
  - eapply (worker_step_accounted s _ p _ _ i InTransfer (Some InDownloadQueue));
      [done|exact Hp|done|reflexivity|reflexivity|..].
    + simpl. unfold queued_of. rewrite fmap_app. simpl. solve_Permutation.
    + done.
  - eapply (worker_step_accounted s _ p _ _ i InTransfer None);
      [done|exact Hp|done|reflexivity| |..].
    + simpl. rewrite list_alter_alter_eq. reflexivity.
    + simpl. solve_Permutation.
    + intros _ t _. by left.
Qed.

Lemma verification_failed_accounted s p w i :
  accounted s → promises s !! p = Some w → promise_role w = Some (i, InVerification) →
  accounted (set_promise p (VfWorker i VfSaving)
               (verification_finally i (verification_failed i s))).
Proof.
  intros Hs Hp Hr.
  eapply (worker_step_accounted s _ p _ _ i InVerification (Some InDownloadQueue));
    [done|exact Hp|done|reflexivity| |..].
  - simpl. rewrite list_alter_alter_eq. reflexivity.
  - simpl. solve_Permutation.
  - done.
Qed.

Lemma verification_conclude_accounted s p w i h m :
  accounted s → promises s !! p = Some w → promise_role w = Some (i, InVerification) →
  accounted (set_promise p (VfWorker i VfSaving) (verification_conclude i h m s)).
Proof.
  intros Hs Hp Hr. unfold verification_conclude.
  destruct (progress (task_at s i)) as [pr|] eqn:H75;
    [|by eapply verification_failed_accounted].
  destruct (falsy h || falsy m);
    [|destruct (progress (task_at (update_task i (with_progress (with_bytes 75 pr)) s) i))
        as [pr1|] eqn:H100; [case_decide|]].
  all: first
    [ solve [ eapply (worker_step_accounted s _ p _ _ i InVerification (Some InDownloadQueue));
              [done|exact Hp|done|reflexivity
              |simpl; rewrite !list_alter_alter_eq; reflexivity
              |simpl; solve_Permutation
              |done ] ]
    | solve [ eapply (worker_step_accounted s _ p _ _ i InVerification None);
              [done|exact Hp|done|reflexivity
              |simpl; rewrite !list_alter_alter_eq; reflexivity
              |simpl; solve_Permutation
              |intros _ t _; by right ] ] ].
Qed.

Lemma settle_accounted s p w :
  accounted s → promises s !! p = Some w → promise_role w = None →
  accounted (set_promise p Settled s).
Proof.
  intros Hs Hp Hr. apply (accounted_same s); [done| |done].
  unfold owners, owners_of. simpl.
  by rewrite (omap_insert_same promise_role _ p w Settled Hp).
Qed.

Lemma wake_downloads_accounted p s : accounted s → accounted (wake_downloads p s).
Proof.
  intros Hs. unfold wake_downloads. destruct (downloadLoop s); [|done..].
  case_bool_decide; [|done]. by apply processDownloads_accounted.
Qed.

Lemma wake_verifications_accounted p s :
  accounted s → accounted (wake_verifications p s).
Proof.
  intros Hs. unfold wake_verifications. destruct (verifyLoop s); [|done..].
  case_bool_decide; [|done]. by apply processVerifications_accounted.
Qed.

Lemma step_accounted e s s' : accounted s → step e s = Some s' → accounted s'.
Proof.
  intros Hs Hstep. destruct e as [p len|p n|p|p|p h|p m|p|]; simpl in Hstep.
  - destruct (promises s !! p) as [[i [| |]|i ph|]|] eqn:Hp; simplify_eq.
    eapply (worker_step_accounted s _ p _ _ i InTransfer (Some InTransfer));
      [done|exact Hp|done|reflexivity|reflexivity|..]; [|done].
    simpl. solve_Permutation.
  - destruct (promises s !! p) as [[i [| |]|i ph|]|] eqn:Hp; simplify_eq.
    destruct (progress (task_at s i)) as [pr|] eqn:Hpr; simplify_eq.
    + eapply (worker_step_accounted s _ p _ _ i InTransfer (Some InTransfer));
        [done|exact Hp|done| |reflexivity|..]; [| |done].
      * simpl. symmetry. by apply list_insert_id.
      * simpl. solve_Permutation.
    + by eapply download_failed_accounted.
  - destruct (promises s !! p) as [[i [| |]|i ph|]|] eqn:Hp; simplify_eq.
    eapply (worker_step_accounted s _ p _ _ i InTransfer (Some InVerifyQueue));
      [done|exact Hp|done|reflexivity|reflexivity|..]; [|done].
    simpl. unfold queued_of. rewrite fmap_app. simpl. solve_Permutation.
  - destruct (promises s !! p) as [[i [| |]|i ph|]|] eqn:Hp; simplify_eq;
      by eapply download_failed_accounted.
  - destruct (promises s !! p) as [[i ph|i [|h'|]|]|] eqn:Hp; simplify_eq.
    destruct (progress (task_at s i)) as [pr|] eqn:Hpr; simplify_eq.
    + eapply (worker_step_accounted s _ p _ _ i InVerification (Some InVerification));
        [done|exact Hp|done|reflexivity|reflexivity|..]; [|done].
      simpl. solve_Permutation.
    + by eapply verification_failed_accounted.
  - destruct (promises s !! p) as [[i ph|i [|h'|]|]|] eqn:Hp; simplify_eq.
    by eapply verification_conclude_accounted.
  - destruct (promises s !! p) as [[i [| |]|i [|h'|]|]|] eqn:Hp; simplify_eq.
    + apply start_resume_accounted, wake_downloads_accounted.
      pose proof (settle_accounted s p _ Hs Hp eq_refl) as Hc. same_accounted Hc.
    + apply start_resume_accounted, wake_verifications_accounted.
      pose proof (settle_accounted s p _ Hs Hp eq_refl) as Hc. same_accounted Hc.
  - destruct (verifyLoop s); simplify_eq.
    by apply start_resume_accounted, processVerifications_accounted.
Qed.

Lemma Downloader_new_accounted ts :
  Forall initial_task ts → accounted (Downloader_new ts).
Proof.
  intros Hts i t Ht. rewrite Forall_lookup in Hts. simpl in Ht.
  destruct (Hts i t Ht) as (_ & _ & Hst). right. right.
  unfold owners, owners_of. simpl. rewrite app_nil_r, queued_of_fst, elem_of_app.
  rewrite !elem_of_refs_with. destruct Hst; [left|right]; by exists t.
Qed.

Lemma reachable_accounted ts s :
  Forall initial_task ts → reachable ts s → accounted s.
Proof.
  intros Hts [evs Hrun].
  assert (Hinit : accounted (start (Downloader_new ts))).
  { apply start_resume_accounted, joint_pass_accounted.
    pose proof (Downloader_new_accounted ts Hts) as Hc. same_accounted Hc. }
  revert Hinit Hrun. generalize (start (Downloader_new ts)).
  induction evs as [|e evs IH]; intros s0 H0 Hrun; simpl in Hrun.
  - by simplify_eq.
  - destruct (step e s0) as [s1|] eqn:He; [|done].
    eapply IH; [|done]. by eapply step_accounted.
Qed.

(** X20.  In a run that [main] starts no task is lost: a task that is
    neither [Failed] nor [Verified] waits in one of the two queues, or a
    closure is transferring or verifying it. *)
Theorem no_task_lost ts s i t :
  Forall initial_task ts → reachable ts s → tasks s !! i = Some t →
  status t = Failed ∨ status t = Verified
  ∨ i ∈ downloadQueue s ∨ i ∈ verifyQueue s
  ∨ ∃ p w r, promises s !! p = Some w ∧ promise_role w = Some (i, r).
Proof.
  intros Hts Hreach Ht.
  destruct (reachable_accounted ts s Hts Hreach i t Ht) as [?|[?|Hin]]; auto.
  right. right. unfold owners, owners_of in Hin.
  rewrite fmap_app, queued_of_fst, !elem_of_app in Hin.
  destruct Hin as [[?|?]|Hin]; auto. right. right.
  apply list_elem_of_fmap in Hin as ([j r] & -> & Hin).
  apply list_elem_of_omap in Hin as (w & Hw & Hr).
  apply list_elem_of_lookup in Hw as [p Hp]. by exists p, w, r.
Qed.

(** ** The run is never stuck *)

Lemma carries_refl s : carries s s.
Proof. split_and!; eauto. Qed.

Lemma carries_trans s1 s2 s3 : carries s1 s2 → carries s2 s3 → carries s1 s3.
Proof.
  intros (Hd1 & Hv1 & Hf1) (Hd2 & Hv2 & Hf2). split_and!.
  - intros q i ph Hq. destruct (Hd1 q i ph Hq) as [ph' Hq']. eauto.
  - intros q i ph Hq. destruct (Hv1 q i ph Hq) as [ph' Hq']. eauto.
  - intros j. by rewrite Hf2, Hf1.
Qed.

Lemma carries_same s s' :
  promises s' = promises s → tasks s' = tasks s → carries s s'.
Proof.
  intros Hp Ht. unfold carries, task_at. rewrite Hp, Ht. split_and!; eauto.
Qed.

Lemma loop_ok_download_carries s s' l :
  loop_ok is_download s l → carries s s' → loop_ok is_download s' l.
Proof.
  destruct l as [ids| |]; [|done..]. intros [Hne Hids] (Hd & _ & _).
  split; [done|]. intros p Hp. destruct (Hids p Hp) as ([i ph|i ph|] & Hw & Hk); try done.
  destruct (Hd p i ph Hw) as [ph' Hw']. by eexists.
Qed.

Lemma loop_ok_verification_carries s s' l :
  loop_ok is_verification s l → carries s s' → loop_ok is_verification s' l.
Proof.
  destruct l as [ids| |]; [|done..]. intros [Hne Hids] (_ & Hv & _).
  split; [done|]. intros p Hp. destruct (Hids p Hp) as ([i ph|i ph|] & Hw & Hk); try done.
  destruct (Hv p i ph Hw) as [ph' Hw']. by eexists.
Qed.

Lemma downloads_ok_carries s s' :
  downloads_ok s → carries s s' → activeDownloads s' = activeDownloads s →
  downloads_ok s'.
Proof.
  intros Hok (Hd & _ & Hf) Hm f p Hp. rewrite Hm in Hp.
  destruct (Hok f p Hp) as (i & ph & Hw & Hn).
  destruct (Hd p i ph Hw) as [ph' Hw']. exists i, ph'. by rewrite Hf.
Qed.

Lemma verifications_ok_carries s s' :
  verifications_ok s → carries s s' → activeVerifications s' = activeVerifications s →
  verifications_ok s'.
Proof.
  intros Hok (_ & Hv & Hf) Hm f p Hp. rewrite Hm in Hp.
  destruct (Hok f p Hp) as (i & ph & Hw & Hn).
  destruct (Hv p i ph Hw) as [ph' Hw']. exists i, ph'. by rewrite Hf.
Qed.

Lemma alter_filename (l : list DownloadTask) f i j :
  (∀ t, filename (f t) = filename t) →
  filename (alter f i l !!! j) = filename (l !!! j).
Proof.
  intros Hf. rewrite !list_lookup_total_alt.
  destruct (decide (j = i)) as [->|Hne].
  - rewrite list_lookup_alter_eq. destruct (l !! i); simpl; [apply Hf|done].
  - by rewrite list_lookup_alter_ne.
Qed.

Lemma keeps_filename l l' j : keeps l l' → filename (l' !!! j) = filename (l !!! j).
Proof.
  intros Hk. rewrite !list_lookup_total_alt. destruct (l !! j) as [t|] eqn:E.
  - destruct (keeps_lookup l l' j t Hk E) as (t' & Ht' & _ & Hf). by rewrite Ht'.
  - rewrite lookup_ge_None_2; [done|].
    rewrite <- (Forall2_length _ _ _ Hk). by apply lookup_ge_None_1.
Qed.

Lemma map_values_elem (m : gmap string nat) p :
  p ∈ map_values m → ∃ f, m !! f = Some p.
Proof.
  unfold map_values. intros ([f q] & -> & Hin)%list_elem_of_fmap.
  exists f. by apply elem_of_map_to_list.
Qed.

Lemma map_values_nonempty (m : gmap string nat) : 0 < size m → map_values m ≠ [].
Proof.
  unfold map_values. intros Hsize Hnil. apply fmap_nil_inv in Hnil.
  apply map_to_list_empty_iff in Hnil. subst m. rewrite map_size_empty in Hsize. lia.
Qed.

(** *** The loops *)

Lemma launch_download_carries i s :
  carries s (launch_download i s)
  ∧ (downloads_ok s → downloads_ok (launch_download i s))
  ∧ activeVerifications (launch_download i s) = activeVerifications s.
Proof.
  assert (Hc : carries s (launch_download i s)).
  { split_and!.
    - intros q j ph Hq. exists ph. simpl. by apply lookup_app_l_Some.
    - intros q j ph Hq. exists ph. simpl. by apply lookup_app_l_Some.
    - intros j. unfold task_at. simpl. by apply alter_filename. }
  split_and!; [done| |done].
  intros Hok f p Hp. simpl in Hp. apply lookup_insert_Some in Hp as [[<- <-]|[Hne Hp]].
  - exists i, Fetching. split; [|done]. simpl.
    rewrite lookup_app_r by done. by rewrite Nat.sub_diag.
  - destruct (Hok f p Hp) as (j & ph & Hw & Hn).
    destruct Hc as (Hd & _ & Hf). destruct (Hd p j ph Hw) as [ph' Hw'].
    exists j, ph'. by rewrite Hf.
Qed.

Lemma fill_downloads_carries q s :
  carries s (fill_downloads q s)
  ∧ (downloads_ok s → downloads_ok (fill_downloads q s))
  ∧ activeVerifications (fill_downloads q s) = activeVerifications s.
Proof.
  revert s. induction q as [|i rest IH]; intros s; simpl.
  - split_and!; [apply carries_refl|done|done].
  - case_decide as Hsize; [|split_and!; [apply carries_refl|done|done]].
    destruct (IH (launch_download i (set_downloadQueue rest s))) as (H1 & H2 & H3).
    destruct (launch_download_carries i (set_downloadQueue rest s)) as (H4 & H5 & H6).
    split_and!.
    + eapply carries_trans; [|exact H1]. eapply carries_trans; [|exact H4].
      by apply carries_same.
    + intros Hok. apply H2, H5. intros f p Hp. apply (Hok f p Hp).
    + by rewrite H3, H6.
Qed.

Lemma launch_verification_carries i s :
  carries s (launch_verification i s)
  ∧ (verifications_ok s → verifications_ok (launch_verification i s))
  ∧ activeDownloads (launch_verification i s) = activeDownloads s.
Proof.
  assert (Hc : carries s (launch_verification i s)).
  { split_and!.
    - intros q j ph Hq. exists ph. simpl. by apply lookup_app_l_Some.
    - intros q j ph Hq. exists ph. simpl. by apply lookup_app_l_Some.
    - intros j. unfold task_at. simpl. rewrite list_alter_alter_eq.
      by apply alter_filename. }
  split_and!; [done| |done].
  intros Hok f p Hp. simpl in Hp. apply lookup_insert_Some in Hp as [[<- <-]|[Hne Hp]].
  - exists i, Hashing. split; [|done]. simpl.
    rewrite lookup_app_r by done. by rewrite Nat.sub_diag.
  - destruct (Hok f p Hp) as (j & ph & Hw & Hn).
    destruct Hc as (_ & Hv & Hf). destruct (Hv p j ph Hw) as [ph' Hw'].
    exists j, ph'. by rewrite Hf.
Qed.

Lemma fill_verifications_carries q s :
  carries s (fill_verifications q s)
  ∧ (verifications_ok s → verifications_ok (fill_verifications q s))
  ∧ activeDownloads (fill_verifications q s) = activeDownloads s.
Proof.
  revert s. induction q as [|i rest IH]; intros s; simpl.
  - split_and!; [apply carries_refl|done|done].
  - case_decide as Hsize; [|split_and!; [apply carries_refl|done|done]].
    destruct (IH (launch_verification i (set_verifyQueue rest s))) as (H1 & H2 & H3).
    destruct (launch_verification_carries i (set_verifyQueue rest s)) as (H4 & H5 & H6).
    split_and!.
    + eapply carries_trans; [|exact H1]. eapply carries_trans; [|exact H4].
      by apply carries_same.
    + intros Hok. apply H2, H5. intros f p Hp. apply (Hok f p Hp).
    + by rewrite H3, H6.
Qed.

Lemma racing_on_downloads s :
  downloads_ok s → 0 < size (activeDownloads s) →
  loop_ok is_download s (Racing (map_values (activeDownloads s))).
Proof.
  intros Hok Hsize. split; [by apply map_values_nonempty|].
  intros p [f Hf]%map_values_elem. destruct (Hok f p Hf) as (i & ph & Hw & _).
  by eexists.
Qed.

Lemma racing_on_verifications s :
  verifications_ok s → 0 < size (activeVerifications s) →
  loop_ok is_verification s (Racing (map_values (activeVerifications s))).
Proof.
  intros Hok Hsize. split; [by apply map_values_nonempty|].
  intros p [f Hf]%map_values_elem. destruct (Hok f p Hf) as (i & ph & Hw & _).
  by eexists.
Qed.

Lemma processDownloads_alive s :
  downloads_ok s → verifications_ok s →
  loop_ok is_verification s (verifyLoop s) →
  alive (processDownloads s).
Proof.
  intros Hd Hv Hl. unfold processDownloads.
  destruct (fill_downloads_carries (downloadQueue s) s) as (Hc & Hd1 & Hm).
  destruct (fill_downloads_control (downloadQueue s) s) as (_ & Hvl & _).
  specialize (Hd1 Hd).
  assert (Hv1 : verifications_ok (fill_downloads (downloadQueue s) s))
    by (by eapply verifications_ok_carries).
  assert (Hl1 : loop_ok is_verification (fill_downloads (downloadQueue s) s)
                  (verifyLoop (fill_downloads (downloadQueue s) s))).
  { rewrite Hvl. by eapply loop_ok_verification_carries. }
  case_decide as Hout; [case_decide as Hsize|]; split; try done.
  by apply racing_on_downloads.
Qed.

Lemma processVerifications_alive s :
  downloads_ok s → verifications_ok s →
  loop_ok is_download s (downloadLoop s) → downloadLoop s ≠ Sleeping →
  alive (processVerifications s).
Proof.
  intros Hd Hv Hl Hns. unfold processVerifications.
  destruct (fill_verifications_carries (verifyQueue s) s) as (Hc & Hv1 & Hm).
  destruct (fill_verifications_control (verifyQueue s) s) as (_ & _ & Hdl).
  specialize (Hv1 Hv).
  assert (Hd1 : downloads_ok (fill_verifications (verifyQueue s) s))
    by (by eapply downloads_ok_carries).
  assert (Hl1 : loop_ok is_download (fill_verifications (verifyQueue s) s)
                  (downloadLoop (fill_verifications (verifyQueue s) s))).
  { rewrite Hdl. by eapply loop_ok_download_carries. }
  case_decide as Hout; [case_decide as Hidle; [|case_decide as Hsize]|];
    split; simpl; try done; try (by rewrite Hdl).
  by apply racing_on_verifications.
Qed.

Lemma joint_pass_alive s :
  downloads_ok s → verifications_ok s →
  loop_ok is_verification s (verifyLoop s) → alive (joint_pass s).
Proof.
  intros Hd Hv Hl. destruct (processDownloads_alive s Hd Hv Hl).
  by apply processVerifications_alive.
Qed.

Lemma start_resume_alive s : alive s → alive (start_resume s).
Proof.
  intros Hs. unfold start_resume.
  destruct (both_returned s); [|done].
  destruct (pass s); [|by destruct Hs|done].
  destruct (downloadQueue s) eqn:Hq; [by destruct Hs|].
  assert (Hj : alive (joint_pass (set_pass SecondPass s))).
  { destruct Hs. by apply joint_pass_alive. }
  destruct (both_returned _); [by destruct Hj|done].
Qed.

(** *** The closures *)

Lemma download_failed_promises i s : promises (download_failed i s) = promises s.
Proof. unfold download_failed. by case_decide. Qed.

Lemma verification_conclude_promises i h m s :
  promises (verification_conclude i h m s) = promises s.
Proof.
  unfold verification_conclude.
  destruct (progress (task_at s i)); [|done].
  destruct (falsy h || falsy m); [done|].
  destruct (progress (task_at _ i)); [|done].
  by case_decide.
Qed.

Lemma step_filename e s s' j :
  step e s = Some s' → filename (task_at s' j) = filename (task_at s j).
Proof.
  intros Hstep. unfold task_at. rewrite !list_lookup_total_alt.
  destruct (tasks s !! j) as [t|] eqn:Ht.
  - destruct (step_attempts e s s' j t Hstep Ht) as (t' & Ht' & Hf & _). by rewrite Ht'.
  - rewrite lookup_ge_None_2; [done|]. rewrite (step_length e s s' Hstep).
    by apply lookup_ge_None_1.
Qed.

Lemma worker_alive s s' p w w' :
  alive s → promises s !! p = Some w →
  (∃ i ph ph', w = DlWorker i ph ∧ w' = DlWorker i ph')
  ∨ (∃ i ph ph', w = VfWorker i ph ∧ w' = VfWorker i ph') →
  promises s' = <[p:=w']> (promises s) →
  (∀ j, filename (task_at s' j) = filename (task_at s j)) →
  activeDownloads s' = activeDownloads s →
  activeVerifications s' = activeVerifications s →
  downloadLoop s' = downloadLoop s → verifyLoop s' = verifyLoop s →
  alive s'.
Proof.
  intros [Hd Hv Hdl Hns Hvl] Hp Hkind Hps Hf Hmd Hmv Hld Hlv.
  assert (Hlt : p < length (promises s)) by (by eapply lookup_lt_Some).
  assert (Hc : carries s s').
  { split_and!; [| |done].
    - intros q i ph Hq. rewrite Hps. destruct (decide (q = p)) as [->|Hne].
      + rewrite list_lookup_insert_eq by done.
        destruct Hkind as [(i' & ph1 & ph2 & -> & ->)|(i' & ph1 & ph2 & -> & ->)];
          simplify_eq. by eexists.
      + rewrite list_lookup_insert_ne by done. by eexists.
    - intros q i ph Hq. rewrite Hps. destruct (decide (q = p)) as [->|Hne].
      + rewrite list_lookup_insert_eq by done.
        destruct Hkind as [(i' & ph1 & ph2 & -> & ->)|(i' & ph1 & ph2 & -> & ->)];
          simplify_eq. by eexists.
      + rewrite list_lookup_insert_ne by done. by eexists. }
  split.
  - by eapply downloads_ok_carries.
  - by eapply verifications_ok_carries.
  - rewrite Hld. by eapply loop_ok_download_carries.
  - by rewrite Hld.
  - rewrite Hlv. by eapply loop_ok_verification_carries.
Qed.

Lemma settle_download s p i :
  alive s → promises s !! p = Some (DlWorker i DlSaving) →
  alive (wake_downloads p
           (set_activeDownloads (delete (filename (task_at s i)) (activeDownloads s))
              (set_promise p Settled s))).
Proof.
  intros [Hd Hv Hdl Hns Hvl] Hp.
  set (s1 := set_activeDownloads (delete (filename (task_at s i)) (activeDownloads s))
               (set_promise p Settled s)).
  assert (Hother : ∀ q, q ≠ p → promises s1 !! q = promises s !! q).
  { intros q Hq. simpl. by rewrite list_lookup_insert_ne. }
  assert (Hd1 : downloads_ok s1).
  { intros f q Hq. simpl in Hq. apply lookup_delete_Some in Hq as [Hne Hq].
    destruct (Hd f q Hq) as (j & ph & Hw & Hn). exists j, ph.
    rewrite Hother; [done|]. intros ->. simplify_eq. }
  assert (Hv1 : verifications_ok s1).
  { intros f q Hq. destruct (Hv f q Hq) as (j & ph & Hw & Hn). exists j, ph.
    rewrite Hother; [done|]. intros ->. simplify_eq. }
  assert (Hvl1 : loop_ok is_verification s1 (verifyLoop s1)).
  { change (verifyLoop s1) with (verifyLoop s).
    destruct (verifyLoop s) as [ids| |]; [|done..]. destruct Hvl as [Hne Hids].
    split; [done|]. intros q Hq. destruct (Hids q Hq) as (w & Hw & Hk).
    exists w. rewrite Hother; [done|]. intros ->. by simplify_eq. }
  unfold wake_downloads. change (downloadLoop s1) with (downloadLoop s).
  destruct (downloadLoop s) as [ids| |] eqn:Hl; [|done|];
    [|split; try done; change (downloadLoop s1) with (downloadLoop s);
      by rewrite Hl].
  case_bool_decide as Hin; [by apply processDownloads_alive|].
  split; try done; change (downloadLoop s1) with (downloadLoop s); rewrite Hl; [|done].
  destruct Hdl as [Hne Hids]. split; [done|].
  intros q Hq. destruct (Hids q Hq) as (w & Hw & Hk). exists w.
  rewrite Hother; [done|]. by intros ->.
Qed.

Lemma settle_verification s p i :
  alive s → promises s !! p = Some (VfWorker i VfSaving) →
  alive (wake_verifications p
           (set_activeVerifications
              (delete (filename (task_at s i)) (activeVerifications s))
              (set_promise p Settled s))).
Proof.
  intros [Hd Hv Hdl Hns Hvl] Hp.
  set (s1 := set_activeVerifications
               (delete (filename (task_at s i)) (activeVerifications s))
               (set_promise p Settled s)).
  assert (Hother : ∀ q, q ≠ p → promises s1 !! q = promises s !! q).
  { intros q Hq. simpl. by rewrite list_lookup_insert_ne. }
  assert (Hv1 : verifications_ok s1).
  { intros f q Hq. simpl in Hq. apply lookup_delete_Some in Hq as [Hne Hq].
    destruct (Hv f q Hq) as (j & ph & Hw & Hn). exists j, ph.
    rewrite Hother; [done|]. intros ->. simplify_eq. }
  assert (Hd1 : downloads_ok s1).
  { intros f q Hq. destruct (Hd f q Hq) as (j & ph & Hw & Hn). exists j, ph.
    rewrite Hother; [done|]. intros ->. simplify_eq. }
  assert (Hdl1 : loop_ok is_download s1 (downloadLoop s1)).
  { change (downloadLoop s1) with (downloadLoop s).
    destruct (downloadLoop s) as [ids| |]; [|done..]. destruct Hdl as [Hne Hids].
    split; [done|]. intros q Hq. destruct (Hids q Hq) as (w & Hw & Hk).
    exists w. rewrite Hother; [done|]. intros ->. by simplify_eq. }
  unfold wake_verifications. change (verifyLoop s1) with (verifyLoop s).
  destruct (verifyLoop s) as [ids| |] eqn:Hl;
    [|split; try done; change (verifyLoop s1) with (verifyLoop s);
      by rewrite Hl..].
  case_bool_decide as Hin; [by apply processVerifications_alive|].
  split; try done; change (verifyLoop s1) with (verifyLoop s); rewrite Hl.
  destruct Hvl as [Hne Hids]. split; [done|].
  intros q Hq. destruct (Hids q Hq) as (w & Hw & Hk). exists w.
  rewrite Hother; [done|]. by intros ->.
Qed.

Lemma step_alive e s s' : alive s → step e s = Some s' → alive s'.
Proof.
  intros Hs Hstep. pose proof (λ j, step_filename e s s' j Hstep) as Hname.
  destruct e as [p len|p n|p|p|p h|p m|p|]; simpl in Hstep.
  - destruct (promises s !! p) as [[i [| |]|i ph|]|] eqn:Hp; simplify_eq.
    eapply (worker_alive s _ p); [done|exact Hp| |reflexivity|by auto|done..].
    left. by eexists _, _, _.
  - destruct (promises s !! p) as [[i [| |]|i ph|]|] eqn:Hp; simplify_eq.
    destruct (progress (task_at s i)) as [pr|] eqn:Hpr; simplify_eq.
    + eapply (worker_alive s _ p _ (DlWorker i Streaming));
        [done|exact Hp| | |by auto|done..].
      * left. by eexists _, _, _.
      * simpl. symmetry. by apply list_insert_id.
    + destruct (download_failed_maps i s) as [Hm1 Hm2].
      destruct (download_failed_control i s) as (_ & Hl1 & Hl2).
      eapply (worker_alive s _ p); [done|exact Hp| | |by auto|done..].
      * left. by eexists _, _, _.
      * unfold set_promise at 1, set_promises at 1; cbn [promises];
        by rewrite download_failed_promises.
  - destruct (promises s !! p) as [[i [| |]|i ph|]|] eqn:Hp; simplify_eq.
    eapply (worker_alive s _ p); [done|exact Hp| |reflexivity|by auto|done..].
    left. by eexists _, _, _.
  - destruct (promises s !! p) as [[i [| |]|i ph|]|] eqn:Hp; simplify_eq;
      destruct (download_failed_maps i s) as [Hm1 Hm2];
      destruct (download_failed_control i s) as (_ & Hl1 & Hl2);
      (eapply (worker_alive s _ p); [done|exact Hp| | |by auto|done..];
       [left; by eexists _, _, _|unfold set_promise at 1, set_promises at 1; cbn [promises];
        by rewrite download_failed_promises]).
  - destruct (promises s !! p) as [[i ph|i [|h'|]|]|] eqn:Hp; simplify_eq.
    destruct (progress (task_at s i)) as [pr|] eqn:Hpr; simplify_eq.
    + eapply (worker_alive s _ p); [done|exact Hp| |reflexivity|by auto|done..].
      right. by eexists _, _, _.
    + eapply (worker_alive s _ p); [done|exact Hp| |reflexivity|by auto|done..].
      right. by eexists _, _, _.
  - destruct (promises s !! p) as [[i ph|i [|h'|]|]|] eqn:Hp; simplify_eq.
    destruct (verification_conclude_maps i h' m s) as [Hm1 Hm2].
    destruct (verification_conclude_control i h' m s) as (_ & Hl1 & Hl2).
    eapply (worker_alive s _ p); [done|exact Hp| | |by auto|done..].
    * right. by eexists _, _, _.
    * unfold set_promise at 1, set_promises at 1; cbn [promises];
      by rewrite verification_conclude_promises.
  - destruct (promises s !! p) as [[i [| |]|i [|h'|]|]|] eqn:Hp; simplify_eq.
    + by apply start_resume_alive, settle_download.
    + by apply start_resume_alive, settle_verification.
  - destruct (verifyLoop s); simplify_eq.
    apply start_resume_alive. destruct Hs. by apply processVerifications_alive.
Qed.

Lemma reachable_alive ts s : reachable ts s → alive s.
Proof.
  intros [evs Hrun].
  assert (Hinit : alive (start (Downloader_new ts))).
  { by apply start_resume_alive, joint_pass_alive. }
  revert Hinit Hrun. generalize (start (Downloader_new ts)).
  induction evs as [|e evs IH]; intros s0 H0 Hrun; simpl in Hrun.
  - by simplify_eq.
  - destruct (step e s0) as [s1|] eqn:He; [|done].
    eapply IH; [|done]. by eapply step_alive.
Qed.

Lemma awaited_step s p w e :
  promises s !! p = Some w → awaited p w = Some e → ∃ s', step e s = Some s'.
Proof.
  intros Hp He. destruct w as [i [| |]|i [|h|]|]; simplify_eq/=; rewrite Hp; eauto.
  destruct (progress (task_at s i)); eauto.
Qed.

(** X21.  As long as [start] has not returned the run is not stuck: the
    timer of the verification loop is running, or a loop waits for a closure
    that itself waits for the completion of some I/O. *)
Theorem never_stuck ts s :
  reachable ts s → pass s = FirstPass →
  ∃ e s', step e s = Some s'
    ∧ (e = Tick ∨ ∃ p w, promises s !! p = Some w ∧ awaited p w = Some e).
Proof.
  intros Hreach Hpass.
  destruct (reachable_alive ts s Hreach) as [_ _ Hdl Hns Hvl].
  destruct (reachable_first_pass ts s Hreach) as [_ Hnb]. specialize (Hnb Hpass).
  assert (Hrace : ∀ kind ids, loop_ok kind s (Racing ids) →
            (∀ w, kind w → w ≠ Settled) →
            ∃ e s', step e s = Some s'
              ∧ (e = Tick ∨ ∃ p w, promises s !! p = Some w ∧ awaited p w = Some e)).
  { intros kind ids [Hne Hids] Hkind. destruct ids as [|p ids]; [done|].
    destruct (Hids p (list_elem_of_here _ _)) as (w & Hw & Hk).
    assert (He : ∃ e, awaited p w = Some e).
    { destruct w as [i [| |]|i [|h|]|]; simpl; eauto. by destruct (Hkind _ Hk). }
    destruct He as [e He]. destruct (awaited_step s p w e Hw He) as [s' Hs'].
    exists e, s'. split; [done|]. right. by exists p, w. }
  unfold both_returned in Hnb.
  destruct (downloadLoop s) as [ids| |] eqn:Hd.
  - apply (Hrace is_download ids Hdl). by intros [].
  - done.
  - destruct (verifyLoop s) as [ids| |] eqn:Hv; [| |done].
    + apply (Hrace is_verification ids Hvl). by intros [].
    + exists Tick. simpl. rewrite Hv. eauto.
Qed.

(** ** The further properties at concrete inputs *)

(** A listing of two files; the directory holds the second one and a file
    of another kind. *)
Lemma main_tasks_status_witness :
  createTask (baseline_name "0002") Downloaded
    ∈ main_tasks small_listing (Some [baseline_name "0002"; "notes.txt"%string])
  ∧ status (createTask (baseline_name "0002") Downloaded) = Downloaded.
Proof.
  assert (H1 : createTask (baseline_name "0002") Downloaded
                 ∈ main_tasks small_listing
                     (Some [baseline_name "0002"; "notes.txt"%string])).
  { replace (main_tasks small_listing (Some [baseline_name "0002"; "notes.txt"%string]))
      with [createTask (baseline_name "0001") Pending;
            createTask (baseline_name "0002") Downloaded]
      by (vm_compute; reflexivity).
    right. left. }
  split; [exact H1|].
  exact (proj2 (main_tasks_status _ _ _ H1)).
Defined.

Lemma listing_complete_witness :
  baseline_file (baseline_name "0001")
  ∧ baseline_name "0001"
      ∈ getRemoteFileList ("<a " ++ "href=" ++ dquote ++ baseline_name "0001"
                           ++ dquote ++ ">first</a>").
Proof.
  assert (H1 : baseline_file (baseline_name "0001")).
  { exists "25"%string, "0001"%string. split_and!; done. }
  split; [exact H1|].
  exact (proj1 (proj1 (listing_complete "<a " _ ">first</a>" None H1))).
Defined.

Lemma getMd5_sound_witness :
  getMd5 (Some (mkResponse true checksum_file)) = Some hash_a
  ∧ ∃ r pre name post,
      Some (mkResponse true checksum_file) = Some r ∧ ok r = true
      ∧ text r = (pre ++ "MD5(" ++ name ++ ")= " ++ hash_a ++ post)%string
      ∧ name ≠ EmptyString ∧ lacks ")" name = true
      ∧ String.length hash_a = 32 ∧ all_hex hash_a = true
      ∧ falsy (Some hash_a) = false.
Proof.
  assert (H1 : getMd5 (Some (mkResponse true checksum_file)) = Some hash_a)
    by (vm_compute; reflexivity).
  split; [exact H1|].
  exact (getMd5_sound _ _ H1).
Defined.

Lemma getMd5_reads_hash_witness :
  baseline_name "0001" ≠ EmptyString
  ∧ lacks ")" (baseline_name "0001") = true
  ∧ String.length hash_a = 32 ∧ all_hex hash_a = true
  ∧ getMd5 (Some (mkResponse true
               ("MD5(" ++ baseline_name "0001" ++ ")= " ++ hash_a ++ newline)))
    = Some hash_a.
Proof.
  assert (H1 : baseline_name "0001" ≠ EmptyString) by discriminate.
  assert (H2 : lacks ")" (baseline_name "0001") = true) by (vm_compute; reflexivity).
  assert (H3 : String.length hash_a = 32) by (vm_compute; reflexivity).
  assert (H4 : all_hex hash_a = true) by (vm_compute; reflexivity).
  split; [exact H1|]. split; [exact H2|]. split; [exact H3|]. split; [exact H4|].
  exact (getMd5_reads_hash _ _ newline H1 H2 H3 H4).
Defined.

(** One missing file whose first transfer fails: the task stays
    [Downloading]. *)
Lemma status_transitions_witness :
  Forall initial_task (reconcile one_file ∅)
  ∧ reachable (reconcile one_file ∅) (start (Downloader_new (reconcile one_file ∅)))
  ∧ step (TransferError 0) (start (Downloader_new (reconcile one_file ∅)))
    = Some (outcome [TransferError 0] (reconcile one_file ∅))
  ∧ ∃ t', tasks (outcome [TransferError 0] (reconcile one_file ∅)) !! 0 = Some t'
      ∧ (status t'
         = status (task_at (start (Downloader_new (reconcile one_file ∅))) 0)
         ∨ status_edge
             (status (task_at (start (Downloader_new (reconcile one_file ∅))) 0))
             (status t') = true).
Proof.
  assert (H1 : Forall initial_task (reconcile one_file ∅)) by apply reconcile_initial.
  assert (H2 : reachable (reconcile one_file ∅)
                 (start (Downloader_new (reconcile one_file ∅))))
    by (exists []; reflexivity).
  assert (H3 : step (TransferError 0) (start (Downloader_new (reconcile one_file ∅)))
               = Some (outcome [TransferError 0] (reconcile one_file ∅)))
    by (vm_compute; reflexivity).
  assert (H4 : tasks (start (Downloader_new (reconcile one_file ∅))) !! 0
               = Some (task_at (start (Downloader_new (reconcile one_file ∅))) 0))
    by (vm_compute; reflexivity).
  split; [exact H1|]. split; [exact H2|]. split; [exact H3|].
  exact (status_transitions _ _ _ _ _ _ H1 H2 H3 H4).
Defined.

(** One local file that is verified: the end of the snapshot write leaves the
    task as it is. *)
Lemma terminal_tasks_frozen_witness :
  Forall initial_task (reconcile one_file (list_to_set one_file))
  ∧ reachable (reconcile one_file (list_to_set one_file))
      (outcome good_copy (reconcile one_file (list_to_set one_file)))
  ∧ run [Persisted 0] (outcome good_copy (reconcile one_file (list_to_set one_file)))
    = Some (outcome (good_copy ++ [Persisted 0])
              (reconcile one_file (list_to_set one_file)))
  ∧ status (task_at (outcome good_copy
                       (reconcile one_file (list_to_set one_file))) 0) = Verified
  ∧ tasks (outcome (good_copy ++ [Persisted 0])
             (reconcile one_file (list_to_set one_file))) !! 0
    = Some (task_at (outcome good_copy
                       (reconcile one_file (list_to_set one_file))) 0).
Proof.
  assert (H1 : Forall initial_task (reconcile one_file (list_to_set one_file)))
    by apply reconcile_initial.
  assert (H2 : reachable (reconcile one_file (list_to_set one_file))
                 (outcome good_copy (reconcile one_file (list_to_set one_file))))
    by (exists good_copy; vm_compute; reflexivity).
  assert (H3 : run [Persisted 0]
                 (outcome good_copy (reconcile one_file (list_to_set one_file)))
               = Some (outcome (good_copy ++ [Persisted 0])
                         (reconcile one_file (list_to_set one_file))))
    by (vm_compute; reflexivity).
  assert (H4 : tasks (outcome good_copy
                 (reconcile one_file (list_to_set one_file))) !! 0
               = Some (task_at (outcome good_copy
                                  (reconcile one_file (list_to_set one_file))) 0))
    by (vm_compute; reflexivity).
  assert (H5 : status (task_at (outcome good_copy
                 (reconcile one_file (list_to_set one_file))) 0) = Verified)
    by (vm_compute; reflexivity).
  split; [exact H1|]. split; [exact H2|]. split; [exact H3|]. split; [exact H5|].
  exact (terminal_tasks_frozen _ _ _ _ _ _ H1 H2 H3 H4 (or_intror H5)).
Defined.

(** One missing file whose transfer has failed three times. *)
Lemma failed_tasks_stay_witness :
  Forall initial_task (reconcile one_file ∅)
  ∧ reachable (reconcile one_file ∅) (outcome three_failures (reconcile one_file ∅))
  ∧ run [Persisted 2] (outcome three_failures (reconcile one_file ∅))
    = Some (outcome (three_failures ++ [Persisted 2]) (reconcile one_file ∅))
  ∧ task_at (outcome three_failures (reconcile one_file ∅)) 0
      ∈ getFailedTasks (outcome three_failures (reconcile one_file ∅))
  ∧ attempts (task_at (outcome three_failures (reconcile one_file ∅)) 0) = MAX_RETRIES
  ∧ task_at (outcome three_failures (reconcile one_file ∅)) 0
      ∈ getFailedTasks (outcome (three_failures ++ [Persisted 2]) (reconcile one_file ∅)).
Proof.
  assert (H1 : Forall initial_task (reconcile one_file ∅)) by apply reconcile_initial.
  assert (H2 : reachable (reconcile one_file ∅)
                 (outcome three_failures (reconcile one_file ∅)))
    by (exists three_failures; vm_compute; reflexivity).
  assert (H3 : run [Persisted 2] (outcome three_failures (reconcile one_file ∅))
               = Some (outcome (three_failures ++ [Persisted 2]) (reconcile one_file ∅)))
    by (vm_compute; reflexivity).
  assert (H4 : task_at (outcome three_failures (reconcile one_file ∅)) 0
                 ∈ getFailedTasks (outcome three_failures (reconcile one_file ∅))).
  { replace (getFailedTasks (outcome three_failures (reconcile one_file ∅)))
      with [task_at (outcome three_failures (reconcile one_file ∅)) 0]
      by (vm_compute; reflexivity).
    left. }
  split; [exact H1|]. split; [exact H2|]. split; [exact H3|]. split; [exact H4|].
  exact (failed_tasks_stay _ _ _ _ _ H1 H2 H3 H4).
Defined.

(** One local file whose hash is the expected one. *)
Lemma verified_by_checksum_witness :
  step (Md5Result 0 (Some hash_a))
    (outcome [HashResult 0 (Some hash_a)] (reconcile one_file (list_to_set one_file)))
  = Some (outcome good_copy (reconcile one_file (list_to_set one_file)))
  ∧ status (task_at (outcome [HashResult 0 (Some hash_a)]
                       (reconcile one_file (list_to_set one_file))) 0) ≠ Verified
  ∧ status (task_at (outcome good_copy
                       (reconcile one_file (list_to_set one_file))) 0) = Verified
  ∧ ∃ p h, Md5Result 0 (Some hash_a) = Md5Result p (Some h)
      ∧ promises (outcome [HashResult 0 (Some hash_a)]
                    (reconcile one_file (list_to_set one_file))) !! p
        = Some (VfWorker 0 (FetchingMd5 (Some h)))
      ∧ h ≠ EmptyString.
Proof.
  assert (H1 : step (Md5Result 0 (Some hash_a))
                 (outcome [HashResult 0 (Some hash_a)]
                    (reconcile one_file (list_to_set one_file)))
               = Some (outcome good_copy (reconcile one_file (list_to_set one_file))))
    by (vm_compute; reflexivity).
  assert (H2 : tasks (outcome [HashResult 0 (Some hash_a)]
                 (reconcile one_file (list_to_set one_file))) !! 0
               = Some (task_at (outcome [HashResult 0 (Some hash_a)]
                                  (reconcile one_file (list_to_set one_file))) 0))
    by (vm_compute; reflexivity).
  assert (H3 : tasks (outcome good_copy
                 (reconcile one_file (list_to_set one_file))) !! 0
               = Some (task_at (outcome good_copy
                                  (reconcile one_file (list_to_set one_file))) 0))
    by (vm_compute; reflexivity).
  assert (H4 : status (task_at (outcome [HashResult 0 (Some hash_a)]
                 (reconcile one_file (list_to_set one_file))) 0) ≠ Verified)
    by (vm_compute; discriminate).
  assert (H5 : status (task_at (outcome good_copy
                 (reconcile one_file (list_to_set one_file))) 0) = Verified)
    by (vm_compute; reflexivity).
  split; [exact H1|]. split; [exact H4|]. split; [exact H5|].
  exact (verified_by_checksum _ _ _ _ _ _ H1 H2 H3 H4 H5).
Defined.

(** Eleven missing files, when ten transfers have been launched. *)
Lemma one_holder_per_task_witness :
  Forall initial_task (reconcile eleven_files ∅)
  ∧ reachable (reconcile eleven_files ∅) (start (Downloader_new (reconcile eleven_files ∅)))
  ∧ NoDup (downloadQueue (start (Downloader_new (reconcile eleven_files ∅)))
           ++ verifyQueue (start (Downloader_new (reconcile eleven_files ∅)))).
Proof.
  assert (H1 : Forall initial_task (reconcile eleven_files ∅)) by apply reconcile_initial.
  assert (H2 : reachable (reconcile eleven_files ∅)
                 (start (Downloader_new (reconcile eleven_files ∅))))
    by (exists []; reflexivity).
  split; [exact H1|]. split; [exact H2|].
  exact (proj1 (one_holder_per_task _ _ H1 H2)).
Defined.

(** The run in which eleven transfers are under way: the map holds ten. *)
Lemma map_sizes_capped_witness :
  reachable (reconcile eleven_files ∅) (outcome overlapping_retry (reconcile eleven_files ∅))
  ∧ size (activeDownloads (outcome overlapping_retry (reconcile eleven_files ∅)))
    ≤ CONCURRENT_DOWNLOADS
  ∧ size (activeVerifications (outcome overlapping_retry (reconcile eleven_files ∅)))
    ≤ CONCURRENT_VERIFICATIONS.
Proof.
  assert (H1 : reachable (reconcile eleven_files ∅)
                 (outcome overlapping_retry (reconcile eleven_files ∅)))
    by (exists overlapping_retry; vm_compute; reflexivity).
  split; [exact H1|].
  exact (map_sizes_capped _ _ H1).
Defined.

Lemma start_runs_one_pass_witness :
  reachable (reconcile one_file (list_to_set one_file))
    (outcome stale_copy (reconcile one_file (list_to_set one_file)))
  ∧ pass (outcome stale_copy (reconcile one_file (list_to_set one_file))) ≠ SecondPass.
Proof.
  assert (H1 : reachable (reconcile one_file (list_to_set one_file))
                 (outcome stale_copy (reconcile one_file (list_to_set one_file))))
    by (exists stale_copy; vm_compute; reflexivity).
  split; [exact H1|].
  exact (proj1 (start_runs_one_pass _ _ H1)).
Defined.

(** One local file whose verification has failed: the task waits in the
    download queue, whatever the timer does. *)
Lemma download_queue_stranded_witness :
  reachable (reconcile one_file (list_to_set one_file))
    (outcome stale_copy (reconcile one_file (list_to_set one_file)))
  ∧ downloadLoop (outcome stale_copy (reconcile one_file (list_to_set one_file)))
    = Returned
  ∧ run [Tick; Tick] (outcome stale_copy (reconcile one_file (list_to_set one_file)))
    = Some (outcome (stale_copy ++ [Tick; Tick])
              (reconcile one_file (list_to_set one_file)))
  ∧ downloadLoop (outcome (stale_copy ++ [Tick; Tick])
                    (reconcile one_file (list_to_set one_file))) = Returned.
Proof.
  assert (H1 : reachable (reconcile one_file (list_to_set one_file))
                 (outcome stale_copy (reconcile one_file (list_to_set one_file))))
    by (exists stale_copy; vm_compute; reflexivity).
  assert (H2 : downloadLoop (outcome stale_copy
                 (reconcile one_file (list_to_set one_file))) = Returned)
    by (vm_compute; reflexivity).
  assert (H3 : run [Tick; Tick]
                 (outcome stale_copy (reconcile one_file (list_to_set one_file)))
               = Some (outcome (stale_copy ++ [Tick; Tick])
                         (reconcile one_file (list_to_set one_file))))
    by (vm_compute; reflexivity).
  split; [exact H1|]. split; [exact H2|]. split; [exact H3|].
  exact (proj1 (download_queue_stranded _ _ _ _ H1 H2 H3)).
Defined.


Lemma progress_counters_witness :
  reachable (reconcile one_file ∅) (outcome one_transfer (reconcile one_file ∅))
  ∧ ui_total (setProgress (tasks (outcome one_transfer (reconcile one_file ∅)))
                (Downloader_ui (reconcile one_file ∅)))
    = length (reconcile one_file ∅).
Proof.
  assert (H1 : reachable (reconcile one_file ∅)
                 (outcome one_transfer (reconcile one_file ∅)))
    by (exists one_transfer; vm_compute; reflexivity).
  split; [exact H1|].
  exact (proj1 (progress_counters _ _ H1)).
Defined.

(** One missing file whose first transfer has failed: the task waits in the
    download queue. *)
Lemma no_task_lost_witness :
  Forall initial_task (reconcile one_file ∅)
  ∧ reachable (reconcile one_file ∅) (outcome [TransferError 0] (reconcile one_file ∅))
  ∧ (status (task_at (outcome [TransferError 0] (reconcile one_file ∅)) 0) = Failed
     ∨ status (task_at (outcome [TransferError 0] (reconcile one_file ∅)) 0) = Verified
     ∨ 0 ∈ downloadQueue (outcome [TransferError 0] (reconcile one_file ∅))
     ∨ 0 ∈ verifyQueue (outcome [TransferError 0] (reconcile one_file ∅))
     ∨ ∃ p w r, promises (outcome [TransferError 0] (reconcile one_file ∅)) !! p = Some w
                ∧ promise_role w = Some (0, r)).
Proof.
  assert (H1 : Forall initial_task (reconcile one_file ∅)) by apply reconcile_initial.
  assert (H2 : reachable (reconcile one_file ∅)
                 (outcome [TransferError 0] (reconcile one_file ∅)))
    by (exists [TransferError 0]; vm_compute; reflexivity).
  assert (H3 : tasks (outcome [TransferError 0] (reconcile one_file ∅)) !! 0
               = Some (task_at (outcome [TransferError 0] (reconcile one_file ∅)) 0))
    by (vm_compute; reflexivity).
  split; [exact H1|]. split; [exact H2|].
  exact (no_task_lost _ _ _ _ H1 H2 H3).
Defined.

(** One missing file whose transfer fails twice. *)
Lemma tasks_keep_identity_witness :
  run two_failures (start (Downloader_new (reconcile one_file ∅)))
  = Some (outcome two_failures (reconcile one_file ∅))
  ∧ length (tasks (outcome two_failures (reconcile one_file ∅)))
    = length (tasks (start (Downloader_new (reconcile one_file ∅)))).
Proof.
  assert (H1 : run two_failures (start (Downloader_new (reconcile one_file ∅)))
               = Some (outcome two_failures (reconcile one_file ∅)))
    by (vm_compute; reflexivity).
  split; [exact H1|].
  exact (proj1 (tasks_keep_identity _ _ _ H1)).
Defined.

(** One local file whose verification has failed: the timer is running. *)
Lemma never_stuck_witness :
  reachable (reconcile one_file (list_to_set one_file))
    (outcome stale_copy (reconcile one_file (list_to_set one_file)))
  ∧ pass (outcome stale_copy (reconcile one_file (list_to_set one_file))) = FirstPass
  ∧ ∃ e s',
      step e (outcome stale_copy (reconcile one_file (list_to_set one_file))) = Some s'
      ∧ (e = Tick
         ∨ ∃ p w, promises (outcome stale_copy
                              (reconcile one_file (list_to_set one_file))) !! p = Some w
                  ∧ awaited p w = Some e).
Proof.
  assert (H1 : reachable (reconcile one_file (list_to_set one_file))
                 (outcome stale_copy (reconcile one_file (list_to_set one_file))))
    by (exists stale_copy; vm_compute; reflexivity).
  assert (H2 : pass (outcome stale_copy
                 (reconcile one_file (list_to_set one_file))) = FirstPass)
    by (vm_compute; reflexivity).
  split; [exact H1|]. split; [exact H2|].
  exact (never_stuck _ _ H1 H2).
Defined.

(** The snapshot of a run in which one file has been transferred. *)
Lemma snapshot_keeps_progress_witness :
  tasks (outcome one_transfer (reconcile one_file ∅)) !! 0
  = Some (task_at (outcome one_transfer (reconcile one_file ∅)) 0)
  ∧ ∃ items v,
      loadProgress (saveProgress (tasks (outcome one_transfer (reconcile one_file ∅))) None)
      = JArr items
      ∧ items !! 0 = Some v
      ∧ json_get "url" v
        = Some (JStr (url (task_at (outcome one_transfer (reconcile one_file ∅)) 0)))
      ∧ json_get "md5" v
        = (JStr <$> md5 (task_at (outcome one_transfer (reconcile one_file ∅)) 0))
      ∧ json_get "progress" v
        = (progress_to_json
             <$> progress (task_at (outcome one_transfer (reconcile one_file ∅)) 0))
      ∧ ∀ pr, progress (task_at (outcome one_transfer (reconcile one_file ∅)) 0)
              = Some pr →
          json_get "progress" v ≫= json_get "bytes" = Some (JNum (bytes pr))
          ∧ json_get "progress" v ≫= json_get "total" = Some (JNum (total pr)).
Proof.
  assert (H1 : tasks (outcome one_transfer (reconcile one_file ∅)) !! 0
               = Some (task_at (outcome one_transfer (reconcile one_file ∅)) 0))
    by (vm_compute; reflexivity).
  split; [exact H1|].
  exact (snapshot_keeps_progress _ None _ _ H1).
Defined.
